(** * demucs.separate: model acquisition, integrity check and the
      separation pipeline of [src/demucs/separate.py]

    The development embeds the functions of [separate.py] in Rocq:
    - [download_file], [verify_file] and the model set-up at the start of
      [main] act on a small file system and an event log, through a state
      and exception monad;
    - SHA-256 ([hashlib.sha256]) is implemented on 32-bit words held in [Z];
    - the numeric pipeline of [main] (rounding to the 16-bit grid,
      normalisation, denormalisation, conversion to 16-bit samples) is
      written once over an interface of sample arithmetic and instantiated
      with IEEE binary32 ([SpecFloat], precision 24); the rounding errors
      of binary32 are bounded over the real numbers. *)

From Stdlib Require Import ZArith List Bool Lia String Ascii.
From Stdlib Require Import Strings.Byte.
From Stdlib Require Import Reals Lra.
From Stdlib Require Import SpecFloat.
From stdpp Require Import gmap strings list fin_maps.

Local Open Scope Z_scope.

(* ===================================================================== *)
(** * SHA-256 (the [hashlib.sha256] of [verify_file])                     *)
(* ===================================================================== *)

Module Sha256.

Definition w32 : Z := 2 ^ 32.
Definition wrap (x : Z) : Z := x mod w32.
Definition add32 (x y : Z) : Z := wrap (x + y).
Definition rotr (n x : Z) : Z :=
  wrap (Z.lor (Z.shiftr x n) (Z.shiftl x (32 - n))).
Definition shr (n x : Z) : Z := Z.shiftr x n.
Definition not32 (x : Z) : Z := w32 - 1 - x.

Definition Ch (x y z : Z) : Z := Z.lxor (Z.land x y) (Z.land (not32 x) z).
Definition Maj (x y z : Z) : Z :=
  Z.lxor (Z.lxor (Z.land x y) (Z.land x z)) (Z.land y z).
Definition bsig0 (x : Z) : Z := Z.lxor (Z.lxor (rotr 2 x) (rotr 13 x)) (rotr 22 x).
Definition bsig1 (x : Z) : Z := Z.lxor (Z.lxor (rotr 6 x) (rotr 11 x)) (rotr 25 x).
Definition ssig0 (x : Z) : Z := Z.lxor (Z.lxor (rotr 7 x) (rotr 18 x)) (shr 3 x).
Definition ssig1 (x : Z) : Z := Z.lxor (Z.lxor (rotr 17 x) (rotr 19 x)) (shr 10 x).

(** The constants of the standard: the first 32 bits of the fractional
    parts of the cube roots (for [K]) and of the square roots (for [H0]) of
    the first primes. *)
Definition is_prime (n : Z) : bool :=
forallb (fun d => negb (n mod d =? 0)) (map Z.of_nat (seq 2 (Z.to_nat n - 2))).

Definition primes_below (n : nat) : list Z :=
filter is_prime (map Z.of_nat (seq 2 (n - 2))).

Fixpoint cube_root_bits (b : nat) (n r : Z) : Z :=
match b with
| O => r
| S k =>
    let c := r + 2 ^ Z.of_nat k in
    cube_root_bits k n (if c * c * c <=? n then c else r)
end.

Definition cube_root (n : Z) : Z := cube_root_bits 40 n 0.

Definition K : list Z :=
Eval vm_compute in
  map (fun p => cube_root (p * 2 ^ 96) mod 2 ^ 32) (primes_below 312).

Definition H0 : list Z :=
Eval vm_compute in
  map (fun p => Z.sqrt (p * 2 ^ 64) mod 2 ^ 32) (primes_below 20).

Definition byte_val (b : byte) : Z := Z.of_N (Byte.to_N b).

(** Big-endian bytes of [x], [n] of them. *)
Fixpoint be_bytes (n : nat) (x : Z) : list Z :=
  match n with
  | O => []
  | S k => (x / 2 ^ (8 * Z.of_nat k)) mod 256 :: be_bytes k x
  end.

(** Message padding: a [1] bit, zeros up to 56 modulo 64, then the length
    in bits on 8 bytes. *)
Definition pad (msg : list Z) : list Z :=
  let len := Z.of_nat (length msg) in
  let zeros := Z.to_nat ((55 - len) mod 64) in
  msg ++ 0x80 :: repeat 0 zeros ++ be_bytes 8 (8 * len).

Fixpoint words (fuel : nat) (bs : list Z) : list Z :=
  match fuel, bs with
  | S k, a :: b :: c :: d :: rest =>
      (((a * 256 + b) * 256 + c) * 256 + d) :: words k rest
  | _, _ => []
  end.

Fixpoint blocks (fuel : nat) (ws : list Z) : list (list Z) :=
  match fuel, ws with
  | S k, _ :: _ => firstn 16 ws :: blocks k (skipn 16 ws)
  | _, _ => []
  end.

(** Message schedule, newest word first: [rev_w] holds W[t-1], W[t-2], ... *)
Definition next_w (rev_w : list Z) : Z :=
  add32 (add32 (ssig1 (nth 1 rev_w 0)) (nth 6 rev_w 0))
        (add32 (ssig0 (nth 14 rev_w 0)) (nth 15 rev_w 0)).

Fixpoint extend (n : nat) (rev_w : list Z) : list Z :=
  match n with
  | O => rev_w
  | S k => extend k (next_w rev_w :: rev_w)
  end.

Definition schedule (block : list Z) : list Z :=
  rev (extend 48 (rev block)).

Record regs := Regs { ra : Z; rb : Z; rc : Z; rd : Z;
                      re : Z; rf : Z; rg : Z; rh : Z }.

Definition round (s : regs) (kw : Z * Z) : regs :=
  let '(k, w) := kw in
  let t1 := add32 (add32 (add32 (rh s) (bsig1 (re s)))
                         (add32 (Ch (re s) (rf s) (rg s)) k)) w in
  let t2 := add32 (bsig0 (ra s)) (Maj (ra s) (rb s) (rc s)) in
  Regs (add32 t1 t2) (ra s) (rb s) (rc s) (add32 (rd s) t1) (re s) (rf s) (rg s).

Definition regs_of (h : list Z) : regs :=
  Regs (nth 0 h 0) (nth 1 h 0) (nth 2 h 0) (nth 3 h 0)
       (nth 4 h 0) (nth 5 h 0) (nth 6 h 0) (nth 7 h 0).

Definition list_of (s : regs) : list Z :=
  [ra s; rb s; rc s; rd s; re s; rf s; rg s; rh s].

Definition compress (h : list Z) (block : list Z) : list Z :=
  let s := fold_left round (combine K (schedule block)) (regs_of h) in
  map (fun p => add32 (fst p) (snd p)) (combine h (list_of s)).

Definition digest_words (msg : list byte) : list Z :=
  let bs := pad (map byte_val msg) in
  let ws := words (length bs) bs in
  fold_left compress (blocks (length ws) ws) H0.

(** Lowercase hexadecimal digits, as [hexdigest] prints them. *)
Definition hex_digit (d : Z) : ascii :=
  nth (Z.to_nat d)
      ["0"; "1"; "2"; "3"; "4"; "5"; "6"; "7";
       "8"; "9"; "a"; "b"; "c"; "d"; "e"; "f"]%char "0"%char.

Fixpoint hex_word (n : nat) (x : Z) : list ascii :=
  match n with
  | O => []
  | S k => hex_digit ((x / 16 ^ Z.of_nat k) mod 16) :: hex_word k x
  end.

Definition hexdigest (msg : list byte) : string :=
  string_of_list_ascii (flat_map (hex_word 8) (digest_words msg)).

End Sha256.

Definition bytes_of_string (s : string) : list byte := list_byte_of_string s.

(* ===================================================================== *)
(** * Files, events and the monad of effects                              *)
(* ===================================================================== *)

(** A [pathlib.Path] relative to the working directory, as its components.
    [p / s] appends the component [s] (operands hold no separator); an
    empty [s] leaves the path as it is. *)
Definition path := list string.

Definition path_div (p : path) (s : string) : path :=
  match s with
  | EmptyString => p
  | _ => p ++ [s]
  end.
Infix "/:" := path_div (at level 40, left associativity).

(** [Path.name]: the final component, empty for the path without one. *)
Definition path_name (p : path) : string := List.last p ""%string.

(** [Path.parent]. *)
Definition path_parent (p : path) : path := removelast p.

Fixpoint join_with (sep : string) (l : list string) : string :=
  match l with
  | [] => ""
  | [s] => s
  | s :: rest => s ++ sep ++ join_with sep rest
  end%string.

(** [str(path)]. *)
Definition path_str (p : path) : string :=
  match p with
  | [] => "."
  | _ => join_with "/" p
  end%string.

Inductive node :=
| File (content : list byte)
| Dir.

(** The exceptions the modelled code can meet.  [sys.exit(n)] raises
    [SystemExit n]; an uncaught exception ends the process with a nonzero
    status. *)
Inductive exc :=
| SystemExit (code : Z)
| FileNotFoundError
| FileExistsError
| IsADirectoryError
| NotADirectoryError
| ConnectionError
| ValueError
| KeyboardInterrupt
| RuntimeError (what : string).

Inductive event :=
| Stdout (s : string)
| Stderr (s : string)
| HttpGet (url : string)
| WavWritten (p : path) (content : list byte).

Record state := State {
  fs : gmap (list string) node;   (* the files and directories below [cwd] *)
  cwd : list string;              (* absolute path of the working directory *)
  log : list event                (* what the process has printed and fetched *)
}.

Inductive result (A : Type) :=
| Val (a : A)
| Exc (e : exc)
| NoFuel.
Arguments Val {A} a.
Arguments Exc {A} e.
Arguments NoFuel {A}.

Definition M (A : Type) : Type := state -> result A * state.

Definition ret {A} (a : A) : M A := fun s => (Val a, s).
Definition bind {A B} (m : M A) (k : A -> M B) : M B :=
  fun s => match m s with
           | (Val a, s') => k a s'
           | (Exc e, s') => (Exc e, s')
           | (NoFuel, s') => (NoFuel, s')
           end.
Definition raise {A} (e : exc) : M A := fun s => (Exc e, s).
Definition out_of_fuel {A} : M A := fun s => (NoFuel, s).

Declare Scope prog_scope.
Delimit Scope prog_scope with prog.
Notation "'let*' x ':=' m 'in' k" := (bind m (fun x => k))
  (at level 10, x pattern, m at level 100, k at level 200) : prog_scope.
Notation "m ';;' k" := (bind m (fun _ => k))
  (at level 100, right associativity) : prog_scope.
Local Open Scope prog_scope.

(** [try: body except: handler; raise] (a bare [except], which also catches
    [SystemExit] and [KeyboardInterrupt]).  An exception of the handler
    replaces the one being handled. *)
Definition try_except_reraise {A} (body : M A) (handler : M unit) : M A :=
  fun s => match body s with
           | (Exc e, s') =>
               match handler s' with
               | (Val _, s'') => (Exc e, s'')
               | (Exc e', s'') => (Exc e', s'')
               | (NoFuel, s'') => (NoFuel, s'')
               end
           | r => r
           end.

Definition when (b : bool) (m : M unit) : M unit := if b then m else ret tt.

Definition get_state : M state := fun s => (Val s, s).
Definition set_fs (f : gmap (list string) node) : M unit :=
  fun s => (Val tt, State f (cwd s) (log s)).
Definition emit (e : event) : M unit :=
  fun s => (Val tt, State (fs s) (cwd s) (log s ++ [e])).

(** [print(msg)] and [print(msg, file=sys.stderr)]. *)
Definition print (msg : string) : M unit := emit (Stdout msg).
Definition print_err (msg : string) : M unit := emit (Stderr msg).
Definition sys_exit {A} (code : Z) : M A := raise (SystemExit code).

(** The working directory itself always exists. *)
Definition node_at (f : gmap (list string) node) (p : path) : option node :=
  match p with
  | [] => Some Dir
  | _ => f !! p
  end.

Definition path_exists (p : path) : M bool :=
  let* s := get_state in
  ret (match node_at (fs s) p with Some _ => true | None => false end).

Definition path_is_file (p : path) : M bool :=
  let* s := get_state in
  ret (match node_at (fs s) p with Some (File _) => true | _ => false end).

(** [Path.absolute()] and [Path.resolve()] of a relative path, printed. *)
Definition path_absolute (c : list string) (p : path) : string :=
  ("/" ++ join_with "/" (c ++ p))%string.

(** [Path.unlink()]: removes a file; a directory cannot be unlinked. *)
Definition unlink (p : path) : M unit :=
  let* s := get_state in
  match node_at (fs s) p with
  | Some (File _) => set_fs (delete p (fs s))
  | Some Dir => raise IsADirectoryError
  | None => raise FileNotFoundError
  end.

(** [open(p, "wb")]: creates or truncates the file. *)
Definition open_wb (p : path) : M unit :=
  let* s := get_state in
  match node_at (fs s) p with
  | Some Dir => raise IsADirectoryError
  | _ =>
      match node_at (fs s) (path_parent p) with
      | Some Dir => set_fs (<[p := File []]> (fs s))
      | Some (File _) => raise NotADirectoryError
      | None => raise FileNotFoundError
      end
  end.

(** [output.write(data)] on a file opened by [open_wb]. *)
Definition write_bytes (p : path) (data : list byte) : M unit :=
  let* s := get_state in
  match node_at (fs s) p with
  | Some (File c) => set_fs (<[p := File (c ++ data)]> (fs s))
  | _ => raise FileNotFoundError
  end.

(** [open(p, "rb")]: the content of the file. *)
Definition open_rb (p : path) : M (list byte) :=
  let* s := get_state in
  match node_at (fs s) p with
  | Some (File c) => ret c
  | Some Dir => raise IsADirectoryError
  | None => raise FileNotFoundError
  end.

(** [os.mkdir]. *)
Definition os_mkdir (p : path) : M unit :=
  let* s := get_state in
  match node_at (fs s) p with
  | Some _ => raise FileExistsError
  | None =>
      match node_at (fs s) (path_parent p) with
      | Some Dir => set_fs (<[p := Dir]> (fs s))
      | Some (File _) => raise NotADirectoryError
      | None => raise FileNotFoundError
      end
  end.

(** [Path.mkdir(parents=..., exist_ok=...)], as [pathlib] writes it: try
    [os.mkdir]; on [FileNotFoundError] create the parents and retry; on
    another [OSError] succeed only for an existing directory when
    [exist_ok]. *)
Fixpoint mkdir_fuel (fuel : nat) (parents exist_ok : bool) (p : path) : M unit :=
  match fuel with
  | O => out_of_fuel
  | S k =>
      fun s =>
        match os_mkdir p s with
        | (Exc FileNotFoundError, s') =>
            match parents, p with
            | true, _ :: _ =>
                (mkdir_fuel k true true (path_parent p) ;;
                 mkdir_fuel k false exist_ok p) s'
            | _, _ => (Exc FileNotFoundError, s')
            end
        | (Exc e, s') =>
            match exist_ok, node_at (fs s') p with
            | true, Some Dir => (Val tt, s')
            | _, _ => (Exc e, s')
            end
        | r => r
        end
  end.

Definition mkdir (parents exist_ok : bool) (p : path) : M unit :=
  mkdir_fuel (2 + length p) parents exist_ok p.

(* ===================================================================== *)
(** * [download_file]                                                     *)
(* ===================================================================== *)

(** What the server and the machine do during one download:
    [requests.get] may raise; the [content-length] header may be absent,
    a number, or text [int] rejects; each iteration of the loop either
    receives a chunk of bytes, which is written, or raises (the connection
    breaks, the disk is full, the user interrupts). *)
Inductive header := HAbsent | HInt (n : Z) | HMalformed.

Inductive chunk :=
| Data (bs : list byte)
| Fault (e : exc).

Inductive http_response :=
| GetRaises (e : exc)
| Response (content_length : header) (body : list chunk).

Definition network := string -> http_response.

Definition BASE_URL : string := "https://dl.fbaipublicfiles.com/demucs/v2.0/".

(** [for data in response.iter_content(chunk_size=4096): output.write(data)] *)
Fixpoint write_chunks (target : path) (body : list chunk) : M unit :=
  match body with
  | [] => ret tt
  | Data bs :: rest => write_bytes target bs ;; write_chunks target rest
  | Fault e :: _ => raise e
  end.

Definition _download (net : network) (url : string) (target : path) : M unit :=
  emit (HttpGet url) ;;
  match net url with
  | GetRaises e => raise e
  | Response cl body =>
      match cl with
      | HMalformed => raise ValueError
      | _ =>
          open_wb target ;;
          write_chunks target body
      end
  end.

Definition download_file (net : network) (url : string) (target : path) : M unit :=
  try_except_reraise
    (_download net url target)
    (let* e := path_exists target in
     when e (unlink target)).

(* ===================================================================== *)
(** * [verify_file]                                                       *)
(* ===================================================================== *)

(** The [hashlib] object: [update] feeds bytes, [hexdigest] prints the
    digest of everything fed so far. *)
Record hasher := Hasher { fed : list byte }.
Definition sha256_new : hasher := Hasher [].
Definition update (h : hasher) (data : list byte) : hasher := Hasher (fed h ++ data).
Definition hexdigest (h : hasher) : string := Sha256.hexdigest (fed h).

Definition READ_SIZE : nat := Z.to_nat 65536.

(** [while True: data = f.read(n); if not data: break; hasher.update(data)]
    on the unread part [rest] of the file. *)
Fixpoint read_loop (fuel : nat) (n : nat) (rest : list byte) (h : hasher) : option hasher :=
  match fuel with
  | O => None
  | S k =>
      match firstn n rest with
      | [] => Some h
      | data => read_loop k n (skipn n rest) (update h data)
      end
  end.

Definition nl : string := String "010"%char EmptyString.
Definition dquote : string := String "034"%char EmptyString.

Definition invalid_signature_msg (c : list string) (target : path)
    (sha256 signature : string) : string :=
  ("Invalid sha256 signature for the file " ++ path_str target
   ++ ". Expected " ++ sha256 ++ " but got " ++ signature ++ "." ++ nl
   ++ "If you have recently updated the repo, it is possible "
   ++ "the checkpoints have been updated. It is also possible that a previous "
   ++ "download did not run to completion." ++ nl
   ++ "Please delete the file '" ++ path_absolute c target ++ "' "
   ++ "and try again.")%string.

Definition verify_file (target : path) (sha256 : string) : M unit :=
  let* content := open_rb target in
  match read_loop (S (length content)) READ_SIZE content sha256_new with
  | None => out_of_fuel
  | Some hasher =>
      let signature := hexdigest hasher in
      if negb (String.eqb signature sha256) then
        let* s := get_state in
        print_err (invalid_signature_msg (cwd s) target sha256 signature) ;;
        sys_exit 1
      else ret tt
  end.

(* ===================================================================== *)
(** * Sample arithmetic                                                   *)
(* ===================================================================== *)

(** The operations the pipeline applies to the elements of a tensor. *)
Record arith := Arith {
  num : Type;
  of_Z : Z -> num;                 (* a Python [int] operand, e.g. [2**15] *)
  add : num -> num -> num;
  sub : num -> num -> num;
  mul : num -> num -> num;
  div : num -> num -> num;
  sqrt : num -> num;
  round : num -> num;              (* [torch.round]: nearest integer, ties to even *)
  ltb : num -> num -> bool;        (* [<], false when an operand is NaN *)
  trunc : num -> option Z          (* integer part towards zero; [None] if there is none *)
}.

(** ** IEEE binary32, the [float32] of the tensors *)
Module F32.

Definition prec : Z := 24.
Definition emax : Z := 128.
Definition f32 := spec_float.

Definition of_Z (z : Z) : f32 := binary_normalize prec emax z 0 false.

(** The integer nearest to [m / 2^k], ties to even ([0 < k]). *)
Definition nearest_int (m : positive) (k : Z) : Z :=
  let q := Z.shiftr (Zpos m) k in
  let r := Zpos m - Z.shiftl q k in
  let half := Z.shiftl 1 (k - 1) in
  match r ?= half with
  | Lt => q
  | Gt => q + 1
  | Eq => if Z.even q then q else q + 1
  end.

(** Nearest integer, ties to even; the sign of a zero result is kept. *)
Definition round (x : f32) : f32 :=
  match x with
  | S754_finite s m e =>
      if 0 <=? e then x
      else
        let n := nearest_int m (- e) in
        binary_normalize prec emax (if s then - n else n) 0 s
  | _ => x
  end.

Definition trunc (x : f32) : option Z :=
  match x with
  | S754_zero _ => Some 0
  | S754_finite s m e =>
      let a := if 0 <=? e then Z.shiftl (Zpos m) e else Z.shiftr (Zpos m) (- e) in
      Some (if s then - a else a)
  | _ => None
  end.

Definition ops : arith :=
  Arith f32 of_Z (SFadd prec emax) (SFsub prec emax) (SFmul prec emax)
        (SFdiv prec emax) (SFsqrt prec emax) round SFltb trunc.

Definition is_nan (x : f32) : bool :=
  match x with S754_nan => true | _ => false end.

Definition is_finite (x : f32) : bool :=
  match x with S754_zero _ | S754_finite _ _ _ => true | _ => false end.

Definition is_zero (x : f32) : bool :=
  match x with S754_zero _ => true | _ => false end.

Definition valid (x : f32) : bool := valid_binary prec emax x.

(** The mantissa [m] moved left by [t] bits. *)
Definition shift_mantissa (m : positive) (t : Z) : positive := Z.to_pos (Zpos m * 2 ^ t).

End F32.


(* ===================================================================== *)
(** * The numeric steps of [main]                                         *)
(* ===================================================================== *)

Section Pipeline.
Variable A : arith.
Abbreviation T := (num A).

(** A tensor of shape [channels, samples], and one of shape
    [sources, channels, samples]. *)
Definition tensor2 := list (list T).
Definition tensor3 := list tensor2.

Inductive wav_array :=
| Int16 (d : list (list (option Z)))   (* [None]: the conversion of a NaN *)
| Float32 (d : tensor2).

Definition two15 : T := of_Z A (2 ^ 15).

(** [tensor.sum()], [tensor.mean()] and [tensor.std()] (unbiased) of a
    one-dimensional tensor; the elements are added from left to right. *)
Definition tsum (l : list T) : T := fold_left (add A) l (of_Z A 0).
Definition tmean (l : list T) : T := div A (tsum l) (of_Z A (Z.of_nat (length l))).
Definition tstd (l : list T) : T :=
  let m := tmean l in
  let sq := map (fun x => let d := sub A x m in mul A d d) l in
  sqrt A (div A (tsum sq) (of_Z A (Z.of_nat (length l) - 1))).

(** [tensor.transpose(0, 1)] of a rectangular tensor. *)
Fixpoint transpose {X} (rows : list (list X)) : list (list X) :=
  match rows with
  | [] => []
  | [r] => map (fun x => [x]) r
  | r :: rest => zip_with cons r (transpose rest)
  end.

(** [wav.mean(0)]: the mean over the channels, one value per sample. *)
Definition mean0 (wav : tensor2) : list T :=
  map (fun col => div A (tsum col) (of_Z A (Z.of_nat (length wav)))) (transpose wav).

(** [(wav * 2**15).round() / 2**15] *)
Definition discretize_sample (x : T) : T :=
  div A (round A (mul A x two15)) two15.
Definition discretize (wav : tensor2) : tensor2 := map (map discretize_sample) wav.

(** [(wav - ref.mean()) / ref.std()] *)
Definition normalize_sample (ref : list T) (x : T) : T :=
  div A (sub A x (tmean ref)) (tstd ref).
Definition normalize (ref : list T) (wav : tensor2) : tensor2 :=
  map (map (normalize_sample ref)) wav.

(** [sources * ref.std() + ref.mean()] *)
Definition denormalize_sample (ref : list T) (x : T) : T :=
  add A (mul A x (tstd ref)) (tmean ref).
Definition denormalize (ref : list T) (sources : tensor3) : tensor3 :=
  map (map (map (denormalize_sample ref))) sources.

(** [clamp_(lo, hi)] *)
Definition clamp (lo hi x : T) : T :=
  if ltb A x lo then lo else if ltb A hi x then hi else x.

(** [.short()]: the 16-bit integer of truncation. *)
Definition short (x : T) : option Z :=
  match trunc A x with
  | Some z => if (- 2 ^ 15 <=? z) && (z <=? 2 ^ 15 - 1) then Some z else None
  | None => None
  end.

(** [(source * 2**15).clamp_(-2**15, 2**15 - 1).short()] *)
Definition quantize_sample (x : T) : option Z :=
  short (clamp (of_Z A (- 2 ^ 15)) (of_Z A (2 ^ 15 - 1)) (mul A x two15)).

(** The array handed to [wavfile.write] for one source. *)
Definition output_array (float32 : bool) (source : tensor2) : wav_array :=
  if negb float32
  then Int16 (transpose (map (map quantize_sample) source))
  else Float32 (transpose source).

End Pipeline.

Arguments Int16 {A} d.
Arguments Float32 {A} d.
Arguments transpose {X} rows.

(* ===================================================================== *)
(** * [main]                                                              *)
(* ===================================================================== *)

Definition PRETRAINED_MODELS : gmap string string :=
  list_to_map
    [ ("demucs.th", "f6c4148ba0dc92242d82d7b3f2af55c77bd7cb4ff1a0a3028a523986f36a3cfd");
      ("demucs.th.gz", "6030f57f77560f57aaaff14c1bfcc808307224a7b2df6b1b87aaacf92f5c1884");
      ("demucs_extra.th", "3331bcc5d09ba1d791c3cf851970242b0bb229ce81dbada557b6d39e8c6a6a87");
      ("demucs_extra.th.gz", "3bd3054bdfa5c08a6ca5919b8f82f8e588cadf6e9e474fcd8b037de5f789a4a7");
      ("light.th", "79d1ee3c1541c729c552327756954340a1a46a11ce0009dea77dc583e4b6269c");
      ("light.th.gz", "98d8296d155ce117345daa5f70597ec8c9bd1ff44bd4ed403aaf5d8e805ae247");
      ("light_extra.th", "9e9b4af564229c80cc73c95d02d2058235bb054c6874b3cba4d5b26943a5ddcb");
      ("light_extra.th.gz", "7f3a163cba2332fe75178b5be81ddf26695fe5a4565f33c05e693b477f1c697d");
      ("tasnet.th", "be56693f6a5c4854b124f95bb9dd043f3167614898493738ab52e25648bec8a2");
      ("tasnet_extra.th", "0ccbece3acd98785a367211c9c35b1eadae8d148b0d37fe5a5494d6d335269b5")
    ]%string.

(** The parsed command line ([args] of [main]). *)
Record args := Args {
  tracks : list path;
  name : string;
  quantized : bool;
  out : path;
  models : path;
  dl : bool;
  device : string;
  shifts : Z;
  split : bool;
  float32 : bool
}.

(** [s.split(".")]. *)
Fixpoint split_dot (s : string) : list string :=
  match s with
  | EmptyString => [EmptyString]
  | String c rest =>
      if Ascii.eqb c "."%char then EmptyString :: split_dot rest
      else match split_dot rest with
           | [] => [String c EmptyString]
           | w :: ws => String c w :: ws
           end
  end.

Definition source_names : list string := ["drums"; "bass"; "other"; "vocals"]%string.

Definition lift {X} (r : exc + X) : M X :=
  match r with
  | inl e => raise e
  | inr x => ret x
  end.

Definition is_None {X} (o : option X) : bool :=
  match o with None => true | Some _ => false end.

Definition no_pretrained_msg (a : args) : string :=
  ("No pretrained model " ++ name a)%string.

Definition could_not_find_msg (model_path : path) : string :=
  ("Could not find model " ++ path_str model_path
   ++ ", however a matching pretrained model exist, "
   ++ "to download it, use --dl")%string.

Definition missing_track_msg (track : path) : string :=
  ("File " ++ path_str track ++ " does not exist. If the path contains spaces, "
   ++ "please try again after surrounding the entire path with quotes "
   ++ dquote ++ dquote ++ ".")%string.

Section Main.
Variable A : arith.

(** The collaborators of [main] that live outside [separate.py]. *)
Record env := Env {
  net : network;                        (* [requests.get] *)
  model : Type;
  load_model : list byte -> exc + model;
  model_to : model -> string -> exc + model;      (* [.to(device)] *)
  audio_read : node -> string -> exc + tensor2 A;
    (* [AudioFile(track).read(streams=0, samplerate=44100, channels=2).to(device)] *)
  apply_model : model -> tensor2 A -> Z -> bool -> exc + tensor3 A;
  wav_bytes : Z -> wav_array A -> list byte       (* the file [wavfile.write] produces *)
}.

Variable E : env.

(** [name = args.name + ".th"; if args.quantized: name += ".gz"] *)
Definition model_name (a : args) : string :=
  let name := (name a ++ ".th")%string in
  if quantized a then (name ++ ".gz")%string else name.

Definition model_path (a : args) : path := models a /: model_name a.

(** Lines 137-158 of [main]: find, fetch and check the weights. *)
Definition main_model_file (a : args) : M unit :=
  let name := model_name a in
  let model_path := models a /: name in
  let sha256 := PRETRAINED_MODELS !! name in
  let* is_file := path_is_file model_path in
  when (negb is_file)
    (when (is_None sha256)
       (print_err (no_pretrained_msg a) ;;
        sys_exit 1) ;;
     when (negb (dl a))
       (print_err (could_not_find_msg model_path) ;;
        sys_exit 1) ;;
     mkdir true true (models a) ;;
     let url := (BASE_URL ++ name)%string in
     print "Downloading pre-trained model weights, this could take a while..." ;;
     download_file (net E) url model_path) ;;
  match sha256 with
  | Some h => verify_file model_path h
  | None => ret tt
  end.

(** [load_model(model_path).to(args.device)] *)
Definition main_load_model (a : args) : M (model E) :=
  let* content := open_rb (model_path a) in
  let* m := lift (load_model E content) in
  lift (model_to E m (device a)).

(** [wavfile.write(str(p), rate, data)] *)
Definition wavfile_write (p : path) (rate : Z) (data : wav_array A) : M unit :=
  open_wb p ;;
  write_bytes p (wav_bytes E rate data) ;;
  emit (WavWritten p (wav_bytes E rate data)).

(** [for source, name in zip(sources, source_names): ...] *)
Fixpoint write_sources (a : args) (track_folder : path)
    (pairs : list (tensor2 A * string)) : M unit :=
  match pairs with
  | [] => ret tt
  | (source, name) :: rest =>
      wavfile_write (track_folder /: (name ++ ".wav")%string) 44100
                    (output_array A (float32 a) source) ;;
      write_sources a track_folder rest
  end.

(** [track.name.split(".")[0]] *)
Definition track_folder_name (track : path) : string :=
  hd EmptyString (split_dot (path_name track)).

(** The tensor given to [apply_model] for the waveform read from a track. *)
Definition model_input (wav : tensor2 A) : tensor2 A :=
  let wav := discretize A wav in
  let ref := mean0 A wav in
  normalize A ref wav.

(** The reference signal whose mean and deviation scale a track. *)
Definition reference (wav : tensor2 A) : list (num A) :=
  mean0 A (discretize A wav).

(** Lines 171-186: one iteration of the loop, for a track that exists. *)
Definition separate_track (a : args) (m : model E) (out : path) (track : path) : M unit :=
  print ("Separating track " ++ path_str track) ;;
  let* s := get_state in
  let* wav :=
    match node_at (fs s) track with
    | Some n => lift (audio_read E n (device a))
    | None => raise FileNotFoundError
    end in
  let wav := discretize A wav in
  let ref := mean0 A wav in
  let wav := normalize A ref wav in
  let* sources := lift (apply_model E m wav (shifts a) (split a)) in
  let sources := denormalize A ref sources in
  let track_folder := out /: track_folder_name track in
  mkdir false true track_folder ;;
  write_sources a track_folder (combine sources source_names).

(** Lines 164-186: [for track in args.tracks]. *)
Fixpoint for_tracks (a : args) (m : model E) (out : path) (ts : list path) : M unit :=
  match ts with
  | [] => ret tt
  | track :: rest =>
      let* e := path_exists track in
      (if negb e
       then print_err (missing_track_msg track)      (* [continue] *)
       else separate_track a m out track) ;;
      for_tracks a m out rest
  end.

Definition main (a : args) : M unit :=
  main_model_file a ;;
  let* m := main_load_model a in
  let out := out a /: name a in
  mkdir true true out ;;
  let* s := get_state in
  print ("Separated tracks will be stored in " ++ path_absolute (cwd s) out) ;;
  for_tracks a m out (tracks a).

End Main.

(* ===================================================================== *)
(** * Specification functions and concrete scenarios                      *)
(* ===================================================================== *)

(** The urls fetched, in order. *)
Definition http_gets (l : list event) : list string :=
  flat_map (fun e => match e with HttpGet u => [u] | _ => [] end) l.

Definition add_log (s : state) (e : event) : state :=
  State (fs s) (cwd s) (log s ++ [e]).

(** [msg] holds [part] as a contiguous piece. *)
Definition mentions (msg part : string) : Prop :=
  exists before after : string, msg = (before ++ part ++ after)%string.

Definition demo_state : state :=
  State (<[ ["models"; "demucs.th"]%string := File (bytes_of_string "abc") ]>
         (<[ ["models"]%string := Dir ]> ∅))
        ["home"; "user"]%string [].

(** A server that sends two chunks and then breaks the connection. *)
Definition broken_net : network :=
  fun _ => Response (HInt 12288)
             [Data (bytes_of_string "part one"); Data (bytes_of_string "part two");
              Fault ConnectionError].

(** A server that sends the whole file in two chunks. *)
Definition serving_net : network :=
  fun _ => Response (HInt 16)
             [Data (bytes_of_string "part one"); Data (bytes_of_string "part two")].

Definition models_dir_state : state :=
  State (<[ ["models"]%string := Dir ]> ∅) ["home"; "user"]%string [].

(** The write that [write_sources] makes for one pair of [zip]. *)
Definition stem_write (A : arith) (E : env A) (a : args) (track_folder : path)
    (pair : tensor2 A * string) : path * list byte :=
  (track_folder /: (snd pair ++ ".wav")%string,
   wav_bytes A E 44100 (output_array A (float32 a) (fst pair))).

(** The text before the last dot of [cs], if [cs] has a dot. *)
Fixpoint drop_last_suffix (cs : list ascii) : option (list ascii) :=
  match cs with
  | [] => None
  | c :: rest =>
      match drop_last_suffix rest with
      | Some kept => Some (c :: kept)
      | None => if Ascii.eqb c "."%char then Some [] else None
      end
  end.

(** The track folder as the output layout of the specification names it:
    the base name of the track without its extension ([Path.stem], the text
    before the last dot when that dot is neither the first nor the last
    character). *)
Definition basename_without_extension (name : string) : string :=
  match list_ascii_of_string name with
  | [] => name
  | c :: rest =>
      match drop_last_suffix rest with
      | Some kept =>
          if (length kept <? length rest - 1)%nat      (* the dot is not the last character *)
          then string_of_list_ascii (c :: kept) else name
      | None => name
      end
  end.

Definition byte_of_Z (z : Z) : byte :=
  match Byte.of_N (Z.to_N (z mod 256)) with
  | Some b => b
  | None => "000"%byte
  end.

Definition le16 (z : Z) : list byte := [byte_of_Z z; byte_of_Z (z / 256)].

(** A stand-in for the collaborators: the reader decodes every non-empty
    file to the same two-channel clip and fails on an empty one, the model
    answers four copies of its input, and the encoder lays out 16-bit
    samples in little-endian order. *)
Definition demo_wav : tensor2 F32.ops :=
  [ [SFdiv 24 128 (F32.of_Z 1) (F32.of_Z 2); SFdiv 24 128 (F32.of_Z (-1)) (F32.of_Z 4)];
    [SFdiv 24 128 (F32.of_Z 1) (F32.of_Z 2); SFdiv 24 128 (F32.of_Z 1) (F32.of_Z 4)] ].

Definition demo_env : env F32.ops :=
  Env F32.ops broken_net unit
      (fun _ => inr tt)
      (fun m _ => inr m)
      (fun n _ => match n with
                  | File [] => inl (RuntimeError "no audio stream")
                  | File _ => inr demo_wav
                  | Dir => inl IsADirectoryError
                  end)
      (fun _ wav _ _ => inr [wav; wav; wav; wav])
      (fun _ d => match d with
                  | Int16 rows =>
                      flat_map (flat_map (fun o => match o with
                                                   | Some z => le16 z
                                                   | None => []
                                                   end)) rows
                  | Float32 _ => bytes_of_string "f32"
                  end).

Definition serving_env : env F32.ops :=
  Env F32.ops serving_net unit (fun _ => inr tt) (fun m _ => inr m)
      (fun _ _ => inr demo_wav) (fun _ wav _ _ => inr [wav; wav; wav; wav])
      (fun _ _ => []).

Definition dl_args : args :=
  Args [] "demucs" false ["separated"]%string ["models"]%string true "cpu" 0 true false.

Definition empty_state : state := State ∅ ["home"; "user"]%string [].

Definition demo_args (ts : list path) : args :=
  Args ts "demucs" false ["separated"]%string ["models"]%string false "cpu" 0 true false.

Definition music_state : state :=
  State (list_to_map
           [ (["separated"], Dir); (["separated"; "demucs"], Dir);
             (["music"], Dir);
             (["music"; "a.b.wav"], File (bytes_of_string "RIFF"));
             (["music"; "bad.wav"], File []);
             (["music"; "good.wav"], File (bytes_of_string "RIFF")) ]%string)
        ["home"; "user"]%string [].

(** A zero of either sign, or NaN. *)
Definition zero_or_nan (x : F32.f32) : Prop := F32.is_zero x || F32.is_nan x = true.

(** A silent stereo clip of three samples. *)
Definition silent_wav : tensor2 F32.ops :=
  [ [S754_zero false; S754_zero false; S754_zero false];
    [S754_zero false; S754_zero false; S754_zero false] ].

(** A normal float on the grid: scaled by 2^15 it is an integer that
    [round] keeps. *)
Definition on_grid (z : F32.f32) : Prop :=
  exists (s : bool) (M : positive) (E : Z),
    z = S754_finite s M E
    /\ Zpos (digits2_pos M) = 24
    /\ -148 <= E <= 89
    /\ F32.round (S754_finite s M (E + 15)) = S754_finite s M (E + 15).

(** The integer part of [m * 2^e], for a mantissa and an exponent. *)
Definition int_part (m : positive) (e : Z) : Z :=
  if 0 <=? e then Zpos m * 2 ^ e else Zpos m / 2 ^ (- e).

(** The integer part, towards zero, of the exact product of a sample
    by 2^15. *)
Definition scaled_trunc (x : F32.f32) : option Z :=
  match x with
  | S754_zero _ => Some 0
  | S754_finite s m e => Some (if s then - int_part m (e + 15) else int_part m (e + 15))
  | _ => None
  end.

Definition clamp16 (z : Z) : Z := Z.max (- 2 ^ 15) (Z.min (2 ^ 15 - 1) z).

(** What [quantize_sample] gives, from the exact value of the sample. *)
Definition quantize_exact (x : F32.f32) : option Z :=
  match x with
  | S754_nan => None
  | S754_infinity s => Some (if s then - 2 ^ 15 else 2 ^ 15 - 1)
  | _ => option_map clamp16 (scaled_trunc x)
  end.

Definition f32_lo : F32.f32 := S754_finite true 8388608 (-8).
Definition f32_hi : F32.f32 := S754_finite false 16776704 (-9).

(** ** Further scenarios and specification functions *)

(** A directory stands where the weights should be. *)
Definition dir_target_state : state :=
  State (<[ ["models"; "demucs.th"]%string := Dir ]>
         (<[ ["models"]%string := Dir ]> ∅))
        ["home"; "user"]%string [].

(** A digit of lowercase hexadecimal. *)
Definition is_lower_hex (c : ascii) : bool :=
  existsb (Ascii.eqb c)
    ["0"; "1"; "2"; "3"; "4"; "5"; "6"; "7";
     "8"; "9"; "a"; "b"; "c"; "d"; "e"; "f"]%char.

(** The form of every SHA-256 [hexdigest]. *)
Definition well_formed_digest (h : string) : bool :=
  (String.length h =? 64)%nat && forallb is_lower_hex (list_ascii_of_string h).

(** No character of [s] is a dot. *)
Fixpoint no_dot (s : string) : bool :=
  match s with
  | EmptyString => true
  | String c rest => negb (Ascii.eqb c "."%char) && no_dot rest
  end.

(** The paths of the files written, in order. *)
Definition wav_paths (l : list event) : list path :=
  flat_map (fun e => match e with WavWritten p _ => [p] | _ => [] end) l.

(** A model of two sources only, and a state with one track. *)
Definition duo_env : env F32.ops :=
  Env F32.ops broken_net unit (fun _ => inr tt) (fun m _ => inr m)
      (fun _ _ => inr demo_wav) (fun _ wav _ _ => inr [wav; wav])
      (fun _ _ => []).

Definition hidden_state : state :=
  State (list_to_map
           [ (["separated"], Dir); (["separated"; "demucs"], Dir);
             (["music"], Dir);
             (["music"; ".hidden.wav"], File (bytes_of_string "RIFF")) ]%string)
        ["home"; "user"]%string [].

(** The sample that the 16-bit value [n] stands for: [n / 2^15]. *)
Definition pcm16_sample (n : Z) : F32.f32 :=
  div F32.ops (of_Z F32.ops n) (two15 F32.ops).









(** A run on one track whose file name has two dots: weights of the user's
    own under [models], the track under [music], and no output directory
    yet. *)
Definition dotted_args : args :=
  Args [["music"; "a.b.wav"]%string] "mymodel" false ["separated"]%string
       ["models"]%string false "cpu" 0 true false.

Definition dotted_state : state :=
  State (list_to_map
           [ (["models"], Dir);
             (["models"; "mymodel.th"], File (bytes_of_string "weights"));
             (["music"], Dir);
             (["music"; "a.b.wav"], File (bytes_of_string "RIFF")) ]%string)
        ["home"; "user"]%string [].

(** ** The real value of a binary32 number and the error of a rounding *)

(** The power of two of exponent [e], as a real number. *)
Definition bpow (e : Z) : R := powerRZ 2 e.

(** The sign as a factor. *)
Definition sign_factor (s : bool) : R := if s then (-1)%R else 1%R.

(** The real number a binary32 value stands for (0 for what is not
    finite). *)
Definition f32_value (x : F32.f32) : R :=
  match x with
  | S754_finite s m e => (sign_factor s * IZR (Zpos m) * bpow e)%R
  | _ => 0%R
  end.

(** Zero or finite, and well formed. *)
Definition f32_finite (x : F32.f32) : Prop :=
  F32.is_finite x = true /\ F32.valid x = true.

(** The fraction [d] of a unit that the round and sticky bits stand for. *)
Definition located (d : R) (r s : bool) : Prop :=
  match r, s with
  | false, false => d = 0%R
  | false, true => (0 < d < 1 / 2)%R
  | true, false => d = (1 / 2)%R
  | true, true => (1 / 2 < d < 1)%R
  end.

(** The record [mrs], at exponent [e], stands for the real number [v]. *)
Definition represents (v : R) (mrs : shr_record) (e : Z) : Prop :=
  0 <= shr_m mrs
  /\ exists d : R, located d (shr_r mrs) (shr_s mrs)
                   /\ v = ((IZR (shr_m mrs) + d) * bpow e)%R.

(** The float [r] is finite and as near to the real number [v] as
    rounding to nearest makes it: within [|v| / 2^24], or [2^-150] where
    the result is subnormal. *)
Definition rounds_to (r : F32.f32) (v : R) : Prop :=
  f32_finite r
  /\ (Rabs (f32_value r - v) <= Rabs v / 16777216 + bpow (-150))%R.

(** A stereo clip of two samples, loud on the first and almost silent on
    the second: the channels cancel on the first sample. *)
Definition loud_wav : tensor2 F32.ops :=
  [ [S754_finite false 8388608 89; S754_zero false];
    [S754_finite true 8388608 89; S754_finite false 8388608 (-38)] ].

(* ===================================================================== *)
(** * Checks of the definitions on concrete inputs                        *)
(* ===================================================================== *)

Example sha256_abc :
  Sha256.hexdigest (bytes_of_string "abc")
  = "ba7816bf8f01cfea414140de5dae2223b00361a396177a9cb410ff61f20015ad"%string.
Proof. vm_compute. reflexivity. Qed.

Example sha256_empty :
  Sha256.hexdigest []
  = "e3b0c44298fc1c149afbf4c8996fb92427ae41e4649b934ca495991b7852b855"%string.
Proof. vm_compute. reflexivity. Qed.

Example sha256_two_blocks :
  Sha256.hexdigest
    (bytes_of_string "abcdbcdecdefdefgefghfghighijhijkijkljklmklmnlmnomnopnopq")
  = "248d6a61d20638b8e5c026930c3e6039a33ce45964ff2167f6ecedd419db06c1"%string.
Proof. vm_compute. reflexivity. Qed.

(* ===================================================================== *)
(** * [verify_file]: the digest decides                                   *)
(* ===================================================================== *)

Lemma READ_SIZE_pos : (0 < READ_SIZE)%nat.
Proof. unfold READ_SIZE. lia. Qed.

Lemma firstn_nil_inv {X} (n : nat) (l : list X) :
  (0 < n)%nat -> firstn n l = [] -> l = [].
Proof. destruct n, l; simpl; intros Hn H; try lia; congruence. Qed.

(** The read loop feeds the whole file to the hasher, whatever the size of
    the blocks, and always ends within [length rest + 1] reads. *)
Lemma read_loop_total (n : nat) (Hn : (0 < n)%nat) :
  forall (fuel : nat) (rest : list byte) (h : hasher),
    (length rest < fuel)%nat ->
    read_loop fuel n rest h = Some (update h rest).
Proof.
  induction fuel as [|k IH]; intros rest h Hlen; [lia|].
  simpl. destruct (firstn n rest) as [|b data] eqn:Hf.
  - apply firstn_nil_inv in Hf; [|exact Hn]. subst rest.
    unfold update. rewrite app_nil_r. destruct h; reflexivity.
  - rewrite IH.
    + unfold update; simpl. f_equal. f_equal.
      rewrite <- (firstn_skipn n rest) at 2. rewrite Hf.
      rewrite <- app_assoc. reflexivity.
    + destruct rest as [|x rest']; [destruct n; discriminate|].
      rewrite length_skipn. simpl in *. lia.
Qed.

Lemma hexdigest_read_loop (content : list byte) :
  read_loop (S (length content)) READ_SIZE content sha256_new
  = Some (Hasher content).
Proof. rewrite read_loop_total; [reflexivity | apply READ_SIZE_pos | lia]. Qed.

Lemma mentions_intro (before part after : string) :
  mentions (before ++ part ++ after) part.
Proof. exists before, after. reflexivity. Qed.

Lemma string_app_assoc (a b c : string) : ((a ++ b) ++ c = a ++ (b ++ c))%string.
Proof.
  induction a as [|x a IH]; [reflexivity|].
  change (String x ((a ++ b) ++ c) = String x (a ++ (b ++ c)))%string.
  f_equal. exact IH.
Qed.

(** C1. For every state in which [target] is a file, [verify_file] returns
    without any effect exactly when the lowercase hexadecimal SHA-256 digest
    of the content is the expected string; otherwise it leaves every file in
    place, prints to the error stream one message that holds the path, the
    expected digest and the digest found, and exits with status 1. *)
Theorem verify_file_digest_decides
    (s : state) (target : path) (expected : string) (content : list byte)
    (Hfile : node_at (fs s) target = Some (File content)) :
  let actual := Sha256.hexdigest content in
  let msg := invalid_signature_msg (cwd s) target expected actual in
  (verify_file target expected s = (Val tt, s) <-> actual = expected)
  /\ (actual <> expected ->
      verify_file target expected s
      = (Exc (SystemExit 1), State (fs s) (cwd s) (log s ++ [Stderr msg]))
      /\ 1 <> 0
      /\ mentions msg (path_str target)
      /\ mentions msg expected
      /\ mentions msg actual).
Proof.
  intros actual msg.
  assert (Hrun : verify_file target expected s
                 = if negb (String.eqb actual expected)
                   then (Exc (SystemExit 1),
                         State (fs s) (cwd s) (log s ++ [Stderr msg]))
                   else (Val tt, s)).
  { cbv [verify_file bind open_rb get_state]. rewrite Hfile.
    cbv [ret]. rewrite hexdigest_read_loop.
    change (hexdigest (Hasher content)) with actual.
    destruct (String.eqb actual expected); reflexivity. }
  split.
  - rewrite Hrun. destruct (String.eqb actual expected) eqn:He; simpl.
    + apply String.eqb_eq in He. split; auto.
    + apply String.eqb_neq in He. split; [discriminate | contradiction].
  - intros Hne. apply String.eqb_neq in Hne. rewrite Hrun, Hne. simpl.
    split; [reflexivity|]. split; [lia|].
    unfold msg, invalid_signature_msg.
    split; [|split].
    + eexists "Invalid sha256 signature for the file "%string, _. reflexivity.
    + eexists ("Invalid sha256 signature for the file " ++ path_str target
               ++ ". Expected ")%string, _.
      rewrite !string_app_assoc. reflexivity.
    + eexists ("Invalid sha256 signature for the file " ++ path_str target
               ++ ". Expected " ++ expected ++ " but got ")%string, _.
      rewrite !string_app_assoc. reflexivity.
Qed.

Lemma verify_file_digest_decides_witness :
  node_at (fs demo_state) ["models"; "demucs.th"]%string
  = Some (File (bytes_of_string "abc"))
  /\ verify_file ["models"; "demucs.th"]%string
       "ba7816bf8f01cfea414140de5dae2223b00361a396177a9cb410ff61f20015ad"
       demo_state
     = (Val tt, demo_state).
Proof.
  split; [reflexivity|].
  apply (verify_file_digest_decides demo_state ["models"; "demucs.th"]%string
           "ba7816bf8f01cfea414140de5dae2223b00361a396177a9cb410ff61f20015ad"
           (bytes_of_string "abc") eq_refl).
  vm_compute. reflexivity.
Defined.

(* ===================================================================== *)
(** * [download_file]: what is left after a failure                       *)
(* ===================================================================== *)

Lemma node_at_insert_eq (f : gmap (list string) node) (p : path) (n : node) :
  p <> [] -> node_at (<[p := n]> f) p = Some n.
Proof. destruct p; [congruence|]. intros _. simpl. apply lookup_insert_eq. Qed.

Lemma node_at_delete_eq (f : gmap (list string) node) (p : path) :
  p <> [] -> node_at (delete p f) p = None.
Proof. destruct p; [congruence|]. intros _. simpl. apply lookup_delete_eq. Qed.

Lemma node_at_file_nonempty (f : gmap (list string) node) (p : path) (c : list byte) :
  node_at f p = Some (File c) -> p <> [].
Proof. destruct p; simpl; congruence. Qed.

Lemma node_at_none_nonempty (f : gmap (list string) node) (p : path) :
  node_at f p = None -> p <> [].
Proof. destruct p; simpl; congruence. Qed.

(** Writing chunks keeps a file at [target], whether the loop ends or
    raises. *)
Lemma write_chunks_keeps_file (target : path) (body : list chunk) :
  forall (s : state) (c : list byte),
    node_at (fs s) target = Some (File c) ->
    exists (r : result unit) (s' : state) (c' : list byte),
      write_chunks target body s = (r, s')
      /\ r <> NoFuel
      /\ node_at (fs s') target = Some (File c').
Proof.
  induction body as [|[bs|e] rest IH]; intros s c Hc.
  - exists (Val tt), s, c. repeat split; [discriminate | exact Hc].
  - cbn [write_chunks]. cbv [bind write_bytes get_state]. rewrite Hc.
    cbv [set_fs].
    apply (IH (State (<[target := File (c ++ bs)]> (fs s)) (cwd s) (log s)) (c ++ bs)).
    simpl. apply node_at_insert_eq. eapply node_at_file_nonempty; eauto.
  - exists (Exc e), s, c. repeat split; [discriminate | exact Hc].
Qed.

(** [_download] never puts a directory at [target]. *)
Lemma _download_target_not_dir (net : network) (url : string) (target : path)
    (s : state) (r : result unit) (s1 : state) :
  node_at (fs s) target <> Some Dir ->
  _download net url target s = (r, s1) ->
  node_at (fs s1) target <> Some Dir /\ r <> NoFuel.
Proof.
  intros Hnd. cbv [_download bind emit].
  set (s0 := State (fs s) (cwd s) (log s ++ [HttpGet url])).
  assert (H0 : node_at (fs s0) target <> Some Dir) by exact Hnd.
  destruct (net url) as [e | cl body].
  { intros [= <- <-]. split; [exact H0 | discriminate]. }
  assert (Hopen : forall r1 s2,
            (open_wb target ;; write_chunks target body) s0 = (r1, s2) ->
            node_at (fs s2) target <> Some Dir /\ r1 <> NoFuel).
  { intros r1 s2. cbv [bind open_wb get_state].
    destruct (node_at (fs s0) target) as [[c|]|] eqn:Ht; try congruence.
    - destruct (node_at (fs s0) (path_parent target)) as [[c'|]|].
      + intros [= <- <-]. rewrite Ht. split; discriminate.
      + cbv [set_fs].
        destruct (write_chunks_keeps_file target body
                    (State (<[target := File []]> (fs s0)) (cwd s0) (log s0)) [])
          as (r' & s' & c' & Hw & Hr & Hc).
        { simpl. apply node_at_insert_eq. eapply node_at_file_nonempty; eauto. }
        rewrite Hw. destruct r'; intros [= <- <-]; rewrite Hc; split; congruence.
      + intros [= <- <-]. rewrite Ht. split; discriminate.
    - destruct (node_at (fs s0) (path_parent target)) as [[c'|]|].
      + intros [= <- <-]. rewrite Ht. split; discriminate.
      + cbv [set_fs].
        destruct (write_chunks_keeps_file target body
                    (State (<[target := File []]> (fs s0)) (cwd s0) (log s0)) [])
          as (r' & s' & c' & Hw & Hr & Hc).
        { simpl. apply node_at_insert_eq. eapply node_at_none_nonempty; eauto. }
        rewrite Hw. destruct r'; intros [= <- <-]; rewrite Hc; split; congruence.
      + intros [= <- <-]. rewrite Ht. split; discriminate. }
  destruct cl; try apply Hopen.
  intros [= <- <-]. split; [exact H0 | discriminate].
Qed.

(** The handler of [download_file] removes a file found at [target]. *)
Lemma cleanup_removes_file (target : path) (s : state) :
  node_at (fs s) target <> Some Dir ->
  exists s' : state,
    (let* e := path_exists target in when e (unlink target)) s = (Val tt, s')
    /\ node_at (fs s') target = None.
Proof.
  intros Hnd. cbv [bind path_exists get_state ret when unlink].
  destruct (node_at (fs s) target) as [[c|]|] eqn:Ht; try congruence.
  - rewrite Ht. cbv [set_fs]. eexists. split; [reflexivity|]. simpl.
    apply node_at_delete_eq. eapply node_at_file_nonempty; eauto.
  - exists s. split; [reflexivity | exact Ht].
Qed.

(** C2, as the code has it.  When [download_file] raises and the
    destination was not a directory before the call, nothing exists at the
    destination afterwards: the file that was being written, or an older
    file of that name, has been removed before the exception leaves. *)
Theorem download_file_failure_leaves_no_file
    (net : network) (url : string) (target : path)
    (s s' : state) (e : exc)
    (Hnd : node_at (fs s) target <> Some Dir)
    (Hraise : download_file net url target s = (Exc e, s')) :
  node_at (fs s') target = None.
Proof.
  revert Hraise. cbv [download_file try_except_reraise].
  destruct (_download net url target s) as [r s1] eqn:Hd.
  destruct (_download_target_not_dir _ _ _ _ _ _ Hnd Hd) as [Hnd1 Hr].
  destruct r as [[]|e1|]; try discriminate; try congruence.
  destruct (cleanup_removes_file target s1 Hnd1) as (s2 & Hc & Hnone).
  rewrite Hc. intros [= _ <-]. exact Hnone.
Qed.

Lemma download_file_failure_leaves_no_file_witness :
  node_at (fs models_dir_state) ["models"; "demucs.th"]%string <> Some Dir
  /\ download_file broken_net (BASE_URL ++ "demucs.th")
       ["models"; "demucs.th"]%string models_dir_state
     = (Exc ConnectionError,
        State (<[ ["models"]%string := Dir ]> ∅) ["home"; "user"]%string
              [HttpGet (BASE_URL ++ "demucs.th")])
  /\ node_at (<[ ["models"]%string := Dir ]> ∅) ["models"; "demucs.th"]%string = None.
Proof.
  assert (Hnd : node_at (fs models_dir_state) ["models"; "demucs.th"]%string
                <> Some Dir) by (vm_compute; discriminate).
  assert (Hrun : download_file broken_net (BASE_URL ++ "demucs.th")
                   ["models"; "demucs.th"]%string models_dir_state
                 = (Exc ConnectionError,
                    State (<[ ["models"]%string := Dir ]> ∅) ["home"; "user"]%string
                          [HttpGet (BASE_URL ++ "demucs.th")]))
    by (vm_compute; reflexivity).
  split; [exact Hnd|]. split; [exact Hrun|].
  exact (download_file_failure_leaves_no_file _ _ _ _ _ _ Hnd Hrun).
Defined.

(** The destination is a directory: [open] raises, the handler finds that
    the path exists, [unlink] raises in turn, and the directory stays. *)
Lemma download_file_directory_counterexample :
  let s := State (<[ ["models"; "demucs.th"]%string := Dir ]>
                  (<[ ["models"]%string := Dir ]> ∅)) ["home"; "user"]%string [] in
  let r := download_file broken_net (BASE_URL ++ "demucs.th")
             ["models"; "demucs.th"]%string s in
  fst r = Exc IsADirectoryError
  /\ node_at (fs (snd r)) ["models"; "demucs.th"]%string = Some Dir.
Proof. vm_compute. split; reflexivity. Qed.

(* ===================================================================== *)
(** * [main]: finding the weights                                         *)
(* ===================================================================== *)

Lemma verify_file_no_network (target : path) (h : string) (s : state) :
  http_gets (log (snd (verify_file target h s))) = http_gets (log s).
Proof.
  cbv [verify_file bind open_rb get_state].
  destruct (node_at (fs s) target) as [[c|]|]; try reflexivity.
  cbv [ret]. rewrite hexdigest_read_loop.
  destruct (negb _); [|reflexivity].
  cbv [print_err emit sys_exit raise]. simpl.
  unfold http_gets. rewrite flat_map_app. simpl. apply app_nil_r.
Qed.

(** C3. The set-up of the weights in [main] is this dispatch on the local
    file [models / name] and on the catalogue entry of [name]:
    a local file is used as it is, without any download, and is verified
    when the catalogue has a digest; without local file, a name outside the
    catalogue ends with the "No pretrained model" message and exit status 1;
    a catalogue name without [--dl] ends with the "Could not find model"
    message and exit status 1, nothing being fetched; with [--dl] the file
    is downloaded and then verified.  Verification fetches nothing. *)
Theorem main_model_file_dispatch (A : arith) (E : env A) (a : args) (s : state) :
  let p := models a /: model_name a in
  let fetch :=
    (mkdir true true (models a) ;;
     print "Downloading pre-trained model weights, this could take a while..." ;;
     download_file (net A E) (BASE_URL ++ model_name a) p) in
  main_model_file A E a s
  = match node_at (fs s) p, PRETRAINED_MODELS !! model_name a with
    | Some (File _), Some h => verify_file p h s
    | Some (File _), None => (Val tt, s)
    | _, None => (Exc (SystemExit 1), add_log s (Stderr (no_pretrained_msg a)))
    | _, Some h =>
        if dl a then (fetch ;; verify_file p h) s
        else (Exc (SystemExit 1), add_log s (Stderr (could_not_find_msg p)))
    end
  /\ (forall h : string,
        http_gets (log (snd (verify_file p h s))) = http_gets (log s))
  /\ 1 <> 0.
Proof.
  intros p fetch. split; [|split; [intros h; apply verify_file_no_network | lia]].
  unfold main_model_file. fold p.
  cbv [bind path_is_file get_state ret].
  destruct (node_at (fs s) p) as [[c|]|] eqn:Hp;
    destruct (PRETRAINED_MODELS !! model_name a) as [h|] eqn:Hh;
    simpl; try reflexivity;
    try (destruct (dl a); simpl; [|reflexivity]);
    try (unfold fetch; cbv [bind]; simpl;
         repeat (match goal with
                 | |- context [match ?x with _ => _ end] =>
                     destruct x as [[[]| |] ?] eqn:?; simpl; try reflexivity
                 end)).
Qed.

(** A catalogue name, no local file and no [--dl]: the message, exit
    status 1, and nothing fetched. *)
Example main_model_file_missing :
  main_model_file F32.ops demo_env (demo_args []) models_dir_state
  = (Exc (SystemExit 1),
     add_log models_dir_state
       (Stderr ("Could not find model models/demucs.th, however a matching "
                ++ "pretrained model exist, to download it, use --dl"))).
Proof. vm_compute. reflexivity. Qed.

(** A name outside the catalogue and no local file. *)
Example main_model_file_unknown :
  main_model_file F32.ops demo_env
    (Args [] "mymodel" true ["separated"] ["models"] true "cpu" 0 true false)%string
    models_dir_state
  = (Exc (SystemExit 1),
     add_log models_dir_state (Stderr "No pretrained model mymodel")).
Proof. vm_compute. reflexivity. Qed.

(** With [--dl] and a server whose file has another digest than the
    catalogue: one request, then the verification fails and the downloaded
    file stays in [models]. *)
Example main_model_file_download_mismatch :
  let r := main_model_file F32.ops serving_env dl_args empty_state in
  fst r = Exc (SystemExit 1)
  /\ http_gets (log (snd r)) = [(BASE_URL ++ "demucs.th")%string]
  /\ node_at (fs (snd r)) ["models"; "demucs.th"]%string
     = Some (File (bytes_of_string "part onepart two"))
  /\ node_at (fs (snd r)) ["models"]%string = Some Dir.
Proof. vm_compute. repeat split; reflexivity. Qed.

(* ===================================================================== *)
(** * [main]: the loop over the tracks                                    *)
(* ===================================================================== *)

Lemma bind_val_inv {X Y} (m : M X) (k : X -> M Y) (s s' : state) (y : Y) :
  bind m k s = (Val y, s') ->
  exists (x : X) (s1 : state), m s = (Val x, s1) /\ k x s1 = (Val y, s').
Proof.
  unfold bind. destruct (m s) as [[x|e|] s1]; try discriminate.
  intros H. exists x, s1. split; [reflexivity | exact H].
Qed.

Lemma lift_val_inv {X} (r : exc + X) (s s' : state) (x : X) :
  lift r s = (Val x, s') -> r = inr x /\ s' = s.
Proof. destruct r; cbv [lift raise ret]; intros [= ]; subst; auto. Qed.

Lemma os_mkdir_val (p : path) (s s' : state) :
  os_mkdir p s = (Val tt, s') ->
  node_at (fs s') p = Some Dir /\ log s' = log s.
Proof.
  cbv [os_mkdir bind get_state].
  destruct (node_at (fs s) p) eqn:Hp; [discriminate|].
  destruct (node_at (fs s) (path_parent p)) as [[c|]|]; try discriminate.
  cbv [set_fs]. intros [= <-]. simpl. split; [|reflexivity].
  apply node_at_insert_eq. eapply node_at_none_nonempty; eauto.
Qed.

Lemma os_mkdir_exc (p : path) (s s' : state) (e : exc) :
  os_mkdir p s = (Exc e, s') -> s' = s.
Proof.
  cbv [os_mkdir bind get_state].
  destruct (node_at (fs s) p) eqn:Hp.
  - cbv [raise]. congruence.
  - destruct (node_at (fs s) (path_parent p)) as [[c|]|]; cbv [raise set_fs]; congruence.
Qed.

(** A [mkdir] that returns leaves a directory at the path and prints
    nothing. *)
Lemma mkdir_fuel_val (fuel : nat) :
  forall (parents exist_ok : bool) (p : path) (s s' : state),
    mkdir_fuel fuel parents exist_ok p s = (Val tt, s') ->
    node_at (fs s') p = Some Dir /\ log s' = log s.
Proof.
  induction fuel as [|k IH]; intros parents exist_ok p s s'; [discriminate|].
  cbn [mkdir_fuel].
  destruct (os_mkdir p s) as [[[]|e|] s1] eqn:Hos.
  - intros [= <-]. eapply os_mkdir_val; eauto.
  - apply os_mkdir_exc in Hos. subst s1.
    assert (Hok : forall e0,
               match exist_ok, node_at (fs s) p with
               | true, Some Dir => (Val tt, s)
               | _, _ => (Exc e0, s)
               end = (Val tt, s') ->
               node_at (fs s') p = Some Dir /\ log s' = log s).
    { intros e0. destruct exist_ok; [|discriminate].
      destruct (node_at (fs s) p) as [[c|]|] eqn:Hp; try discriminate.
      intros [= <-]. auto. }
    destruct e; try apply Hok.
    destruct parents; [|discriminate].
    destruct p as [|c p']; [discriminate|].
    intros H. apply bind_val_inv in H. destruct H as ([] & s2 & H1 & H2).
    apply IH in H1. apply IH in H2. destruct H1 as [_ L1], H2 as [D2 L2].
    split; [exact D2 | congruence].
  - discriminate.
Qed.

Lemma wavfile_write_val (A : arith) (E : env A) (p : path) (rate : Z)
    (data : wav_array A) (s s' : state) :
  wavfile_write A E p rate data s = (Val tt, s') ->
  fs s' = <[p := File (wav_bytes A E rate data)]> (fs s)
  /\ cwd s' = cwd s
  /\ log s' = log s ++ [WavWritten p (wav_bytes A E rate data)].
Proof.
  cbv [wavfile_write bind open_wb get_state].
  assert (Hw : forall f0,
             p <> [] ->
             (let (r, s'0) := set_fs (<[p:=File []]> f0) s in
              match r with
              | Val _ =>
                  let (r0, s'1) := write_bytes p (wav_bytes A E rate data) s'0 in
                  match r0 with
                  | Val _ => emit (WavWritten p (wav_bytes A E rate data)) s'1
                  | Exc e => (Exc e, s'1)
                  | NoFuel => (NoFuel, s'1)
                  end
              | Exc e => (Exc e, s'0)
              | NoFuel => (NoFuel, s'0)
              end) = (Val tt, s') ->
             fs s' = <[p := File (wav_bytes A E rate data)]> f0
             /\ cwd s' = cwd s
             /\ log s' = log s ++ [WavWritten p (wav_bytes A E rate data)]).
  { intros f0 Hne. cbv [set_fs write_bytes bind get_state]. simpl.
    rewrite (node_at_insert_eq f0 p (File []) Hne).
    cbv [set_fs emit]. simpl. intros [= <-]. simpl.
    rewrite insert_insert_eq. auto. }
  destruct (node_at (fs s) p) as [[c|]|] eqn:Hp; try discriminate.
  - destruct (node_at (fs s) (path_parent p)) as [[c'|]|]; try discriminate.
    apply Hw. eapply node_at_file_nonempty; eauto.
  - destruct (node_at (fs s) (path_parent p)) as [[c'|]|]; try discriminate.
    apply Hw. eapply node_at_none_nonempty; eauto.
Qed.

Lemma write_sources_val (A : arith) (E : env A) (a : args) (folder : path)
    (pairs : list (tensor2 A * string)) :
  forall s s' : state,
    write_sources A E a folder pairs s = (Val tt, s') ->
    fs s' = fold_left (fun f w => <[fst w := File (snd w)]> f)
                      (map (stem_write A E a folder) pairs) (fs s)
    /\ log s' = log s ++ map (fun w => WavWritten (fst w) (snd w))
                             (map (stem_write A E a folder) pairs).
Proof.
  induction pairs as [|[src nm] rest IH]; intros s s'.
  - intros [= <-]. simpl. rewrite app_nil_r. auto.
  - cbn [write_sources]. intros H.
    apply bind_val_inv in H. destruct H as ([] & s1 & H1 & H2).
    apply wavfile_write_val in H1. destruct H1 as (F1 & _ & L1).
    apply IH in H2. destruct H2 as [F2 L2].
    rewrite F2, L2, F1, L1, <- app_assoc. split; reflexivity.
Qed.

Lemma node_at_insert_ne (f : gmap (list string) node) (p q : path) (n : node) :
  q <> p -> node_at (<[q := n]> f) p = node_at f p.
Proof. destruct p; [reflexivity|]. intros H. simpl. apply lookup_insert_ne. exact H. Qed.

Lemma path_div_cons (p : path) (c : ascii) (w : string) :
  p /: String c w = p ++ [String c w].
Proof. reflexivity. Qed.

Lemma app_singleton_neq {X} (l : list X) (x : X) : l ++ [x] <> l.
Proof.
  intros H. apply (f_equal (@length X)) in H. rewrite length_app in H. simpl in H. lia.
Qed.

(** X20. The stems of one track share the statistics of its reference.  A
    track that [separate_track] processes to the end, with a model of four
    sources, gets exactly four files, written in the order drums, bass,
    other, vocals, in the folder named after the track, which is a directory
    afterwards; each file holds the encoding of its source denormalised with
    the mean and the deviation of the one reference of the track, the
    reference whose statistics normalised the input of the model. *)
Theorem separate_track_writes_four_stems
    (A : arith) (E : env A) (a : args) (m : model A E) (track : path)
    (s s' : state)
    (Hfour : forall m0 w sh sp srcs,
        apply_model A E m0 w sh sp = inr srcs -> length srcs = 4%nat)
    (Hrun : separate_track A E a m (out a /: name a) track s = (Val tt, s')) :
  let folder := out a /: name a /: track_folder_name track in
  let enc := fun src => wav_bytes A E 44100 (output_array A (float32 a) src) in
  exists (n : node) (wav drums bass other vocals : tensor2 A) (sources : tensor3 A),
    node_at (fs s) track = Some n
    /\ audio_read A E n (device a) = inr wav
    /\ apply_model A E m (model_input A wav) (shifts a) (split a) = inr sources
    /\ denormalize A (reference A wav) sources = [drums; bass; other; vocals]
    /\ log s' = log s ++
         [ Stdout ("Separating track " ++ path_str track);
           WavWritten (folder /: "drums.wav") (enc drums);
           WavWritten (folder /: "bass.wav") (enc bass);
           WavWritten (folder /: "other.wav") (enc other);
           WavWritten (folder /: "vocals.wav") (enc vocals) ]
    /\ node_at (fs s') folder = Some Dir
    /\ node_at (fs s') (folder /: "drums.wav") = Some (File (enc drums))
    /\ node_at (fs s') (folder /: "bass.wav") = Some (File (enc bass))
    /\ node_at (fs s') (folder /: "other.wav") = Some (File (enc other))
    /\ node_at (fs s') (folder /: "vocals.wav") = Some (File (enc vocals)).
Proof.
  intros folder enc. revert Hrun. unfold separate_track.
  intros H. apply bind_val_inv in H. destruct H as ([] & s0 & H0 & H).
  cbv [print emit] in H0. injection H0 as <-.
  apply bind_val_inv in H. destruct H as (s0' & s1 & H1 & H).
  cbv [get_state] in H1. injection H1 as <- <-.
  apply bind_val_inv in H. destruct H as (wav & s2 & H2 & H).
  simpl in H2.
  destruct (node_at (fs s) track) as [n|] eqn:Hn; [|discriminate].
  apply lift_val_inv in H2. destruct H2 as [Hread ->].
  apply bind_val_inv in H. destruct H as (sources & s3 & H3 & H).
  apply lift_val_inv in H3. destruct H3 as [Happly ->].
  apply bind_val_inv in H. destruct H as ([] & s4 & H4 & H).
  apply mkdir_fuel_val in H4. destruct H4 as [Hdir Hlog4]. fold folder in Hdir.
  apply write_sources_val in H. destruct H as [Hfs Hlog].
  fold folder in Hfs, Hlog.
  pose proof (Hfour _ _ _ _ _ Happly) as Hlen.
  assert (Hlen' : length (denormalize A (mean0 A (discretize A wav)) sources) = 4%nat)
    by (unfold denormalize; rewrite length_map; exact Hlen).
  destruct (denormalize A (mean0 A (discretize A wav)) sources)
    as [|drums [|bass [|other [|vocals [|]]]]] eqn:Hden; try discriminate.
  exists n, wav, drums, bass, other, vocals, sources.
  split; [reflexivity|]. split; [exact Hread|]. split; [exact Happly|].
  split; [exact Hden|].
  simpl in Hfs, Hlog. unfold stem_write in Hfs, Hlog. simpl in Hfs, Hlog.
  fold (enc drums) (enc bass) (enc other) (enc vocals) in Hfs, Hlog.
  rewrite !path_div_cons in *.
  split.
  { rewrite Hlog, Hlog4. simpl. rewrite <- app_assoc. reflexivity. }
  rewrite Hfs.
  assert (Hinj : forall x y : string, x <> y -> folder ++ [x] <> folder ++ [y]).
  { intros x y Hxy Heq. apply app_inv_head in Heq. congruence. }
  repeat split.
  - rewrite !node_at_insert_ne by apply app_singleton_neq. exact Hdir.
  - rewrite !node_at_insert_ne by (apply Hinj; discriminate).
    apply node_at_insert_eq. destruct folder; discriminate.
  - rewrite !node_at_insert_ne by (apply Hinj; discriminate).
    apply node_at_insert_eq. destruct folder; discriminate.
  - rewrite !node_at_insert_ne by (apply Hinj; discriminate).
    apply node_at_insert_eq. destruct folder; discriminate.
  - apply node_at_insert_eq. destruct folder; discriminate.
Qed.

Lemma demo_env_four (m0 : model F32.ops demo_env) (w : tensor2 F32.ops) (sh : Z)
    (sp : bool) (srcs : tensor3 F32.ops) :
  apply_model F32.ops demo_env m0 w sh sp = inr srcs -> length srcs = 4%nat.
Proof. simpl. intros [= <-]. reflexivity. Qed.

Lemma separate_track_writes_four_stems_witness :
  let a := demo_args [["music"; "good.wav"]%string] in
  let r := separate_track F32.ops demo_env a tt (out a /: name a)
             ["music"; "good.wav"]%string music_state in
  (forall m0 w sh sp srcs,
      apply_model F32.ops demo_env m0 w sh sp = inr srcs -> length srcs = 4%nat)
  /\ r = (Val tt, snd r)
  /\ node_at (fs (snd r)) (out a /: name a /: track_folder_name ["music"; "good.wav"]%string)
     = Some Dir.
Proof.
  intros a r.
  assert (Hrun : r = (Val tt, snd r)) by (vm_compute; reflexivity).
  split; [exact demo_env_four|]. split; [exact Hrun|].
  destruct (separate_track_writes_four_stems F32.ops demo_env a tt
              ["music"; "good.wav"]%string music_state (snd r) demo_env_four Hrun)
    as (n & wav & d & b & o & v & srcs & _ & _ & _ & _ & _ & Hdir & _).
  exact Hdir.
Defined.

(** C7, at the failing input.  [main] on the track [music/a.b.wav], from a
    state without output directory: the run ends normally, the directories
    [separated] and [separated/mymodel] have been created, and the four
    stems are written in the order drums, bass, other, vocals; but their
    folder is [a], the text before the first dot, and not [a.b], the base
    name of the track without its extension, under which nothing exists. *)
Theorem main_track_folder_first_dot :
  let r := main F32.ops demo_env dotted_args dotted_state in
  fst r = Val tt
  /\ node_at (fs dotted_state) ["separated"]%string = None
  /\ node_at (fs (snd r)) ["separated"]%string = Some Dir
  /\ node_at (fs (snd r)) ["separated"; "mymodel"]%string = Some Dir
  /\ node_at (fs (snd r)) ["separated"; "mymodel"; "a"]%string = Some Dir
  /\ wav_paths (log (snd r))
     = [ ["separated"; "mymodel"; "a"; "drums.wav"];
         ["separated"; "mymodel"; "a"; "bass.wav"];
         ["separated"; "mymodel"; "a"; "other.wav"];
         ["separated"; "mymodel"; "a"; "vocals.wav"] ]%string
  /\ basename_without_extension "a.b.wav" = "a.b"%string
  /\ node_at (fs (snd r)) ["separated"; "mymodel"; "a.b"]%string = None
  /\ node_at (fs (snd r)) ["separated"; "mymodel"; "a.b"; "drums.wav"]%string = None.
Proof. vm_compute. repeat split; reflexivity. Qed.

(** C5, as the code has it.  A track whose path does not exist is skipped
    with a message on the error stream and the loop goes on with the next
    one; an exception raised while a track is read, separated or written
    leaves the loop at once: the remaining tracks are not processed. *)
Theorem for_tracks_failure_policy
    (A : arith) (E : env A) (a : args) (m : model A E) (out : path)
    (track : path) (rest : list path) (s : state) :
  (node_at (fs s) track = None ->
   for_tracks A E a m out (track :: rest) s
   = for_tracks A E a m out rest (add_log s (Stderr (missing_track_msg track))))
  /\ (forall (e : exc) (s1 : state),
        node_at (fs s) track <> None ->
        separate_track A E a m out track s = (Exc e, s1) ->
        for_tracks A E a m out (track :: rest) s = (Exc e, s1)).
Proof.
  split.
  - intros Hnone. cbn [for_tracks]. cbv [bind path_exists get_state ret].
    rewrite Hnone. reflexivity.
  - intros e s1 Hsome Hexc. cbn [for_tracks]. cbv [bind path_exists get_state ret].
    destruct (node_at (fs s) track); [|congruence]. simpl.
    fold (bind (A:=unit) (B:=unit)).
    cbv [bind] in Hexc |- *. rewrite Hexc. reflexivity.
Qed.

Lemma for_tracks_failure_policy_witness :
  let a := demo_args [] in
  let out := ["separated"; "demucs"]%string in
  let bad := ["music"; "bad.wav"]%string in
  let gone := ["music"; "gone.wav"]%string in
  let good := ["music"; "good.wav"]%string in
  let s1 := add_log music_state (Stdout "Separating track music/bad.wav") in
  node_at (fs music_state) gone = None
  /\ node_at (fs music_state) bad <> None
  /\ separate_track F32.ops demo_env a tt out bad music_state
     = (Exc (RuntimeError "no audio stream"), s1)
  /\ for_tracks F32.ops demo_env a tt out [gone; good] music_state
     = for_tracks F32.ops demo_env a tt out [good]
         (add_log music_state (Stderr (missing_track_msg gone)))
  /\ for_tracks F32.ops demo_env a tt out [bad; good] music_state
     = (Exc (RuntimeError "no audio stream"), s1).
Proof.
  intros a out bad gone good s1.
  assert (Hgone : node_at (fs music_state) gone = None) by reflexivity.
  assert (Hbad : node_at (fs music_state) bad <> None) by (vm_compute; discriminate).
  assert (Hexc : separate_track F32.ops demo_env a tt out bad music_state
                 = (Exc (RuntimeError "no audio stream"), s1))
    by (vm_compute; reflexivity).
  pose proof (for_tracks_failure_policy F32.ops demo_env a tt out gone [good] music_state)
    as [Hskip _].
  pose proof (for_tracks_failure_policy F32.ops demo_env a tt out bad [good] music_state)
    as [_ Habort].
  split; [exact Hgone|]. split; [exact Hbad|]. split; [exact Hexc|].
  split; [exact (Hskip Hgone) | exact (Habort _ _ Hbad Hexc)].
Defined.

(** Two tracks that both exist; the first cannot be decoded.  The loop
    raises on the first and the second, which would have been separated
    without error, is never started. *)
Lemma for_tracks_exception_counterexample :
  let a := demo_args [] in
  let out := ["separated"; "demucs"]%string in
  let bad := ["music"; "bad.wav"]%string in
  let good := ["music"; "good.wav"]%string in
  let s1 := add_log music_state (Stdout "Separating track music/bad.wav") in
  separate_track F32.ops demo_env a tt out bad music_state
  = (Exc (RuntimeError "no audio stream"), s1)
  /\ for_tracks F32.ops demo_env a tt out [bad; good] music_state
     = (Exc (RuntimeError "no audio stream"), s1)
  /\ fst (for_tracks F32.ops demo_env a tt out [good] s1) = Val tt.
Proof. vm_compute. repeat split; reflexivity. Qed.

(* ===================================================================== *)
(** * Normalisation                                                       *)
(* ===================================================================== *)

Lemma f32_div_degenerate (x d : F32.f32) :
  F32.is_zero d || F32.is_nan d = true ->
  F32.is_finite (SFdiv F32.prec F32.emax x d) = false.
Proof. destruct x, d; simpl; intros H; try discriminate; reflexivity. Qed.

Lemma zon_inv (x : F32.f32) :
  zero_or_nan x -> (exists s : bool, x = S754_zero s) \/ x = S754_nan.
Proof.
  unfold zero_or_nan. destruct x as [s|s| |s m e]; cbn [F32.is_zero F32.is_nan orb];
    intros H; try discriminate; eauto.
Qed.

Ltac zon_cases H :=
  let s := fresh "s" in
  apply zon_inv in H; destruct H as [[s H] | H]; [destruct s|]; subst.

Lemma zon_add (x y : F32.f32) :
  zero_or_nan x -> zero_or_nan y -> zero_or_nan (add F32.ops x y).
Proof. intros Hx Hy. zon_cases Hx; zon_cases Hy; reflexivity. Qed.

Lemma zon_sub (x y : F32.f32) :
  zero_or_nan x -> zero_or_nan y -> zero_or_nan (sub F32.ops x y).
Proof. intros Hx Hy. zon_cases Hx; zon_cases Hy; reflexivity. Qed.

Lemma zon_mul (x y : F32.f32) :
  zero_or_nan x -> zero_or_nan y -> zero_or_nan (mul F32.ops x y).
Proof. intros Hx Hy. zon_cases Hx; zon_cases Hy; reflexivity. Qed.

Lemma zon_div (x y : F32.f32) : zero_or_nan x -> zero_or_nan (div F32.ops x y).
Proof.
  intros Hx. zon_cases Hx; destruct y as [sy|sy| |sy my ey]; reflexivity.
Qed.

Lemma zon_sqrt (x : F32.f32) : zero_or_nan x -> zero_or_nan (sqrt F32.ops x).
Proof. intros Hx. zon_cases Hx; reflexivity. Qed.

Lemma zon_div_nan (x y : F32.f32) :
  zero_or_nan x -> zero_or_nan y -> div F32.ops x y = S754_nan.
Proof. intros Hx Hy. zon_cases Hx; zon_cases Hy; reflexivity. Qed.

Lemma zon_discretize (x : F32.f32) :
  zero_or_nan x -> zero_or_nan (discretize_sample F32.ops x).
Proof. intros Hx. zon_cases Hx; reflexivity. Qed.

Lemma zon_tsum (l : list F32.f32) :
  Forall zero_or_nan l -> zero_or_nan (tsum F32.ops l).
Proof.
  unfold tsum.
  assert (H0 : zero_or_nan (of_Z F32.ops 0)) by reflexivity.
  revert H0. generalize (of_Z F32.ops 0).
  induction l as [|x l IH]; intros acc Hacc Hl; [exact Hacc|].
  inversion Hl; subst. simpl. apply IH; [apply zon_add|]; assumption.
Qed.

Lemma Forall_zip_with_cons {X} (P : X -> Prop) (r : list X) (cols : list (list X)) :
  Forall P r -> Forall (Forall P) cols -> Forall (Forall P) (zip_with cons r cols).
Proof.
  intros Hr. revert cols. induction Hr as [|x r Hx Hr IH]; intros cols Hc; [constructor|].
  destruct Hc as [|c cols Hc Hcs]; simpl; [constructor|].
  constructor; [constructor; assumption | apply IH; assumption].
Qed.

Lemma Forall_transpose {X} (P : X -> Prop) (rows : list (list X)) :
  Forall (Forall P) rows -> Forall (Forall P) (transpose rows).
Proof.
  induction rows as [|r rest IH]; intros H; [constructor|].
  inversion H as [|? ? Hr Hrest]; subst.
  destruct rest as [|r2 rest].
  - simpl. clear - Hr. induction Hr; simpl; constructor; auto.
  - change (transpose (r :: r2 :: rest)) with (zip_with cons r (transpose (r2 :: rest))).
    apply Forall_zip_with_cons; [exact Hr | apply IH; exact Hrest].
Qed.

Lemma Forall_map_intro {X Y} (P : X -> Prop) (Q : Y -> Prop) (f : X -> Y) (l : list X) :
  (forall x, P x -> Q (f x)) -> Forall P l -> Forall Q (map f l).
Proof. intros Hf Hl. induction Hl; simpl; constructor; auto. Qed.

Lemma zon_tmean (l : list F32.f32) : Forall zero_or_nan l -> zero_or_nan (tmean F32.ops l).
Proof. intros H. unfold tmean. apply zon_div. apply zon_tsum. exact H. Qed.

Lemma zon_tstd (l : list F32.f32) : Forall zero_or_nan l -> zero_or_nan (tstd F32.ops l).
Proof.
  intros H. unfold tstd. apply zon_sqrt, zon_div, zon_tsum.
  apply (Forall_map_intro zero_or_nan); [|exact H].
  intros x Hx. apply zon_mul; apply zon_sub; try assumption; apply zon_tmean; exact H.
Qed.

(** Every sample of a silent track, of any length and any number of
    channels, reaches the model as NaN. *)
Lemma silent_track_all_nan (wav : tensor2 F32.ops) :
  Forall (Forall (fun x => F32.is_zero x = true)) wav ->
  Forall (Forall (fun x => x = S754_nan)) (model_input F32.ops wav).
Proof.
  intros Hsil.
  assert (Hz : Forall (Forall zero_or_nan) wav).
  { eapply Forall_impl; [exact Hsil|]. intros row Hrow.
    eapply Forall_impl; [exact Hrow|]. intros x Hx. unfold zero_or_nan. rewrite Hx. reflexivity. }
  assert (Hd : Forall (Forall zero_or_nan) (discretize F32.ops wav)).
  { unfold discretize. apply (Forall_map_intro (Forall zero_or_nan)); [|exact Hz].
    intros row Hrow. apply (Forall_map_intro zero_or_nan); [|exact Hrow].
    apply zon_discretize. }
  assert (Href : Forall zero_or_nan (mean0 F32.ops (discretize F32.ops wav))).
  { unfold mean0. apply (Forall_map_intro (Forall zero_or_nan)).
    - intros col Hcol. apply zon_div, zon_tsum. exact Hcol.
    - apply Forall_transpose. exact Hd. }
  unfold model_input, normalize.
  apply (Forall_map_intro (Forall zero_or_nan)); [|exact Hd].
  intros row Hrow. apply (Forall_map_intro zero_or_nan); [|exact Hrow].
  intros x Hx. unfold normalize_sample. apply zon_div_nan.
  - apply zon_sub; [exact Hx | apply zon_tmean; exact Href].
  - apply zon_tstd. exact Href.
Qed.

(** C4, as the code has it.  The normalisation of [main] has no guard: it
    divides every sample by the standard deviation of the reference
    whatever its value.  When that deviation is zero or NaN, every sample
    given to the model is NaN or infinite; and for a silent track, of any
    length, every sample given to the model is NaN. *)
Theorem normalize_degenerate_std_not_finite (wav : tensor2 F32.ops) :
  (F32.is_zero (tstd F32.ops (reference F32.ops wav))
   || F32.is_nan (tstd F32.ops (reference F32.ops wav)) = true ->
   Forall (Forall (fun x => F32.is_finite x = false)) (model_input F32.ops wav))
  /\ (Forall (Forall (fun x => F32.is_zero x = true)) wav ->
      Forall (Forall (fun x => x = S754_nan)) (model_input F32.ops wav)).
Proof.
  split; [|apply silent_track_all_nan].
  intros Hstd.
  unfold model_input, normalize. fold (reference F32.ops wav).
  apply List.Forall_forall. intros row Hrow. apply List.in_map_iff in Hrow.
  destruct Hrow as (row0 & <- & _).
  apply List.Forall_forall. intros y Hy. apply List.in_map_iff in Hy.
  destruct Hy as (x & <- & _).
  unfold normalize_sample. simpl. apply f32_div_degenerate. exact Hstd.
Qed.

Lemma normalize_degenerate_std_not_finite_witness :
  F32.is_zero (tstd F32.ops (reference F32.ops silent_wav))
  || F32.is_nan (tstd F32.ops (reference F32.ops silent_wav)) = true
  /\ Forall (Forall (fun x => F32.is_zero x = true)) silent_wav
  /\ Forall (Forall (fun x => F32.is_finite x = false)) (model_input F32.ops silent_wav)
  /\ Forall (Forall (fun x => x = S754_nan)) (model_input F32.ops silent_wav).
Proof.
  assert (H : F32.is_zero (tstd F32.ops (reference F32.ops silent_wav))
              || F32.is_nan (tstd F32.ops (reference F32.ops silent_wav)) = true)
    by (vm_compute; reflexivity).
  assert (Hs : Forall (Forall (fun x => F32.is_zero x = true)) silent_wav)
    by (repeat constructor).
  split; [exact H|]. split; [exact Hs|].
  split.
  - exact (proj1 (normalize_degenerate_std_not_finite silent_wav) H).
  - exact (proj2 (normalize_degenerate_std_not_finite silent_wav) Hs).
Defined.

(** Silence: the deviation of the reference is zero and every sample handed
    to the model is NaN. *)
Lemma silent_track_counterexample :
  tstd F32.ops (reference F32.ops silent_wav) = S754_zero false
  /\ model_input F32.ops silent_wav
     = [ [S754_nan; S754_nan; S754_nan]; [S754_nan; S754_nan; S754_nan] ]
  /\ F32.is_finite S754_nan = false.
Proof. vm_compute. repeat split; reflexivity. Qed.



(* ===================================================================== *)
(** * Binary32: the round trip on the demonstration clip                  *)
(* ===================================================================== *)

(** On binary32 the round trip is close, not exact: the sample -1/4 of
    [demo_wav] comes back two units in the last place away. *)
Example f32_round_trip_demo :
  map (map (denormalize_sample F32.ops (reference F32.ops demo_wav)))
      (model_input F32.ops demo_wav)
  = [ [S754_finite false 8388608 (-24); S754_finite true 16777214 (-26)];
      [S754_finite false 8388608 (-24); S754_finite false 8388608 (-25)] ]
  /\ discretize F32.ops demo_wav
     = [ [S754_finite false 8388608 (-24); S754_finite true 8388608 (-25)];
         [S754_finite false 8388608 (-24); S754_finite false 8388608 (-25)] ].
Proof. vm_compute. split; reflexivity. Qed.

(* ===================================================================== *)
(** * Binary32: scaling by 2^15 is exact                                  *)
(* ===================================================================== *)

Lemma digits2_pos_bounds (m : positive) :
  2 ^ (Zpos (digits2_pos m) - 1) <= Zpos m < 2 ^ Zpos (digits2_pos m).
Proof.
  induction m as [m IH | m IH |]; cbn [digits2_pos].
  - rewrite Pos2Z.inj_succ, (Pos2Z.inj_xI m).
    replace (Z.succ (Zpos (digits2_pos m)) - 1) with (Z.succ (Zpos (digits2_pos m) - 1)) by lia.
    rewrite !Z.pow_succ_r by lia.
    destruct IH as [IH1 IH2]. revert IH1 IH2.
    generalize (2 ^ (Zpos (digits2_pos m) - 1)) (2 ^ Zpos (digits2_pos m)). lia.
  - rewrite Pos2Z.inj_succ, (Pos2Z.inj_xO m).
    replace (Z.succ (Zpos (digits2_pos m)) - 1) with (Z.succ (Zpos (digits2_pos m) - 1)) by lia.
    rewrite !Z.pow_succ_r by lia.
    destruct IH as [IH1 IH2]. revert IH1 IH2.
    generalize (2 ^ (Zpos (digits2_pos m) - 1)) (2 ^ Zpos (digits2_pos m)). lia.
  - simpl. lia.
Qed.

Lemma digits2_pos_unique (m : positive) (d : Z) :
  2 ^ (d - 1) <= Zpos m < 2 ^ d -> Zpos (digits2_pos m) = d.
Proof.
  intros [Hlo Hhi].
  destruct (digits2_pos_bounds m) as [Blo Bhi].
  set (d0 := Zpos (digits2_pos m)) in *.
  assert (Hd0 : 0 < d0) by (unfold d0; lia).
  assert (Hd : 0 < d).
  { destruct (Z_lt_le_dec 0 d) as [|Hneg]; [assumption|].
    exfalso. destruct (Z.eq_dec d 0) as [->|Hne]; [simpl in Hhi; lia|].
    rewrite Z.pow_neg_r in Hhi by lia. lia. }
  destruct (Z.lt_trichotomy d0 d) as [Hlt | [Heq | Hgt]]; [|exact Heq|]; exfalso.
  - assert (2 ^ d0 <= 2 ^ (d - 1)) by (apply Z.pow_le_mono_r; lia). lia.
  - assert (2 ^ d <= 2 ^ (d0 - 1)) by (apply Z.pow_le_mono_r; lia). lia.
Qed.

(** The digits of a mantissa shifted left. *)
Lemma digits2_shift (m : positive) (j : Z) (M : positive) :
  0 <= j -> Zpos M = Zpos m * 2 ^ j ->
  Zpos (digits2_pos M) = Zpos (digits2_pos m) + j.
Proof.
  intros Hj HM. apply digits2_pos_unique.
  destruct (digits2_pos_bounds m) as [Blo Bhi].
  rewrite HM.
  replace (Zpos (digits2_pos m) + j - 1) with ((Zpos (digits2_pos m) - 1) + j) by lia.
  rewrite !Z.pow_add_r by lia.
  assert (0 < 2 ^ j) by (apply Z.pow_pos_nonneg; lia).
  split; nia.
Qed.

Lemma iter_pos_nat {X} (f : X -> X) (p : positive) :
  forall x : X, SpecFloat.iter_pos f p x = Nat.iter (Pos.to_nat p) f x.
Proof.
  induction p as [p IH | p IH |]; intros x; cbn [SpecFloat.iter_pos].
  - rewrite !IH, Pos2Nat.inj_xI.
    replace (S (2 * Pos.to_nat p)) with (Pos.to_nat p + S (Pos.to_nat p))%nat by lia.
    rewrite Nat.iter_add. f_equal. rewrite Nat.iter_succ_r. reflexivity.
  - rewrite !IH, Pos2Nat.inj_xO.
    replace (2 * Pos.to_nat p)%nat with (Pos.to_nat p + Pos.to_nat p)%nat by lia.
    rewrite Nat.iter_add. reflexivity.
  - reflexivity.
Qed.

Lemma shr_1_even (M : Z) :
  0 <= M ->
  shr_1 (Build_shr_record (2 * M) false false) = Build_shr_record M false false.
Proof. destruct M as [|p|p]; [reflexivity | reflexivity | lia]. Qed.

(** Shifting out zeros loses nothing. *)
Lemma shr_iter_exact (k : nat) :
  forall M : Z, 0 <= M ->
    Nat.iter k shr_1 (Build_shr_record (M * 2 ^ Z.of_nat k) false false)
    = Build_shr_record M false false.
Proof.
  induction k as [|k IH]; intros M HM.
  - simpl. rewrite Z.mul_1_r. reflexivity.
  - rewrite Nat.iter_succ_r.
    replace (M * 2 ^ Z.of_nat (S k)) with (2 * (M * 2 ^ Z.of_nat k))
      by (rewrite Nat2Z.inj_succ, Z.pow_succ_r by lia; ring).
    rewrite shr_1_even by (apply Z.mul_nonneg_nonneg; [lia | apply Z.pow_nonneg; lia]).
    apply IH. exact HM.
Qed.

Lemma shr_exact (M e j : Z) :
  0 <= M -> 0 <= j ->
  shr (Build_shr_record (M * 2 ^ j) false false) e j
  = (Build_shr_record M false false, e + j).
Proof.
  intros HM Hj. destruct j as [|p|p]; [| |lia].
  - simpl. rewrite Z.mul_1_r, Z.add_0_r. reflexivity.
  - unfold shr. rewrite iter_pos_nat.
    rewrite <- (positive_nat_Z p) at 1. rewrite shr_iter_exact by exact HM.
    reflexivity.
Qed.

Lemma f32_fexp (e : Z) : fexp F32.prec F32.emax e = Z.max (e - 24) (-149).
Proof. reflexivity. Qed.

(** A canonical mantissa given with [j] extra zero bits rounds to itself. *)
Lemma binary_round_aux_exact (s : bool) (m : positive) (e j : Z) :
  0 <= j ->
  canonical_mantissa F32.prec F32.emax m e = true ->
  binary_round_aux F32.prec F32.emax s (Zpos m * 2 ^ j) (e - j) loc_Exact
  = if e <=? 104 then S754_finite s m e else S754_infinity s.
Proof.
  intros Hj Hcan. unfold canonical_mantissa in Hcan. apply Z.eqb_eq in Hcan.
  assert (Hpos : 0 < Zpos m * 2 ^ j)
    by (apply Z.mul_pos_pos; [lia | apply Z.pow_pos_nonneg; lia]).
  destruct (Zpos m * 2 ^ j) as [|M|M] eqn:HM; try lia.
  assert (Hd : Zdigits2 (Zpos M) = Zpos (digits2_pos m) + j).
  { simpl. apply (digits2_shift m j M Hj). symmetry. exact HM. }
  unfold binary_round_aux, shr_fexp.
  rewrite Hd.
  replace (Zpos (digits2_pos m) + j + (e - j)) with (Zpos (digits2_pos m) + e) by lia.
  rewrite Hcan.
  replace (e - (e - j)) with j by lia.
  cbn [shr_record_of_loc]. rewrite <- HM.
  rewrite shr_exact by lia.
  replace (e - j + j) with e by lia.
  cbn [shr_m loc_of_shr_record round_nearest_even].
  cbn [Zdigits2]. rewrite Hcan, Z.sub_diag.
  cbn [shr shr_record_of_loc shr_m].
  reflexivity.
Qed.

Lemma f32_two15 : two15 F32.ops = S754_finite false 8388608 (-8).
Proof. reflexivity. Qed.

Lemma bounded_inv (m : positive) (e : Z) :
  bounded F32.prec F32.emax m e = true ->
  Z.max (Zpos (digits2_pos m) + e - 24) (-149) = e /\ e <= 104.
Proof.
  unfold bounded, canonical_mantissa. rewrite f32_fexp.
  intros H. apply andb_true_iff in H. destruct H as [H1 H2].
  apply Z.eqb_eq in H1. apply Z.leb_le in H2.
  change (F32.emax - F32.prec) with 104 in H2. auto.
Qed.

Lemma canonical_intro (m : positive) (e : Z) :
  Z.max (Zpos (digits2_pos m) + e - 24) (-149) = e ->
  canonical_mantissa F32.prec F32.emax m e = true.
Proof.
  intros H. unfold canonical_mantissa. rewrite f32_fexp. apply Z.eqb_eq. exact H.
Qed.

Lemma shift_mantissa_Z (m : positive) (t : Z) :
  0 <= t -> Zpos (F32.shift_mantissa m t) = Zpos m * 2 ^ t.
Proof.
  intros Ht. unfold F32.shift_mantissa. apply Z2Pos.id.
  apply Z.mul_pos_pos; [lia | apply Z.pow_pos_nonneg; lia].
Qed.

Lemma shift_mantissa_digits (m : positive) (t : Z) :
  0 <= t -> Zpos (digits2_pos (F32.shift_mantissa m t)) = Zpos (digits2_pos m) + t.
Proof.
  intros Ht. apply (digits2_shift m t); [exact Ht | apply shift_mantissa_Z; exact Ht].
Qed.

Lemma shift_mantissa_0 (m : positive) : F32.shift_mantissa m 0 = m.
Proof. unfold F32.shift_mantissa. rewrite Z.mul_1_r. reflexivity. Qed.

(** Multiplying a float by 2^15 is exact: the result holds the same
    mantissa, moved to the canonical position, or overflows. *)
Lemma f32_mul_two15 (s : bool) (m : positive) (e : Z) :
  bounded F32.prec F32.emax m e = true ->
  let t := Z.min (24 - Zpos (digits2_pos m)) 15 in
  SFmul F32.prec F32.emax (S754_finite s m e) (S754_finite false 8388608 (-8))
  = if e + 15 - t <=? 104
    then S754_finite s (F32.shift_mantissa m t) (e + 15 - t)
    else S754_infinity s.
Proof.
  intros Hb t. apply bounded_inv in Hb. destruct Hb as [Hcan Hle].
  pose proof (digits2_pos_bounds m) as Hdig.
  assert (Hd1 : 1 <= Zpos (digits2_pos m)) by lia.
  assert (Ht : 0 <= t <= 15) by (unfold t; lia).
  cbn [SFmul]. rewrite xorb_false_r.
  replace (Zpos (m * 8388608)) with (Zpos (F32.shift_mantissa m t) * 2 ^ (23 - t)).
  2:{ rewrite shift_mantissa_Z, Pos2Z.inj_mul by lia.
      rewrite <- Z.mul_assoc, <- Z.pow_add_r by lia.
      replace (t + (23 - t)) with 23 by lia. reflexivity. }
  replace (e + -8) with (e + 15 - t - (23 - t)) by lia.
  apply binary_round_aux_exact; [lia|].
  apply canonical_intro. rewrite shift_mantissa_digits by lia. unfold t. lia.
Qed.

(** Dividing a normal float by 2^15 is exact while the result is normal. *)
Lemma f32_div_two15 (s : bool) (M : positive) (E : Z) :
  Zpos (digits2_pos M) = 24 -> -133 <= E <= 104 ->
  SFdiv F32.prec F32.emax (S754_finite s M E) (S754_finite false 8388608 (-8))
  = S754_finite s M (E - 15).
Proof.
  intros Hd HE. cbn [SFdiv]. rewrite xorb_false_r.
  assert (Hcore : SFdiv_core_binary F32.prec F32.emax (Zpos M) E 8388608 (-8)
                  = (Zpos M * 2 ^ 1, E - 15 - 1, loc_Exact)).
  { unfold SFdiv_core_binary. cbn [Zdigits2]. rewrite Hd.
    change (Zpos (digits2_pos 8388608)) with 24.
    rewrite f32_fexp.
    replace (Z.min (Z.max (24 + E - (24 + -8) - 24) (-149)) (E - -8)) with (E - 16) by lia.
    replace (E - -8 - (E - 16)) with 24 by lia.
    rewrite Z.shiftl_mul_pow2 by lia.
    pose proof (Z.div_eucl_eq (Zpos M * 2 ^ 24) 8388608 ltac:(lia)) as Heq.
    pose proof (Z.mod_pos_bound (Zpos M * 2 ^ 24) 8388608 ltac:(lia)) as Hmod.
    unfold Z.modulo in Hmod.
    destruct (Z.div_eucl (Zpos M * 2 ^ 24) 8388608) as [q r].
    change (2 ^ 24) with 16777216 in Heq.
    assert (Hq : q = Zpos M * 2 ^ 1) by (change (2 ^ 1) with 2; lia).
    assert (Hr : r = 0) by lia.
    subst q r. replace (E - 16) with (E - 15 - 1) by lia. reflexivity. }
  rewrite Hcore.
  rewrite binary_round_aux_exact.
  - replace (E - 15 <=? 104) with true by (symmetry; apply Z.leb_le; lia). reflexivity.
  - lia.
  - apply canonical_intro. rewrite Hd. lia.
Qed.

Lemma pos_iter_xO (n d : positive) : Zpos (Pos.iter xO n d) = Zpos n * 2 ^ Zpos d.
Proof.
  induction d as [|d IH] using Pos.peano_ind.
  - simpl. lia.
  - rewrite Pos.iter_succ, Pos2Z.inj_xO, IH, Pos2Z.inj_succ, Z.pow_succ_r by lia. ring.
Qed.

(** The float of a positive integer of at most 24 bits. *)
Lemma f32_binary_round_int (s : bool) (n : positive) :
  Zpos (digits2_pos n) <= 24 ->
  binary_round F32.prec F32.emax s n 0
  = S754_finite s (F32.shift_mantissa n (24 - Zpos (digits2_pos n))) (Zpos (digits2_pos n) - 24).
Proof.
  intros Hd. set (d := Zpos (digits2_pos n)) in *.
  assert (Hd1 : 1 <= d) by (unfold d; lia).
  unfold binary_round. rewrite Z.add_0_r. fold d. rewrite f32_fexp.
  replace (Z.max (d - 24) (-149)) with (d - 24) by lia.
  assert (Hal : shl_align n 0 (d - 24) = (F32.shift_mantissa n (24 - d), d - 24)).
  { unfold shl_align. rewrite Z.sub_0_r.
    destruct (d - 24) as [|p|p] eqn:Hp; try lia.
    - replace (24 - d) with 0 by lia. rewrite shift_mantissa_0. reflexivity.
    - f_equal. apply Pos2Z.inj. rewrite pos_iter_xO, shift_mantissa_Z by lia.
      replace (24 - d) with (Zpos p) by lia. reflexivity. }
  rewrite Hal.
  replace (Zpos (F32.shift_mantissa n (24 - d))) with (Zpos (F32.shift_mantissa n (24 - d)) * 2 ^ 0)
    by (rewrite Z.mul_1_r; reflexivity).
  replace (d - 24) with (d - 24 - 0) at 1 by lia.
  rewrite binary_round_aux_exact.
  - replace (d - 24 <=? 104) with true by (symmetry; apply Z.leb_le; lia). reflexivity.
  - lia.
  - apply canonical_intro. rewrite shift_mantissa_digits by lia. fold d. lia.
Qed.

Lemma pow2_pos (k : Z) : 0 <= k -> 0 < 2 ^ k.
Proof. intros. apply Z.pow_pos_nonneg; lia. Qed.

Lemma digits_le_24_lt (m : positive) :
  Zpos (digits2_pos m) <= 24 -> Zpos m < 2 ^ 24.
Proof.
  intros H. destruct (digits2_pos_bounds m) as [_ Hhi].
  assert (2 ^ Zpos (digits2_pos m) <= 2 ^ 24) by (apply Z.pow_le_mono_r; lia). lia.
Qed.

Lemma lt_pow_digits_le (m : positive) (d : Z) :
  0 <= d -> Zpos m < 2 ^ d -> Zpos (digits2_pos m) <= d.
Proof.
  intros Hd H. destruct (digits2_pos_bounds m) as [Hlo _].
  destruct (Z_le_gt_dec (Zpos (digits2_pos m)) d) as [|Hgt]; [assumption|].
  assert (2 ^ d <= 2 ^ (Zpos (digits2_pos m) - 1)) by (apply Z.pow_le_mono_r; lia). lia.
Qed.

(** The nearest integer of a mantissa below 2^24 cut by at least one bit. *)
Lemma nearest_int_bounds (m : positive) (k : Z) :
  0 < k -> Zpos m < 2 ^ 24 -> 0 <= F32.nearest_int m k <= 2 ^ 23.
Proof.
  intros Hk Hm. unfold F32.nearest_int.
  rewrite Z.shiftr_div_pow2 by lia.
  assert (Hq : 0 <= Zpos m / 2 ^ k < 2 ^ 23).
  { assert (Hp : 2 <= 2 ^ k).
    { change 2 with (2 ^ 1) at 1. apply Z.pow_le_mono_r; lia. }
    split; [apply Z.div_pos; lia|].
    apply Z.div_lt_upper_bound; [lia|].
    change (2 ^ 24) with (2 * 2 ^ 23) in Hm.
    assert (0 < 2 ^ 23) by (apply pow2_pos; lia). nia. }
  destruct (_ ?= _); [destruct (Z.even _)| |]; lia.
Qed.

Lemma nearest_int_exact (n : positive) (k : Z) :
  0 < k -> F32.nearest_int (F32.shift_mantissa n k) k = Zpos n.
Proof.
  intros Hk. unfold F32.nearest_int.
  rewrite shift_mantissa_Z by lia.
  rewrite Z.shiftr_div_pow2, Z.shiftl_mul_pow2 by lia.
  rewrite Z.div_mul by (pose proof (pow2_pos k); lia).
  rewrite Z.sub_diag.
  rewrite Z.shiftl_mul_pow2 by lia.
  assert (0 < 1 * 2 ^ (k - 1)) by (pose proof (pow2_pos (k - 1)); lia).
  replace (0 ?= 1 * 2 ^ (k - 1)) with Lt by (symmetry; apply Z.compare_lt_iff; lia).
  reflexivity.
Qed.

(** [round] on a float with a fraction. *)
Lemma f32_round_fraction (s : bool) (m : positive) (e : Z) :
  e < 0 -> Zpos m < 2 ^ 24 ->
  F32.round (S754_finite s m e)
  = match F32.nearest_int m (- e) with
    | Zpos n => S754_finite s (F32.shift_mantissa n (24 - Zpos (digits2_pos n)))
                            (Zpos (digits2_pos n) - 24)
    | _ => S754_zero s
    end.
Proof.
  intros He Hm. unfold F32.round.
  replace (0 <=? e) with false by (symmetry; apply Z.leb_gt; lia).
  pose proof (nearest_int_bounds m (- e) ltac:(lia) Hm) as Hn.
  destruct (F32.nearest_int m (- e)) as [|n|n]; [destruct s; reflexivity | | lia].
  assert (Hd : Zpos (digits2_pos n) <= 24).
  { apply lt_pow_digits_le; [lia|]. change (2 ^ 24) with (2 * 2 ^ 23).
    assert (0 < 2 ^ 23) by (apply pow2_pos; lia). lia. }
  destruct s; cbn [Z.opp binary_normalize]; apply f32_binary_round_int; exact Hd.
Qed.

(** The value [round] gives is a fixed point of [round]. *)
Lemma f32_round_int_fixed (s : bool) (n : positive) :
  Zpos (digits2_pos n) <= 24 ->
  let r := S754_finite s (F32.shift_mantissa n (24 - Zpos (digits2_pos n)))
                       (Zpos (digits2_pos n) - 24) in
  F32.round r = r.
Proof.
  intros Hd r. set (d := Zpos (digits2_pos n)) in *.
  destruct (Z.eq_dec d 24) as [Heq|Hne].
  - unfold r. rewrite Heq. reflexivity.
  - unfold r. rewrite f32_round_fraction.
    + replace (- (d - 24)) with (24 - d) by lia.
      rewrite nearest_int_exact by lia. reflexivity.
    + lia.
    + apply digits_le_24_lt. rewrite shift_mantissa_digits by lia. fold d. lia.
Qed.

Lemma f32_discretize_unfold (x : F32.f32) :
  discretize_sample F32.ops x
  = SFdiv F32.prec F32.emax
      (F32.round (SFmul F32.prec F32.emax x (S754_finite false 8388608 (-8))))
      (S754_finite false 8388608 (-8)).
Proof. reflexivity. Qed.

Lemma on_grid_fixed (z : F32.f32) :
  on_grid z -> discretize_sample F32.ops z = z.
Proof.
  intros (s & M & E & -> & Hd & HE & Hr).
  rewrite f32_discretize_unfold.
  rewrite f32_mul_two15.
  2:{ unfold bounded. apply andb_true_iff. split.
      - apply canonical_intro. rewrite Hd. lia.
      - apply Z.leb_le. change (F32.emax - F32.prec) with 104. lia. }
  rewrite Hd. change (Z.min (24 - 24) 15) with 0.
  rewrite shift_mantissa_0.
  replace (E + 15 - 0) with (E + 15) by lia.
  replace (E + 15 <=? 104) with true by (symmetry; apply Z.leb_le; lia).
  rewrite Hr.
  rewrite f32_div_two15 by (try exact Hd; lia).
  f_equal. lia.
Qed.

(** What rounding to the grid returns. *)
Lemma f32_discretize_cases (x : F32.f32) :
  F32.valid x = true ->
  on_grid (discretize_sample F32.ops x)
  \/ (exists s, discretize_sample F32.ops x = S754_zero s)
  \/ (exists s, discretize_sample F32.ops x = S754_infinity s)
  \/ discretize_sample F32.ops x = S754_nan.
Proof.
  intros Hv. destruct x as [s|s| |s m e].
  - right. left. exists s. destruct s; reflexivity.
  - right. right. left. exists s. destruct s; reflexivity.
  - right. right. right. reflexivity.
  - unfold F32.valid in Hv. cbn [valid_binary] in Hv.
    pose proof (bounded_inv m e Hv) as [Hcan Hle].
    pose proof (digits2_pos_bounds m) as Hdig.
    rewrite f32_discretize_unfold, f32_mul_two15 by exact Hv.
    set (t := Z.min (24 - Zpos (digits2_pos m)) 15).
    assert (Ht : 0 <= t <= 15) by (unfold t; lia).
    destruct (e + 15 - t <=? 104) eqn:Hov.
    2:{ right. right. left. exists s. destruct s; reflexivity. }
    apply Z.leb_le in Hov.
    set (m' := F32.shift_mantissa m t). set (e' := e + 15 - t).
    assert (Hd' : Zpos (digits2_pos m') = Zpos (digits2_pos m) + t)
      by (apply shift_mantissa_digits; lia).
    destruct (Z_lt_le_dec e' 0) as [Hneg|Hpos].
    + (* a fraction is rounded away *)
      rewrite f32_round_fraction;
        [|exact Hneg | apply digits_le_24_lt; rewrite Hd'; unfold t; lia].
      pose proof (nearest_int_bounds m' (- e') ltac:(lia)
                    ltac:(apply digits_le_24_lt; rewrite Hd'; unfold t; lia)) as Hn.
      destruct (F32.nearest_int m' (- e')) as [|n|n]; [| |lia].
      * right. left. exists s. destruct s; reflexivity.
      * assert (Hdn : Zpos (digits2_pos n) <= 24).
        { apply lt_pow_digits_le; [lia|]. change (2 ^ 24) with (2 * 2 ^ 23).
          assert (0 < 2 ^ 23) by (apply pow2_pos; lia). lia. }
        pose proof (digits2_pos_bounds n) as Hdign.
        set (dn := Zpos (digits2_pos n)) in *.
        assert (HdM : Zpos (digits2_pos (F32.shift_mantissa n (24 - dn))) = 24)
          by (rewrite shift_mantissa_digits by lia; fold dn; lia).
        rewrite f32_div_two15 by (try exact HdM; lia).
        left. exists s, (F32.shift_mantissa n (24 - dn)), (dn - 24 - 15).
        split; [reflexivity|]. split; [exact HdM|]. split; [lia|].
        replace (dn - 24 - 15 + 15) with (dn - 24) by lia.
        apply f32_round_int_fixed. exact Hdn.
    + (* already an integer *)
      assert (Hr : F32.round (S754_finite s m' e') = S754_finite s m' e').
      { unfold F32.round. replace (0 <=? e') with true by (symmetry; apply Z.leb_le; lia).
        reflexivity. }
      rewrite Hr.
      assert (Hm'24 : Zpos (digits2_pos m') = 24) by (rewrite Hd'; unfold t, e' in *; lia).
      rewrite f32_div_two15 by (try exact Hm'24; lia).
      left. exists s, m', (e' - 15).
      split; [reflexivity|]. split; [exact Hm'24|]. split; [lia|].
      replace (e' - 15 + 15) with e' by lia. exact Hr.
Qed.

(** C10. For every binary32 sample, rounding to the grid of step 1/2^15 a
    second time changes nothing. *)
Theorem discretize_sample_idempotent (x : F32.f32) (Hvalid : F32.valid x = true) :
  discretize_sample F32.ops (discretize_sample F32.ops x)
  = discretize_sample F32.ops x.
Proof.
  destruct (f32_discretize_cases x Hvalid) as [Hg | [[s Hz] | [[s Hi] | Hn]]].
  - apply on_grid_fixed. exact Hg.
  - rewrite Hz. destruct s; reflexivity.
  - rewrite Hi. destruct s; reflexivity.
  - rewrite Hn. reflexivity.
Qed.

(* ===================================================================== *)
(** * Conversion to 16-bit samples                                        *)
(* ===================================================================== *)

Lemma f32_trunc_finite (s : bool) (m : positive) (e : Z) :
  F32.trunc (S754_finite s m e) = Some (if s then - int_part m e else int_part m e).
Proof.
  unfold F32.trunc, int_part. destruct (0 <=? e) eqn:He.
  - apply Z.leb_le in He. rewrite Z.shiftl_mul_pow2 by lia. reflexivity.
  - apply Z.leb_gt in He. rewrite Z.shiftr_div_pow2 by lia. reflexivity.
Qed.

Lemma int_part_nonneg (m : positive) (e : Z) : 0 <= int_part m e.
Proof.
  unfold int_part. destruct (0 <=? e) eqn:He.
  - apply Z.leb_le in He. pose proof (pow2_pos e He). lia.
  - apply Z.leb_gt in He. pose proof (pow2_pos (- e) ltac:(lia)).
    apply Z.div_pos; lia.
Qed.

(** A normal mantissa at exponent -8 or above is at least 2^15. *)
Lemma int_part_large (m : positive) (e : Z) :
  2 ^ 23 <= Zpos m -> -8 <= e -> 2 ^ 15 <= int_part m e.
Proof.
  intros Hm He. unfold int_part. destruct (0 <=? e) eqn:H0.
  - apply Z.leb_le in H0. pose proof (pow2_pos e H0).
    change (2 ^ 23) with 8388608 in Hm. change (2 ^ 15) with 32768. nia.
  - apply Z.leb_gt in H0.
    assert (Hk : 2 ^ (- e) <= 2 ^ 8) by (apply Z.pow_le_mono_r; lia).
    pose proof (pow2_pos (- e) ltac:(lia)).
    apply Z.div_le_lower_bound; [lia|].
    change (2 ^ 23) with 8388608 in Hm. change (2 ^ 8) with 256 in Hk.
    change (2 ^ 15) with 32768. nia.
Qed.

(** Below exponent -9 a mantissa of 24 bits stays under 2^14. *)
Lemma int_part_small (m : positive) (e : Z) :
  Zpos m < 2 ^ 24 -> e <= -10 -> int_part m e < 2 ^ 14.
Proof.
  intros Hm He. unfold int_part.
  replace (0 <=? e) with false by (symmetry; apply Z.leb_gt; lia).
  assert (Hk : 2 ^ 10 <= 2 ^ (- e)) by (apply Z.pow_le_mono_r; lia).
  apply Z.div_lt_upper_bound; [lia|].
  change (2 ^ 24) with 16777216 in Hm. change (2 ^ 10) with 1024 in Hk.
  change (2 ^ 14) with 16384. nia.
Qed.

Lemma int_part_m9 (m : positive) : int_part m (-9) = Zpos m / 512.
Proof. reflexivity. Qed.

Lemma int_part_m8 (m : positive) : int_part m (-8) = Zpos m / 256.
Proof. reflexivity. Qed.

Lemma f32_short_in_range (y : F32.f32) (z : Z) :
  F32.trunc y = Some z -> - 2 ^ 15 <= z <= 2 ^ 15 - 1 ->
  short F32.ops y = Some (clamp16 z).
Proof.
  intros Ht Hz. unfold short. cbn [trunc F32.ops]. rewrite Ht.
  replace ((- 2 ^ 15 <=? z) && (z <=? 2 ^ 15 - 1)) with true.
  - f_equal. unfold clamp16. lia.
  - symmetry. apply andb_true_iff. split; apply Z.leb_le; lia.
Qed.

Lemma f32_quantize_unfold (x : F32.f32) :
  quantize_sample F32.ops x
  = short F32.ops (clamp F32.ops f32_lo f32_hi
                     (SFmul F32.prec F32.emax x (S754_finite false 8388608 (-8)))).
Proof. reflexivity. Qed.

(** Clamping and converting a canonical float. *)
Lemma f32_clamp_short (s : bool) (m : positive) (e : Z) :
  Zpos m < 2 ^ 24 -> (-149 < e -> 2 ^ 23 <= Zpos m) ->
  short F32.ops (clamp F32.ops f32_lo f32_hi (S754_finite s m e))
  = Some (clamp16 (if s then - int_part m e else int_part m e)).
Proof.
  intros Hlt Hnorm.
  pose proof (int_part_nonneg m e) as H0.
  change (2 ^ 24) with 16777216 in Hlt. change (2 ^ 23) with 8388608 in Hnorm.
  unfold clamp. cbn [ltb F32.ops]. unfold SFltb, f32_lo, f32_hi.
  destruct s; cbn [SFcompare].
  - (* negative *)
    destruct (Z.compare_spec e (-8)) as [He|He|He].
    + subst e.
      rewrite Pos.compare_cont_spec. cbn [Pos.switch_Eq].
      pose proof (Hnorm ltac:(lia)) as Hn.
      destruct (Pos.compare_spec m 8388608) as [Heq | Hl | Hg]; cbn [CompOpp Pos.switch_Eq];
        [| apply Pos2Z.pos_lt_pos in Hl | apply Pos2Z.pos_lt_pos in Hg].
      * subst m. reflexivity.
      * exfalso. clear - Hl Hn. lia.
      * pose proof (int_part_large m (-8) ltac:(change (2 ^ 23) with 8388608; lia) ltac:(lia)).
        unfold clamp16. change (short F32.ops (S754_finite true 8388608 (-8))) with (Some (-32768)).
        f_equal. change (2 ^ 15) with 32768 in *. lia.
    + apply f32_short_in_range; [apply f32_trunc_finite|].
      change (2 ^ 15) with 32768.
      destruct (Z.eq_dec e (-9)) as [->|Hne].
      * rewrite int_part_m9 in *.
        assert (Zpos m / 512 < 32768)
          by (apply Z.div_lt_upper_bound; [lia | clear - Hlt; lia]).
        clear - H H0. lia.
      * pose proof (int_part_small m e ltac:(change (2 ^ 24) with 16777216; lia) ltac:(lia)).
        change (2 ^ 14) with 16384 in *. lia.
    + pose proof (int_part_large m e
                    ltac:(change (2 ^ 23) with 8388608; apply Hnorm; lia) ltac:(lia)).
      change (short F32.ops (S754_finite true 8388608 (-8))) with (Some (-32768)).
      f_equal. unfold clamp16. change (2 ^ 15) with 32768 in *. lia.
  - (* positive *)
    destruct (Z.compare_spec (-9) e) as [He|He|He].
    + subst e.
      rewrite Pos.compare_cont_spec. cbn [Pos.switch_Eq].
      pose proof (Hnorm ltac:(lia)) as Hn.
      rewrite int_part_m9 in *.
      destruct (Pos.compare_spec 16776704 m) as [Heq | Hl | Hg]; cbn [Pos.switch_Eq];
        [| apply Pos2Z.pos_lt_pos in Hl | apply Pos2Z.pos_lt_pos in Hg].
      * subst m. reflexivity.
      * change (short F32.ops (S754_finite false 16776704 (-9))) with (Some 32767).
        f_equal. unfold clamp16. change (2 ^ 15) with 32768.
        assert (32767 <= Zpos m / 512)
          by (apply Z.div_le_lower_bound; [lia | clear - Hl; lia]).
        clear - H. lia.
      * apply f32_short_in_range; [rewrite f32_trunc_finite, int_part_m9; reflexivity|].
        change (2 ^ 15) with 32768.
        assert (Zpos m / 512 < 32768)
          by (apply Z.div_lt_upper_bound; [lia | clear - Hlt; lia]).
        clear - H H0. lia.
    + pose proof (int_part_large m e
                    ltac:(change (2 ^ 23) with 8388608; apply Hnorm; lia) ltac:(lia)).
      change (short F32.ops (S754_finite false 16776704 (-9))) with (Some 32767).
      f_equal. unfold clamp16. change (2 ^ 15) with 32768 in *. lia.
    + apply f32_short_in_range; [apply f32_trunc_finite|].
      pose proof (int_part_small m e ltac:(change (2 ^ 24) with 16777216; lia) ltac:(lia)).
      change (2 ^ 14) with 16384 in *. change (2 ^ 15) with 32768. lia.
Qed.

Lemma digits_24_ge (m : positive) : Zpos (digits2_pos m) = 24 -> 2 ^ 23 <= Zpos m.
Proof.
  intros H. destruct (digits2_pos_bounds m) as [Hlo _]. rewrite H in Hlo. exact Hlo.
Qed.

(** The product by 2^15 has the integer part the exact value has. *)
Lemma int_part_scaled (m : positive) (e : Z) :
  bounded F32.prec F32.emax m e = true ->
  let t := Z.min (24 - Zpos (digits2_pos m)) 15 in
  int_part (F32.shift_mantissa m t) (e + 15 - t) = int_part m (e + 15).
Proof.
  intros Hb t. apply bounded_inv in Hb. destruct Hb as [Hcan Hle].
  pose proof (digits2_pos_bounds m) as Hdig.
  destruct (Z.eq_dec (Zpos (digits2_pos m)) 24) as [H24|Hn24].
  - unfold t. rewrite H24. change (Z.min (24 - 24) 15) with 0.
    rewrite shift_mantissa_0. f_equal. lia.
  - assert (He : e = -149) by lia. subst e.
    assert (Ht : 0 < t <= 15) by (unfold t; lia).
    assert (Hm : Zpos m < 2 ^ 24) by (apply digits_le_24_lt; lia).
    assert (Hm' : Zpos (F32.shift_mantissa m t) < 2 ^ 24).
    { apply digits_le_24_lt. rewrite shift_mantissa_digits by lia. unfold t. lia. }
    unfold int_part.
    replace (0 <=? -149 + 15 - t) with false by (symmetry; apply Z.leb_gt; lia).
    replace (0 <=? -149 + 15) with false by reflexivity.
    assert (Hp : forall k, 24 <= k -> 2 ^ 24 <= 2 ^ k)
      by (intros k Hk; apply Z.pow_le_mono_r; lia).
    rewrite !Z.div_small; [reflexivity | |].
    + pose proof (Hp (- (-149 + 15)) ltac:(lia)). lia.
    + pose proof (Hp (- (-149 + 15 - t)) ltac:(lia)). lia.
Qed.

(** The conversion of [main] to 16-bit samples computes, for every binary32
    sample, the integer part of the exact product by 2^15, clamped. *)
Lemma f32_quantize_exact (x : F32.f32) :
  F32.valid x = true -> quantize_sample F32.ops x = quantize_exact x.
Proof.
  intros Hv. destruct x as [s|s| |s m e]; try (destruct s; reflexivity); [reflexivity|].
  unfold F32.valid in Hv. cbn [valid_binary] in Hv.
  pose proof (bounded_inv m e Hv) as [Hcan Hle].
  pose proof (digits2_pos_bounds m) as Hdig.
  rewrite f32_quantize_unfold, f32_mul_two15 by exact Hv.
  pose proof (int_part_scaled m e Hv) as Hscaled. cbv zeta in Hscaled.
  set (t := Z.min (24 - Zpos (digits2_pos m)) 15) in *.
  assert (Ht : 0 <= t <= 15) by (unfold t; lia).
  unfold quantize_exact, scaled_trunc. cbn [option_map].
  destruct (e + 15 - t <=? 104) eqn:Hov.
  - apply Z.leb_le in Hov.
    assert (Hd' : Zpos (digits2_pos (F32.shift_mantissa m t)) = Zpos (digits2_pos m) + t)
      by (apply shift_mantissa_digits; lia).
    rewrite f32_clamp_short.
    + rewrite Hscaled. destruct s; reflexivity.
    + apply digits_le_24_lt. rewrite Hd'. unfold t. lia.
    + intros He'. apply digits_24_ge. rewrite Hd'. unfold t in *. lia.
  - apply Z.leb_gt in Hov.
    assert (H24 : Zpos (digits2_pos m) = 24) by (unfold t in *; lia).
    pose proof (int_part_large m (e + 15) (digits_24_ge m H24) ltac:(unfold t in *; lia)) as Hbig.
    change (2 ^ 15) with 32768 in Hbig.
    destruct s.
    + change (short F32.ops (clamp F32.ops f32_lo f32_hi (S754_infinity true)))
        with (Some (-32768)).
      f_equal. unfold clamp16. change (2 ^ 15) with 32768. lia.
    + change (short F32.ops (clamp F32.ops f32_lo f32_hi (S754_infinity false)))
        with (Some 32767).
      f_equal. unfold clamp16. change (2 ^ 15) with 32768. lia.
Qed.

(** C6. Without [--float32] every sample of a stem is written as the
    16-bit integer [short(clamp(x * 2^15, -2^15, 2^15 - 1))]; for every
    binary32 sample this is the integer part of the exact product by 2^15
    clamped to [-32768, 32767] (the bounds themselves for the infinities,
    nothing defined for NaN); 1.0 gives 32767, -1.0 gives -32768 and 2.0
    gives 32767.  With [--float32] the samples are written as they are. *)
Theorem quantize_for_output :
  (forall x : F32.f32,
      F32.valid x = true ->
      quantize_sample F32.ops x = quantize_exact x
      /\ (forall z : Z, quantize_sample F32.ops x = Some z -> - 32768 <= z <= 32767))
  /\ quantize_sample F32.ops (F32.of_Z 1) = Some 32767
  /\ quantize_sample F32.ops (F32.of_Z (-1)) = Some (- 32768)
  /\ quantize_sample F32.ops (F32.of_Z 2) = Some 32767
  /\ (forall source : tensor2 F32.ops,
        output_array F32.ops false source
        = Int16 (transpose (map (map (quantize_sample F32.ops)) source)))
  /\ (forall source : tensor2 F32.ops,
        output_array F32.ops true source = Float32 (transpose source)).
Proof.
  split; [|repeat split; reflexivity].
  intros x Hv. split; [apply f32_quantize_exact; exact Hv|].
  intros z. unfold quantize_sample, short.
  destruct (trunc F32.ops _) as [z0|]; [|discriminate].
  destruct (_ && _) eqn:Hr; [|discriminate].
  intros [= <-]. apply andb_true_iff in Hr. destruct Hr as [H1 H2].
  apply Z.leb_le in H1, H2. change (2 ^ 15) with 32768 in *. lia.
Qed.

Lemma quantize_for_output_witness :
  let third := SFdiv 24 128 (F32.of_Z 1) (F32.of_Z 3) in
  F32.valid third = true
  /\ quantize_sample F32.ops third = quantize_exact third
  /\ quantize_exact third = Some 10922.
Proof.
  intros third.
  assert (Hv : F32.valid third = true) by reflexivity.
  split; [exact Hv|].
  split; [exact (proj1 (proj1 quantize_for_output third Hv)) | reflexivity].
Defined.

Lemma discretize_sample_idempotent_witness :
  let third := SFdiv 24 128 (F32.of_Z 1) (F32.of_Z 3) in
  F32.valid third = true
  /\ discretize_sample F32.ops third <> third
  /\ discretize_sample F32.ops (discretize_sample F32.ops third)
     = discretize_sample F32.ops third.
Proof.
  intros third.
  assert (Hv : F32.valid third = true) by reflexivity.
  split; [exact Hv|]. split; [vm_compute; discriminate|].
  exact (discretize_sample_idempotent third Hv).
Defined.

(* ===================================================================== *)
(** * [download_file]: complete runs and frames                           *)
(* ===================================================================== *)

Lemma not_dir_nonempty (f : gmap (list string) node) (p : path) :
  node_at f p <> Some Dir -> p <> [].
Proof. destruct p; simpl; congruence. Qed.

(** What [write_chunks] does to a state whose file system is [f0] with a
    file at [target]: the other entries of [f0] stay, and a loop that ends
    has appended every chunk. *)
Lemma write_chunks_frame (target : path) (Hne : target <> []) (body : list chunk) :
  forall (f0 : gmap (list string) node) (c : list byte) (cw : list string)
         (l : list event) (r : result unit) (s' : state),
    write_chunks target body (State (<[target := File c]> f0) cw l) = (r, s') ->
    r <> NoFuel
    /\ (exists c', s' = State (<[target := File c']> f0) cw l)
    /\ (forall datas, body = map Data datas ->
        r = Val tt /\ s' = State (<[target := File (c ++ concat datas)]> f0) cw l).
Proof.
  induction body as [|[bs|e] rest IH]; intros f0 c cw l r s'.
  - intros [= <- <-]. split; [discriminate|]. split; [eauto|].
    intros [|d ds]; [|discriminate]. intros _. simpl. rewrite app_nil_r. auto.
  - cbn [write_chunks]. cbv [bind write_bytes get_state]. cbn [fs cwd log].
    rewrite (node_at_insert_eq f0 target (File c) Hne).
    cbv [set_fs]. cbn [fs cwd log]. rewrite insert_insert_eq. intros H.
    destruct (IH _ _ _ _ _ _ H) as (Hr & Hc & Hall).
    split; [exact Hr|]. split; [exact Hc|].
    intros [|d ds]; [discriminate|]. intros [= -> ->].
    destruct (Hall ds eq_refl) as [-> ->]. simpl. rewrite app_assoc. auto.
  - cbn [write_chunks]. intros [= <- <-]. split; [discriminate|]. split; [eauto|].
    intros [|d ds]; discriminate.
Qed.

(** [_download] itself: one request is logged; the file system is either
    untouched or differs only by a file at [target]. *)
Lemma _download_frame (net : network) (url : string) (target : path)
    (s : state) (r : result unit) (s1 : state) :
  node_at (fs s) target <> Some Dir ->
  _download net url target s = (r, s1) ->
  r <> NoFuel
  /\ cwd s1 = cwd s
  /\ log s1 = log s ++ [HttpGet url]
  /\ (fs s1 = fs s \/ exists c, fs s1 = <[target := File c]> (fs s)).
Proof.
  intros Hnd. pose proof (not_dir_nonempty _ _ Hnd) as Hne.
  cbv [_download bind emit].
  destruct (net url) as [e | cl body].
  { intros [= <- <-]. simpl. repeat split; [discriminate | auto]. }
  assert (Hopen : forall r1 s2,
            (open_wb target ;; write_chunks target body)
              (State (fs s) (cwd s) (log s ++ [HttpGet url])) = (r1, s2) ->
            r1 <> NoFuel /\ cwd s2 = cwd s /\ log s2 = log s ++ [HttpGet url]
            /\ (fs s2 = fs s \/ exists c, fs s2 = <[target := File c]> (fs s))).
  { intros r1 s2. cbv [bind open_wb get_state]. cbn [fs cwd log].
    assert (Hgo : (let (r0, s'0) :=
                     match node_at (fs s) (path_parent target) with
                     | Some (File _) => raise NotADirectoryError
                     | Some Dir => set_fs (<[target:=File []]> (fs s))
                     | None => raise FileNotFoundError
                     end (State (fs s) (cwd s) (log s ++ [HttpGet url])) in
                   match r0 with
                   | Val _ => write_chunks target body s'0
                   | Exc e => (Exc e, s'0)
                   | NoFuel => (NoFuel, s'0)
                   end) = (r1, s2) ->
                  r1 <> NoFuel /\ cwd s2 = cwd s /\ log s2 = log s ++ [HttpGet url]
                  /\ (fs s2 = fs s \/ exists c, fs s2 = <[target := File c]> (fs s))).
    { destruct (node_at (fs s) (path_parent target)) as [[c'|]|];
        cbv [raise set_fs]; cbn [fs cwd log].
      - intros [= <- <-]. simpl. repeat split; [discriminate | auto].
      - intros H. destruct (write_chunks_frame target Hne body _ _ _ _ _ _ H)
          as (Hr & (c1 & ->) & _).
        simpl. repeat split; [exact Hr | eauto].
      - intros [= <- <-]. simpl. repeat split; [discriminate | auto]. }
    destruct (node_at (fs s) target) as [[c|]|]; try congruence; exact Hgo. }
  destruct cl; try apply Hopen.
  intros [= <- <-]. simpl. repeat split; [discriminate | auto].
Qed.

(** The run of [download_file] when the server sends every chunk. *)
Lemma download_file_complete
    (net : network) (url : string) (target : path) (s : state)
    (cl : header) (datas : list (list byte)) :
  net url = Response cl (map Data datas) ->
  cl <> HMalformed ->
  node_at (fs s) target <> Some Dir ->
  node_at (fs s) (path_parent target) = Some Dir ->
  download_file net url target s
  = (Val tt, State (<[target := File (concat datas)]> (fs s)) (cwd s)
                   (log s ++ [HttpGet url])).
Proof.
  intros Hnet Hcl Hnd Hparent.
  pose proof (not_dir_nonempty _ _ Hnd) as Hne.
  cbv [download_file try_except_reraise _download bind emit]. rewrite Hnet.
  assert (Hbody : (let (r, s') := open_wb target
                                    (State (fs s) (cwd s) (log s ++ [HttpGet url])) in
                   match r with
                   | Val _ => write_chunks target (map Data datas) s'
                   | Exc e => (Exc e, s')
                   | NoFuel => (NoFuel, s')
                   end)
                  = (Val tt, State (<[target := File (concat datas)]> (fs s)) (cwd s)
                                   (log s ++ [HttpGet url]))).
  { cbv [open_wb bind get_state]. cbn [fs cwd log]. rewrite Hparent.
    assert (Hw : (let (r0, s'0) := set_fs (<[target:=File []]> (fs s))
                                     (State (fs s) (cwd s) (log s ++ [HttpGet url])) in
                  match r0 with
                  | Val _ => write_chunks target (map Data datas) s'0
                  | Exc e => (Exc e, s'0)
                  | NoFuel => (NoFuel, s'0)
                  end)
                 = (Val tt, State (<[target := File (concat datas)]> (fs s)) (cwd s)
                                  (log s ++ [HttpGet url]))).
    { cbv [set_fs]. cbn [fs cwd log].
      destruct (write_chunks target (map Data datas)
                  (State (<[target:=File []]> (fs s)) (cwd s) (log s ++ [HttpGet url])))
        as [r s2] eqn:Hrun.
      destruct (write_chunks_frame target Hne _ _ _ _ _ _ _ Hrun) as (_ & _ & Hall).
      destruct (Hall datas eq_refl) as [-> ->]. reflexivity. }
    destruct (node_at (fs s) target) as [[c|]|]; try congruence; exact Hw. }
  destruct cl; try congruence; rewrite Hbody; reflexivity.
Qed.

(** X1. A download that meets no error.  When the server answers with the
    chunks [datas], whatever number the [content-length] header holds or if
    it is absent, and the destination can be opened (it is not a directory
    and its parent is one), [download_file] returns with the destination
    holding exactly the chunks in order, any older content being replaced;
    one request has been made and nothing else has changed: every other
    path holds what it held. *)
Theorem download_file_stores_chunks
    (net : network) (url : string) (target : path) (s : state)
    (cl : header) (datas : list (list byte))
    (Hnet : net url = Response cl (map Data datas))
    (Hcl : cl <> HMalformed)
    (Hnd : node_at (fs s) target <> Some Dir)
    (Hparent : node_at (fs s) (path_parent target) = Some Dir) :
  exists s' : state,
    download_file net url target s = (Val tt, s')
    /\ node_at (fs s') target = Some (File (concat datas))
    /\ (forall q, q <> target -> node_at (fs s') q = node_at (fs s) q)
    /\ cwd s' = cwd s
    /\ log s' = log s ++ [HttpGet url].
Proof.
  eexists. split; [eapply download_file_complete; eauto|]. cbn [fs cwd log].
  split; [apply node_at_insert_eq; eapply not_dir_nonempty; eauto|].
  split; [|split; reflexivity].
  intros q Hq. apply node_at_insert_ne. congruence.
Qed.

Lemma download_file_stores_chunks_witness :
  serving_net (BASE_URL ++ "demucs.th")%string
  = Response (HInt 16) (map Data [bytes_of_string "part one"; bytes_of_string "part two"])
  /\ HInt 16 <> HMalformed
  /\ node_at (fs demo_state) ["models"; "demucs.th"]%string <> Some Dir
  /\ node_at (fs demo_state) (path_parent ["models"; "demucs.th"]%string) = Some Dir
  /\ exists s' : state,
       download_file serving_net (BASE_URL ++ "demucs.th") ["models"; "demucs.th"]%string
         demo_state = (Val tt, s')
       /\ node_at (fs s') ["models"; "demucs.th"]%string
          = Some (File (concat [bytes_of_string "part one"; bytes_of_string "part two"]))
       /\ (forall q, q <> ["models"; "demucs.th"]%string ->
                     node_at (fs s') q = node_at (fs demo_state) q)
       /\ cwd s' = cwd demo_state
       /\ log s' = log demo_state ++ [HttpGet (BASE_URL ++ "demucs.th")].
Proof.
  assert (H1 : serving_net (BASE_URL ++ "demucs.th")%string
               = Response (HInt 16)
                   (map Data [bytes_of_string "part one"; bytes_of_string "part two"]))
    by reflexivity.
  assert (H2 : HInt 16 <> HMalformed) by discriminate.
  assert (H3 : node_at (fs demo_state) ["models"; "demucs.th"]%string <> Some Dir)
    by (vm_compute; discriminate).
  assert (H4 : node_at (fs demo_state) (path_parent ["models"; "demucs.th"]%string)
               = Some Dir) by reflexivity.
  repeat (split; [assumption|]).
  exact (download_file_stores_chunks serving_net _ _ demo_state _ _ H1 H2 H3 H4).
Defined.

(** X2. What a failed download leaves.  When [download_file] raises and the
    destination was not a directory, the file system afterwards is the one
    before the call with the destination removed: every other file and
    directory is as it was, also when the failure came before the
    destination was opened, in which case an older file of that name is
    deleted all the same.  One request has been logged. *)
Theorem download_file_failure_frame
    (net : network) (url : string) (target : path)
    (s s' : state) (e : exc)
    (Hnd : node_at (fs s) target <> Some Dir)
    (Hraise : download_file net url target s = (Exc e, s')) :
  s' = State (delete target (fs s)) (cwd s) (log s ++ [HttpGet url]).
Proof.
  pose proof (not_dir_nonempty _ _ Hnd) as Hne.
  revert Hraise. cbv [download_file try_except_reraise].
  destruct (_download net url target s) as [r s1] eqn:Hd.
  destruct (_download_frame _ _ _ _ _ _ Hnd Hd) as (Hr & Hcwd & Hlog & Hfs).
  destruct r as [[]|e1|]; try discriminate; try congruence.
  destruct s1 as [f1 c1 l1]. simpl in Hcwd, Hlog, Hfs. subst c1 l1.
  cbv [bind path_exists get_state ret when unlink]. cbn [fs cwd log].
  destruct Hfs as [-> | [c ->]].
  - destruct (node_at (fs s) target) as [[c|]|] eqn:Ht; try congruence.
    + cbv [set_fs]. cbn [fs cwd log]. rewrite Ht. intros [= _ <-]. reflexivity.
    + intros [= _ <-]. f_equal. symmetry. apply delete_id.
      destruct target; [congruence | exact Ht].
  - rewrite (node_at_insert_eq (fs s) target (File c) Hne).
    cbv [set_fs]. cbn [fs cwd log].
    rewrite (node_at_insert_eq (fs s) target (File c) Hne). intros [= _ <-].
    rewrite delete_insert_eq. reflexivity.
Qed.

Lemma download_file_failure_frame_witness :
  node_at (fs demo_state) ["models"; "demucs.th"]%string <> Some Dir
  /\ download_file broken_net (BASE_URL ++ "demucs.th")
       ["models"; "demucs.th"]%string demo_state
     = (Exc ConnectionError,
        State (<[ ["models"]%string := Dir ]> ∅) ["home"; "user"]%string
              [HttpGet (BASE_URL ++ "demucs.th")])
  /\ State (<[ ["models"]%string := Dir ]> ∅) ["home"; "user"]%string
           [HttpGet (BASE_URL ++ "demucs.th")]
     = State (delete ["models"; "demucs.th"]%string (fs demo_state)) (cwd demo_state)
             (log demo_state ++ [HttpGet (BASE_URL ++ "demucs.th")]).
Proof.
  assert (Hnd : node_at (fs demo_state) ["models"; "demucs.th"]%string <> Some Dir)
    by (vm_compute; discriminate).
  assert (Hrun : download_file broken_net (BASE_URL ++ "demucs.th")
                   ["models"; "demucs.th"]%string demo_state
                 = (Exc ConnectionError,
                    State (<[ ["models"]%string := Dir ]> ∅) ["home"; "user"]%string
                          [HttpGet (BASE_URL ++ "demucs.th")]))
    by (vm_compute; reflexivity).
  split; [exact Hnd|]. split; [exact Hrun|].
  exact (download_file_failure_frame _ _ _ _ _ _ Hnd Hrun).
Defined.

(** X3. A directory at the destination.  Whatever the server does (the
    request fails, the header is malformed, the body arrives complete or
    not), [download_file] on a directory raises [IsADirectoryError]: either
    [open] raises it, or the clean-up does when it tries to unlink the
    directory, and that exception replaces the one of the download.  The
    directory and everything else stay as they were. *)
Theorem download_file_directory_target
    (net : network) (url : string) (target : path) (s : state)
    (Hdir : node_at (fs s) target = Some Dir) :
  download_file net url target s
  = (Exc IsADirectoryError, State (fs s) (cwd s) (log s ++ [HttpGet url])).
Proof.
  cbv [download_file try_except_reraise _download bind emit].
  destruct (net url) as [e | [|n|] body];
    cbv [raise open_wb bind get_state path_exists ret when unlink];
    repeat (cbn [fs cwd log]; rewrite Hdir); reflexivity.
Qed.

Lemma download_file_directory_target_witness :
  node_at (fs dir_target_state) ["models"; "demucs.th"]%string = Some Dir
  /\ download_file serving_net (BASE_URL ++ "demucs.th") ["models"; "demucs.th"]%string
       dir_target_state
     = (Exc IsADirectoryError,
        State (fs dir_target_state) (cwd dir_target_state)
              (log dir_target_state ++ [HttpGet (BASE_URL ++ "demucs.th")])).
Proof.
  assert (H : node_at (fs dir_target_state) ["models"; "demucs.th"]%string = Some Dir)
    by reflexivity.
  split; [exact H|].
  exact (download_file_directory_target serving_net _ _ dir_target_state H).
Defined.

(* ===================================================================== *)
(** * [verify_file] and the weights of [main]                             *)
(* ===================================================================== *)

(** The run of [verify_file] on a file. *)
Lemma verify_file_run (target : path) (expected : string) (s : state) (c : list byte) :
  node_at (fs s) target = Some (File c) ->
  verify_file target expected s
  = if String.eqb (Sha256.hexdigest c) expected
    then (Val tt, s)
    else (Exc (SystemExit 1),
          add_log s (Stderr (invalid_signature_msg (cwd s) target expected
                               (Sha256.hexdigest c)))).
Proof.
  intros Hfile. cbv [verify_file bind open_rb get_state]. rewrite Hfile.
  cbv [ret]. rewrite hexdigest_read_loop.
  change (hexdigest (Hasher c)) with (Sha256.hexdigest c).
  destruct (String.eqb (Sha256.hexdigest c) expected); reflexivity.
Qed.

Lemma verify_file_val_inv (target : path) (expected : string) (s s' : state) :
  verify_file target expected s = (Val tt, s') ->
  s' = s /\ exists c, node_at (fs s) target = Some (File c)
                      /\ Sha256.hexdigest c = expected.
Proof.
  destruct (node_at (fs s) target) as [[c|]|] eqn:Ht.
  - rewrite (verify_file_run _ _ _ _ Ht).
    destruct (String.eqb (Sha256.hexdigest c) expected) eqn:He; [|discriminate].
    intros [= <-]. split; [reflexivity|]. exists c. split; [reflexivity|].
    apply String.eqb_eq. exact He.
  - cbv [verify_file bind open_rb get_state]. rewrite Ht. discriminate.
  - cbv [verify_file bind open_rb get_state]. rewrite Ht. discriminate.
Qed.

Lemma bind_exc {X Y} (m : M X) (k : X -> M Y) (s s' : state) (e : exc) :
  m s = (Exc e, s') -> bind m k s = (Exc e, s').
Proof. intros H. unfold bind. rewrite H. reflexivity. Qed.

Lemma bind_val {X Y} (m : M X) (k : X -> M Y) (s s' : state) (x : X) :
  m s = (Val x, s') -> bind m k s = k x s'.
Proof. intros H. unfold bind. rewrite H. reflexivity. Qed.

(** X4. Download, then verification.  After a download that met no error,
    [verify_file] decides on the bytes received: with the expected digest
    the two calls return and the file stays; with another digest the
    process exits with status 1 after the message, and the file that was
    just downloaded is left in place (the clean-up of [download_file] only
    serves errors of the download itself). *)
Theorem download_then_verify
    (net : network) (url : string) (target : path) (s : state)
    (cl : header) (datas : list (list byte)) (expected : string)
    (Hnet : net url = Response cl (map Data datas))
    (Hcl : cl <> HMalformed)
    (Hnd : node_at (fs s) target <> Some Dir)
    (Hparent : node_at (fs s) (path_parent target) = Some Dir) :
  let s1 := State (<[target := File (concat datas)]> (fs s)) (cwd s)
                  (log s ++ [HttpGet url]) in
  let actual := Sha256.hexdigest (concat datas) in
  (download_file net url target ;; verify_file target expected) s
  = if String.eqb actual expected
    then (Val tt, s1)
    else (Exc (SystemExit 1),
          add_log s1 (Stderr (invalid_signature_msg (cwd s) target expected actual))).
Proof.
  intros s1 actual.
  rewrite (bind_val _ _ s s1 tt) by (eapply download_file_complete; eauto).
  rewrite (verify_file_run target expected s1 (concat datas)); [reflexivity|].
  simpl. apply node_at_insert_eq. eapply not_dir_nonempty; eauto.
Qed.

Lemma download_then_verify_witness :
  serving_net (BASE_URL ++ "demucs.th")%string
  = Response (HInt 16) (map Data [bytes_of_string "part one"; bytes_of_string "part two"])
  /\ HInt 16 <> HMalformed
  /\ node_at (fs models_dir_state) ["models"; "demucs.th"]%string <> Some Dir
  /\ node_at (fs models_dir_state) (path_parent ["models"; "demucs.th"]%string) = Some Dir
  /\ fst ((download_file serving_net (BASE_URL ++ "demucs.th")
             ["models"; "demucs.th"]%string ;;
           verify_file ["models"; "demucs.th"]%string
             "f6c4148ba0dc92242d82d7b3f2af55c77bd7cb4ff1a0a3028a523986f36a3cfd")
            models_dir_state)
     = Exc (SystemExit 1).
Proof.
  assert (H1 : serving_net (BASE_URL ++ "demucs.th")%string
               = Response (HInt 16)
                   (map Data [bytes_of_string "part one"; bytes_of_string "part two"]))
    by reflexivity.
  assert (H2 : HInt 16 <> HMalformed) by discriminate.
  assert (H3 : node_at (fs models_dir_state) ["models"; "demucs.th"]%string <> Some Dir)
    by (vm_compute; discriminate).
  assert (H4 : node_at (fs models_dir_state) (path_parent ["models"; "demucs.th"]%string)
               = Some Dir) by reflexivity.
  repeat (split; [assumption|]).
  rewrite (download_then_verify serving_net _ _ models_dir_state _ _
             "f6c4148ba0dc92242d82d7b3f2af55c77bd7cb4ff1a0a3028a523986f36a3cfd"
             H1 H2 H3 H4).
  vm_compute. reflexivity.
Defined.

(** X5. [verify_file] only reads.  Whatever the outcome, the files, the
    directories and the working directory are as before, and the call ends;
    a path that does not exist raises [FileNotFoundError] and a directory
    raises [IsADirectoryError], in both cases before anything is printed. *)
Theorem verify_file_only_reads (target : path) (expected : string) (s : state) :
  fs (snd (verify_file target expected s)) = fs s
  /\ cwd (snd (verify_file target expected s)) = cwd s
  /\ fst (verify_file target expected s) <> NoFuel
  /\ (node_at (fs s) target = None ->
      verify_file target expected s = (Exc FileNotFoundError, s))
  /\ (node_at (fs s) target = Some Dir ->
      verify_file target expected s = (Exc IsADirectoryError, s)).
Proof.
  destruct (node_at (fs s) target) as [[c|]|] eqn:Ht.
  - rewrite (verify_file_run _ _ _ _ Ht).
    destruct (String.eqb (Sha256.hexdigest c) expected); simpl;
      repeat split; try discriminate.
  - cbv [verify_file bind open_rb get_state]. rewrite Ht. simpl.
    repeat split; try discriminate.
  - cbv [verify_file bind open_rb get_state]. rewrite Ht. simpl.
    repeat split; try discriminate.
Qed.

Lemma verify_file_only_reads_witness :
  node_at (fs models_dir_state) ["models"; "demucs.th"]%string = None
  /\ node_at (fs models_dir_state) ["models"]%string = Some Dir
  /\ verify_file ["models"; "demucs.th"]%string "00" models_dir_state
     = (Exc FileNotFoundError, models_dir_state)
  /\ verify_file ["models"]%string "00" models_dir_state
     = (Exc IsADirectoryError, models_dir_state).
Proof.
  assert (H1 : node_at (fs models_dir_state) ["models"; "demucs.th"]%string = None)
    by reflexivity.
  assert (H2 : node_at (fs models_dir_state) ["models"]%string = Some Dir)
    by reflexivity.
  split; [exact H1|]. split; [exact H2|]. split.
  - exact (proj1 (proj2 (proj2 (proj2
             (verify_file_only_reads ["models"; "demucs.th"]%string "00"
                models_dir_state)))) H1).
  - exact (proj2 (proj2 (proj2 (proj2
             (verify_file_only_reads ["models"]%string "00" models_dir_state)))) H2).
Defined.

(** ** The form of a digest *)

Lemma compress_length (h block : list Z) :
  length h = 8%nat -> length (Sha256.compress h block) = 8%nat.
Proof.
  intros Hh. unfold Sha256.compress. rewrite length_map, length_combine, Hh.
  reflexivity.
Qed.

Lemma fold_compress_length (bl : list (list Z)) :
  forall h, length h = 8%nat -> length (fold_left Sha256.compress bl h) = 8%nat.
Proof.
  induction bl as [|b bl IH]; intros h Hh; [exact Hh|].
  simpl. apply IH. apply compress_length. exact Hh.
Qed.

Lemma digest_words_length (msg : list byte) :
  length (Sha256.digest_words msg) = 8%nat.
Proof. unfold Sha256.digest_words. apply fold_compress_length. reflexivity. Qed.

Lemma hex_digit_lower (d : Z) : 0 <= d < 16 -> is_lower_hex (Sha256.hex_digit d) = true.
Proof.
  intros Hd.
  assert (Hc : d = 0 \/ d = 1 \/ d = 2 \/ d = 3 \/ d = 4 \/ d = 5 \/ d = 6 \/ d = 7
               \/ d = 8 \/ d = 9 \/ d = 10 \/ d = 11 \/ d = 12 \/ d = 13 \/ d = 14
               \/ d = 15) by lia.
  repeat (destruct Hc as [-> | Hc]; [reflexivity|]). subst d. reflexivity.
Qed.

Lemma hex_word_spec (n : nat) (x : Z) :
  length (Sha256.hex_word n x) = n
  /\ forallb is_lower_hex (Sha256.hex_word n x) = true.
Proof.
  induction n as [|k [IHl IHf]]; [split; reflexivity|].
  cbn [Sha256.hex_word length forallb]. rewrite IHl, IHf, hex_digit_lower.
  - split; reflexivity.
  - apply Z.mod_pos_bound. lia.
Qed.

Lemma flat_map_hex_word (ws : list Z) :
  length (flat_map (Sha256.hex_word 8) ws) = (8 * length ws)%nat
  /\ forallb is_lower_hex (flat_map (Sha256.hex_word 8) ws) = true.
Proof.
  induction ws as [|w ws [IHl IHf]]; [split; reflexivity|].
  cbn [flat_map]. rewrite length_app, forallb_app, IHl, IHf.
  destruct (hex_word_spec 8 w) as [-> ->]. split; [simpl; lia | reflexivity].
Qed.

Lemma string_length_of_list (l : list ascii) :
  String.length (string_of_list_ascii l) = length l.
Proof. induction l as [|c l IH]; simpl; congruence. Qed.

Lemma hexdigest_well_formed (msg : list byte) :
  well_formed_digest (Sha256.hexdigest msg) = true.
Proof.
  unfold well_formed_digest, Sha256.hexdigest.
  rewrite string_length_of_list, list_ascii_of_string_of_list_ascii.
  destruct (flat_map_hex_word (Sha256.digest_words msg)) as [-> ->].
  rewrite digest_words_length. reflexivity.
Qed.

(** X6. The digests that can match.  A [hexdigest] is always 64 characters
    among [0-9a-f]; the comparison of [verify_file] is exact, so an expected
    digest of another form (in upper case, shortened, with a space) is
    rejected for every file: the call exits with status 1. *)
Theorem verify_file_rejects_malformed_digest
    (target : path) (expected : string) (s : state) (content : list byte)
    (Hfile : node_at (fs s) target = Some (File content))
    (Hform : well_formed_digest expected = false) :
  well_formed_digest (Sha256.hexdigest content) = true
  /\ verify_file target expected s
     = (Exc (SystemExit 1),
        add_log s (Stderr (invalid_signature_msg (cwd s) target expected
                             (Sha256.hexdigest content)))).
Proof.
  split; [apply hexdigest_well_formed|].
  rewrite (verify_file_run _ _ _ _ Hfile).
  destruct (String.eqb (Sha256.hexdigest content) expected) eqn:He; [|reflexivity].
  apply String.eqb_eq in He. rewrite <- He, hexdigest_well_formed in Hform.
  discriminate.
Qed.

Lemma verify_file_rejects_malformed_digest_witness :
  node_at (fs demo_state) ["models"; "demucs.th"]%string
  = Some (File (bytes_of_string "abc"))
  /\ well_formed_digest
       "BA7816BF8F01CFEA414140DE5DAE2223B00361A396177A9CB410FF61F20015AD" = false
  /\ fst (verify_file ["models"; "demucs.th"]%string
            "BA7816BF8F01CFEA414140DE5DAE2223B00361A396177A9CB410FF61F20015AD"
            demo_state)
     = Exc (SystemExit 1).
Proof.
  assert (H1 : node_at (fs demo_state) ["models"; "demucs.th"]%string
               = Some (File (bytes_of_string "abc"))) by reflexivity.
  assert (H2 : well_formed_digest
                 "BA7816BF8F01CFEA414140DE5DAE2223B00361A396177A9CB410FF61F20015AD"
               = false) by reflexivity.
  split; [exact H1|]. split; [exact H2|].
  rewrite (proj2 (verify_file_rejects_malformed_digest _ _ demo_state _ H1 H2)).
  reflexivity.
Defined.

(** ** [main]: the weights *)

Lemma os_mkdir_ends (p : path) (s s' : state) : os_mkdir p s <> (NoFuel, s').
Proof.
  cbv [os_mkdir bind get_state].
  destruct (node_at (fs s) p); [discriminate|].
  destruct (node_at (fs s) (path_parent p)) as [[c|]|]; discriminate.
Qed.

(** [mkdir] creates directories only: a file found afterwards was there
    before. *)
Lemma mkdir_fuel_no_new_file (fuel : nat) :
  forall (parents exist_ok : bool) (p : path) (s : state) (r : result unit) (s' : state),
    mkdir_fuel fuel parents exist_ok p s = (r, s') ->
    forall (q : path) (c : list byte),
      node_at (fs s') q = Some (File c) -> node_at (fs s) q = Some (File c).
Proof.
  induction fuel as [|k IH]; intros parents exist_ok p s r s'.
  { intros [= <- <-]. auto. }
  cbn [mkdir_fuel].
  destruct (os_mkdir p s) as [[[]|e|] s1] eqn:Hos.
  - intros [= <- <-] q c. revert Hos. cbv [os_mkdir bind get_state].
    destruct (node_at (fs s) p) eqn:Hp; [discriminate|].
    destruct (node_at (fs s) (path_parent p)) as [[c'|]|]; try discriminate.
    cbv [set_fs]. intros [= <-]. cbn [fs].
    destruct (decide (p = q)) as [<-|Hne].
    + rewrite node_at_insert_eq by (eapply node_at_none_nonempty; eauto). discriminate.
    + rewrite node_at_insert_ne by exact Hne. auto.
  - apply os_mkdir_exc in Hos. subst s1.
    assert (Hok : forall e0,
               match exist_ok, node_at (fs s) p with
               | true, Some Dir => (Val tt, s)
               | _, _ => (Exc e0, s)
               end = (r, s') ->
               forall q c, node_at (fs s') q = Some (File c) ->
                           node_at (fs s) q = Some (File c)).
    { intros e0. destruct exist_ok; [|intros [= <- <-]; auto].
      destruct (node_at (fs s) p) as [[c0|]|]; intros [= <- <-]; auto. }
    destruct e; try apply Hok.
    destruct parents; [|intros [= <- <-]; auto].
    destruct p as [|c0 p']; [intros [= <- <-]; auto|].
    unfold bind.
    destruct (mkdir_fuel k true true (path_parent (c0 :: p')) s) as [r1 s1] eqn:H1.
    pose proof (IH _ _ _ _ _ _ H1) as F1.
    destruct r1 as [[]|e1|].
    + destruct (mkdir_fuel k false exist_ok (c0 :: p') s1) as [r2 s2] eqn:H2.
      pose proof (IH _ _ _ _ _ _ H2) as F2.
      intros [= <- <-] q c Hq. auto.
    + intros [= <- <-]. exact F1.
    + intros [= <- <-]. exact F1.
  - exfalso. exact (os_mkdir_ends _ _ _ Hos).
Qed.

(** What [download_file] can leave at a destination that held no file:
    if it raises, no file. *)
Lemma download_file_exc_no_file (net : network) (url : string) (target : path)
    (s s' : state) (r : result unit) :
  (forall c, node_at (fs s) target <> Some (File c)) ->
  download_file net url target s = (r, s') ->
  r <> NoFuel
  /\ (r <> Val tt -> forall c, node_at (fs s') target <> Some (File c)).
Proof.
  intros Hnf. destruct (node_at (fs s) target) as [[c0|]|] eqn:Ht.
  - exfalso. exact (Hnf c0 eq_refl).
  - (* a directory *)
    cbv [download_file try_except_reraise _download bind emit].
    destruct (net url) as [e | [|n|] body];
      cbv [raise open_wb bind get_state path_exists ret when unlink];
      repeat (cbn [fs cwd log]; rewrite Ht); intros [= <- <-]; cbn [fs];
      (split; [discriminate|]); intros _ c; rewrite Ht; discriminate.
  - assert (Hnd : node_at (fs s) target <> Some Dir) by congruence.
    cbv [download_file try_except_reraise].
    destruct (_download net url target s) as [r1 s1] eqn:Hd.
    destruct (_download_target_not_dir _ _ _ _ _ _ Hnd Hd) as [Hnd1 Hr1].
    destruct r1 as [[]|e1|]; [| |congruence].
    + intros [= <- <-]. split; [discriminate | congruence].
    + destruct (cleanup_removes_file target s1 Hnd1) as (s2 & Hc & Hnone).
      rewrite Hc. intros [= <- <-]. split; [discriminate|].
      intros _ c. rewrite Hnone. discriminate.
Qed.

(** X7. For a name of the catalogue, the set-up of the weights returns
    normally exactly when it leaves at [models / name] a file whose SHA-256
    digest is the one of the catalogue, whether that file was found or has
    just been downloaded: a run that ends otherwise (a message and exit
    status 1, or an exception of the download) leaves no such file, and no
    run returns over weights that fail the check. *)
Theorem main_model_file_success_verified
    (A : arith) (E : env A) (a : args) (s s' : state) (r : result unit) (h : string)
    (Hcat : PRETRAINED_MODELS !! model_name a = Some h)
    (Hrun : main_model_file A E a s = (r, s')) :
  r = Val tt
  <-> exists c : list byte,
        node_at (fs s') (model_path a) = Some (File c) /\ Sha256.hexdigest c = h.
Proof.
  revert Hrun. unfold main_model_file, model_path.
  set (p := models a /: model_name a). rewrite Hcat.
  cbv [bind path_is_file get_state ret].
  assert (Hverify : forall s1 r1 s2,
             verify_file p h s1 = (r1, s2) ->
             r1 = Val tt
             <-> exists c, node_at (fs s2) p = Some (File c) /\ Sha256.hexdigest c = h).
  { intros s1 r1 s2 Hv.
    destruct (node_at (fs s1) p) as [[c|]|] eqn:Hp.
    - rewrite (verify_file_run _ _ _ _ Hp) in Hv.
      destruct (String.eqb (Sha256.hexdigest c) h) eqn:He; injection Hv as <- <-.
      + apply String.eqb_eq in He. split; [eauto | reflexivity].
      + apply String.eqb_neq in He. cbn [fs add_log]. split; [discriminate|].
        intros (c' & Hc' & Hd). congruence.
    - revert Hv. cbv [verify_file bind open_rb get_state]. rewrite Hp.
      intros [= <- <-]. split; [discriminate|]. intros (c' & Hc' & _). congruence.
    - revert Hv. cbv [verify_file bind open_rb get_state]. rewrite Hp.
      intros [= <- <-]. split; [discriminate|]. intros (c' & Hc' & _). congruence. }
  assert (Hfetch :
            (forall c, node_at (fs s) p <> Some (File c)) ->
            forall body : M unit,
              body = (when (negb (dl a))
                        (print_err (could_not_find_msg p) ;; sys_exit 1) ;;
                      mkdir true true (models a) ;;
                      print "Downloading pre-trained model weights, this could take a while..." ;;
                      download_file (net A E) (BASE_URL ++ model_name a) p) ->
              (let (r0, s0) := body s in
               match r0 with
               | Val _ => verify_file p h s0
               | Exc e => (Exc e, s0)
               | NoFuel => (NoFuel, s0)
               end) = (r, s') ->
              r = Val tt
              <-> exists c, node_at (fs s') p = Some (File c) /\ Sha256.hexdigest c = h).
  { intros Hnf body ->. cbv [bind].
    destruct (dl a); cbn [negb when].
    - cbv [ret]. unfold mkdir.
      destruct (mkdir_fuel (2 + length (models a)) true true (models a) s)
        as [r1 s1] eqn:Hm.
      assert (Hnf1 : forall c, node_at (fs s1) p <> Some (File c)).
      { intros c Hc. apply (Hnf c). eapply mkdir_fuel_no_new_file; eauto. }
      destruct r1 as [[]|e|].
      + cbv [print emit].
        destruct (download_file (net A E) (BASE_URL ++ model_name a) p
                    (State (fs s1) (cwd s1)
                       (log s1 ++ [Stdout "Downloading pre-trained model weights, this could take a while..."])))
          as [r2 s2] eqn:Hdl.
        destruct (download_file_exc_no_file (net A E) (BASE_URL ++ model_name a) p
                    (State (fs s1) (cwd s1)
                       (log s1 ++ [Stdout "Downloading pre-trained model weights, this could take a while..."]))
                    s2 r2 Hnf1 Hdl) as [Hr2 Hno].
        destruct r2 as [[]|e|]; [apply Hverify | | congruence].
        intros [= <- <-]. split; [discriminate|].
        intros (c & Hc & _). exfalso. exact (Hno ltac:(discriminate) c Hc).
      + intros [= <- <-]. split; [discriminate|].
        intros (c & Hc & _). exfalso. exact (Hnf1 c Hc).
      + intros [= <- <-]. split; [discriminate|].
        intros (c & Hc & _). exfalso. exact (Hnf1 c Hc).
    - cbv [print_err emit sys_exit raise]. intros [= <- <-]. cbn [fs].
      split; [discriminate|]. intros (c & Hc & _). exfalso. exact (Hnf c Hc). }
  destruct (node_at (fs s) p) as [[c0|]|] eqn:Hp; cbn [negb when is_None].
  - cbv [ret]. apply Hverify.
  - apply (Hfetch ltac:(intros c; congruence) _ eq_refl).
  - apply (Hfetch ltac:(intros c; congruence) _ eq_refl).
Qed.

Lemma main_model_file_success_verified_witness :
  let r := main_model_file F32.ops serving_env dl_args models_dir_state in
  PRETRAINED_MODELS !! model_name dl_args
  = Some "f6c4148ba0dc92242d82d7b3f2af55c77bd7cb4ff1a0a3028a523986f36a3cfd"%string
  /\ r = (Exc (SystemExit 1), snd r)
  /\ node_at (fs (snd r)) (model_path dl_args)
     = Some (File (bytes_of_string "part onepart two"))
  /\ (Exc (SystemExit 1) = Val tt
      <-> exists c : list byte,
            node_at (fs (snd r)) (model_path dl_args) = Some (File c)
            /\ Sha256.hexdigest c
               = "f6c4148ba0dc92242d82d7b3f2af55c77bd7cb4ff1a0a3028a523986f36a3cfd"%string).
Proof.
  intros r.
  assert (Hcat : PRETRAINED_MODELS !! model_name dl_args
                 = Some "f6c4148ba0dc92242d82d7b3f2af55c77bd7cb4ff1a0a3028a523986f36a3cfd"%string)
    by reflexivity.
  assert (Hrun : r = (Exc (SystemExit 1), snd r)) by (vm_compute; reflexivity).
  split; [exact Hcat|]. split; [exact Hrun|]. split; [vm_compute; reflexivity|].
  exact (main_model_file_success_verified F32.ops serving_env dl_args models_dir_state
           (snd r) (Exc (SystemExit 1)) _ Hcat Hrun).
Defined.

(** X8. Without usable weights [main] stops at once.  When [models / name]
    is not a file and either the name is not in the catalogue or [--dl] was
    not given, [main] exits with status 1 after one message on the error
    stream, the one about the unknown name having priority; no directory
    has been created, nothing has been fetched and no track has been
    read. *)
Theorem main_stops_without_weights
    (A : arith) (E : env A) (a : args) (s : state)
    (Hmissing : forall c, node_at (fs s) (model_path a) <> Some (File c))
    (Hnofetch : PRETRAINED_MODELS !! model_name a = None \/ dl a = false) :
  main A E a s
  = (Exc (SystemExit 1),
     add_log s (Stderr (if is_None (PRETRAINED_MODELS !! model_name a)
                        then no_pretrained_msg a
                        else could_not_find_msg (model_path a)))).
Proof.
  unfold main. apply bind_exc.
  unfold main_model_file, model_path in *.
  set (p := models a /: model_name a) in *.
  cbv [bind path_is_file get_state ret].
  destruct (node_at (fs s) p) as [[c|]|] eqn:Hp;
    try (exfalso; exact (Hmissing c eq_refl));
    destruct (PRETRAINED_MODELS !! model_name a) as [h|]; simpl;
    try reflexivity;
    destruct Hnofetch as [Hn | ->]; try discriminate; reflexivity.
Qed.

Lemma main_stops_without_weights_witness :
  (forall c, node_at (fs models_dir_state) (model_path (demo_args []))
             <> Some (File c))
  /\ (PRETRAINED_MODELS !! model_name (demo_args []) = None
      \/ dl (demo_args []) = false)
  /\ main F32.ops demo_env (demo_args []) models_dir_state
     = (Exc (SystemExit 1),
        add_log models_dir_state
          (Stderr (if is_None (PRETRAINED_MODELS
                               !! model_name (demo_args []))
                   then no_pretrained_msg (demo_args [])
                   else could_not_find_msg (model_path (demo_args []))))).
Proof.
  assert (H1 : forall c, node_at (fs models_dir_state)
                           (model_path (demo_args []))
                         <> Some (File c)) by (intros c; vm_compute; discriminate).
  assert (H2 : PRETRAINED_MODELS !! model_name (demo_args []) = None
               \/ dl (demo_args []) = false) by (right; reflexivity).
  split; [exact H1|]. split; [exact H2|].
  exact (main_stops_without_weights F32.ops demo_env (demo_args []) models_dir_state H1 H2).
Defined.

(** X9. Weights that fail the check are never loaded.  When [models / name]
    is a file whose digest is not the one of the catalogue, [main] exits
    with status 1 after the message of [verify_file]; the file is left as
    it is, also with [--dl]: nothing is fetched to replace it. *)
Theorem main_stops_on_corrupt_weights
    (A : arith) (E : env A) (a : args) (s : state) (c : list byte) (h : string)
    (Hfile : node_at (fs s) (model_path a) = Some (File c))
    (Hcat : PRETRAINED_MODELS !! model_name a = Some h)
    (Hbad : Sha256.hexdigest c <> h) :
  main A E a s
  = (Exc (SystemExit 1),
     add_log s (Stderr (invalid_signature_msg (cwd s) (model_path a) h
                          (Sha256.hexdigest c)))).
Proof.
  unfold main. apply bind_exc.
  unfold main_model_file, model_path in *.
  set (p := models a /: model_name a) in *.
  cbv [bind path_is_file get_state ret]. rewrite Hfile, Hcat. simpl.
  rewrite (verify_file_run _ _ _ _ Hfile).
  apply String.eqb_neq in Hbad. rewrite Hbad. reflexivity.
Qed.

Lemma main_stops_on_corrupt_weights_witness :
  node_at (fs demo_state) (model_path dl_args)
  = Some (File (bytes_of_string "abc"))
  /\ PRETRAINED_MODELS !! model_name dl_args
     = Some "f6c4148ba0dc92242d82d7b3f2af55c77bd7cb4ff1a0a3028a523986f36a3cfd"%string
  /\ Sha256.hexdigest (bytes_of_string "abc")
     <> "f6c4148ba0dc92242d82d7b3f2af55c77bd7cb4ff1a0a3028a523986f36a3cfd"%string
  /\ fst (main F32.ops demo_env dl_args demo_state) = Exc (SystemExit 1).
Proof.
  assert (H1 : node_at (fs demo_state) (model_path dl_args)
               = Some (File (bytes_of_string "abc"))) by reflexivity.
  assert (H2 : PRETRAINED_MODELS !! model_name dl_args
               = Some "f6c4148ba0dc92242d82d7b3f2af55c77bd7cb4ff1a0a3028a523986f36a3cfd"%string)
    by reflexivity.
  assert (H3 : Sha256.hexdigest (bytes_of_string "abc")
               <> "f6c4148ba0dc92242d82d7b3f2af55c77bd7cb4ff1a0a3028a523986f36a3cfd"%string)
    by (vm_compute; discriminate).
  split; [exact H1|]. split; [exact H2|]. split; [exact H3|].
  rewrite (main_stops_on_corrupt_weights F32.ops demo_env dl_args demo_state _ _ H1 H2 H3).
  reflexivity.
Defined.

(* ===================================================================== *)
(** * The tracks and their folders                                        *)
(* ===================================================================== *)

(** ** The loop over the tracks *)

(** X10. A run in which no track exists.  When none of the paths exists,
    the loop ends normally: each track gets its message on the error
    stream, in the order of the command line, no file or directory is
    touched, and no exception (so no failure status) results. *)
Theorem for_tracks_all_missing
    (A : arith) (E : env A) (a : args) (m : model A E) (out : path)
    (ts : list path) (s : state)
    (Hmissing : Forall (fun t => node_at (fs s) t = None) ts) :
  for_tracks A E a m out ts s
  = (Val tt, State (fs s) (cwd s)
                   (log s ++ map (fun t => Stderr (missing_track_msg t)) ts)).
Proof.
  revert s Hmissing. induction ts as [|t ts IH]; intros s Hmissing.
  - simpl. cbv [ret]. rewrite app_nil_r. destruct s; reflexivity.
  - inversion Hmissing as [|? ? Ht Hts]; subst.
    cbn [for_tracks]. cbv [bind path_exists get_state ret]. rewrite Ht. simpl.
    cbv [print_err emit]. rewrite IH by exact Hts. cbn [fs cwd log map].
    rewrite <- app_assoc. reflexivity.
Qed.

Lemma for_tracks_all_missing_witness :
  let ts := [["music"; "gone.wav"]; ["music"; "lost.mp3"]]%string in
  Forall (fun t => node_at (fs music_state) t = None) ts
  /\ for_tracks F32.ops demo_env (demo_args ts) tt ["separated"; "demucs"]%string ts
       music_state
     = (Val tt, State (fs music_state) (cwd music_state)
                      (log music_state
                       ++ map (fun t => Stderr (missing_track_msg t)) ts)).
Proof.
  intros ts.
  assert (H : Forall (fun t => node_at (fs music_state) t = None) ts)
    by (repeat constructor).
  split; [exact H|].
  exact (for_tracks_all_missing F32.ops demo_env (demo_args ts) tt
           ["separated"; "demucs"]%string ts music_state H).
Defined.

(** ** One track *)

(** X11. A track that cannot be read or separated leaves no trace on disk.
    When the reader or the model raises, [separate_track] raises the same
    exception after its one line on the standard output: no folder has been
    created for the track and no file written. *)
Theorem separate_track_failure_before_output
    (A : arith) (E : env A) (a : args) (m : model A E) (out track : path)
    (s : state) (n : node) (e : exc)
    (Hnode : node_at (fs s) track = Some n)
    (Hfail : audio_read A E n (device a) = inl e
             \/ exists wav, audio_read A E n (device a) = inr wav
                            /\ apply_model A E m (model_input A wav) (shifts a) (split a)
                               = inl e) :
  separate_track A E a m out track s
  = (Exc e, add_log s (Stdout ("Separating track " ++ path_str track))).
Proof.
  unfold separate_track. cbv [bind print emit get_state]. cbn [fs cwd log].
  rewrite Hnode.
  destruct Hfail as [Hread | (wav & Hread & Happly)]; rewrite Hread; cbv [lift raise ret].
  - reflexivity.
  - unfold model_input in Happly. rewrite Happly. reflexivity.
Qed.

Lemma separate_track_failure_before_output_witness :
  node_at (fs music_state) ["music"; "bad.wav"]%string = Some (File [])
  /\ (audio_read F32.ops demo_env (File []) (device (demo_args []))
      = inl (RuntimeError "no audio stream")
      \/ exists wav, audio_read F32.ops demo_env (File []) (device (demo_args [])) = inr wav
                     /\ apply_model F32.ops demo_env tt (model_input F32.ops wav)
                          (shifts (demo_args [])) (split (demo_args []))
                        = inl (RuntimeError "no audio stream"))
  /\ separate_track F32.ops demo_env (demo_args []) tt ["separated"; "demucs"]%string
       ["music"; "bad.wav"]%string music_state
     = (Exc (RuntimeError "no audio stream"),
        add_log music_state (Stdout ("Separating track "
                                     ++ path_str ["music"; "bad.wav"]%string))).
Proof.
  assert (H1 : node_at (fs music_state) ["music"; "bad.wav"]%string = Some (File []))
    by reflexivity.
  assert (H2 : audio_read F32.ops demo_env (File []) (device (demo_args []))
               = inl (RuntimeError "no audio stream")
               \/ exists wav,
                   audio_read F32.ops demo_env (File []) (device (demo_args [])) = inr wav
                   /\ apply_model F32.ops demo_env tt (model_input F32.ops wav)
                        (shifts (demo_args [])) (split (demo_args []))
                      = inl (RuntimeError "no audio stream"))
    by (left; reflexivity).
  split; [exact H1|]. split; [exact H2|].
  exact (separate_track_failure_before_output F32.ops demo_env (demo_args []) tt
           ["separated"; "demucs"]%string ["music"; "bad.wav"]%string music_state
           (File []) (RuntimeError "no audio stream") H1 H2).
Defined.

Lemma wav_paths_app (l1 l2 : list event) : wav_paths (l1 ++ l2) = wav_paths l1 ++ wav_paths l2.
Proof. unfold wav_paths. apply flat_map_app. Qed.

Lemma wav_paths_written (ws : list (path * list byte)) :
  wav_paths (map (fun w => WavWritten (fst w) (snd w)) ws) = map fst ws.
Proof. induction ws as [|w ws IH]; simpl; congruence. Qed.

Lemma stem_write_paths (A : arith) (E : env A) (a : args) (folder : path)
    (l : list (tensor2 A)) :
  forall names : list string,
    map fst (map (stem_write A E a folder) (combine l names))
    = map (fun nm => folder /: (nm ++ ".wav")%string) (firstn (length l) names).
Proof.
  induction l as [|x l IH]; intros [|nm names]; simpl; try reflexivity.
  f_equal. apply IH.
Qed.

(** The files of a complete run: one per pair of [zip]. *)
Lemma separate_track_paths (A : arith) (E : env A) (a : args) (m : model A E)
    (out track : path) (s s' : state) :
  separate_track A E a m out track s = (Val tt, s') ->
  exists (n : node) (wav : tensor2 A) (sources : tensor3 A),
    node_at (fs s) track = Some n
    /\ audio_read A E n (device a) = inr wav
    /\ apply_model A E m (model_input A wav) (shifts a) (split a) = inr sources
    /\ wav_paths (log s')
       = wav_paths (log s)
         ++ map (fun nm => out /: track_folder_name track /: (nm ++ ".wav")%string)
                (firstn (length sources) source_names).
Proof.
  unfold separate_track.
  intros H. apply bind_val_inv in H. destruct H as ([] & s0 & H0 & H).
  cbv [print emit] in H0. injection H0 as <-.
  apply bind_val_inv in H. destruct H as (s0' & s1 & H1 & H).
  cbv [get_state] in H1. injection H1 as <- <-.
  apply bind_val_inv in H. destruct H as (wav & s2 & H2 & H).
  simpl in H2.
  destruct (node_at (fs s) track) as [n|] eqn:Hn; [|discriminate].
  apply lift_val_inv in H2. destruct H2 as [Hread ->].
  apply bind_val_inv in H. destruct H as (sources & s3 & H3 & H).
  apply lift_val_inv in H3. destruct H3 as [Happly ->].
  apply bind_val_inv in H. destruct H as ([] & s4 & H4 & H).
  apply mkdir_fuel_val in H4. destruct H4 as [_ Hlog4].
  apply write_sources_val in H. destruct H as [_ Hlog].
  exists n, wav, sources. repeat (split; [first [reflexivity | assumption]|]).
  rewrite Hlog, Hlog4. cbn [log]. rewrite !wav_paths_app, wav_paths_written.
  simpl. rewrite app_nil_r. f_equal.
  rewrite stem_write_paths. unfold denormalize. rewrite length_map. reflexivity.
Qed.

(** X12. The files follow [zip(sources, source_names)].  A track processed
    to the end gets one file per source of the model, named after the first
    names of drums, bass, other, vocals, in that order, and never more than
    four: sources beyond the fourth are dropped without a message, and a
    model with fewer sources leaves the last names unwritten. *)
Theorem separate_track_writes_zip
    (A : arith) (E : env A) (a : args) (m : model A E) (out track : path)
    (s s' : state)
    (Hrun : separate_track A E a m out track s = (Val tt, s')) :
  exists (n : node) (wav : tensor2 A) (sources : tensor3 A),
    node_at (fs s) track = Some n
    /\ audio_read A E n (device a) = inr wav
    /\ apply_model A E m (model_input A wav) (shifts a) (split a) = inr sources
    /\ wav_paths (log s')
       = wav_paths (log s)
         ++ map (fun nm => out /: track_folder_name track /: (nm ++ ".wav")%string)
                (firstn (length sources) source_names)
    /\ length (wav_paths (log s'))
       = (length (wav_paths (log s)) + Nat.min (length sources) 4)%nat.
Proof.
  destruct (separate_track_paths A E a m out track s s' Hrun)
    as (n & wav & sources & Hn & Hread & Happly & Hpaths).
  exists n, wav, sources. repeat (split; [assumption|]).
  rewrite Hpaths, length_app, length_map, length_firstn. reflexivity.
Qed.

Lemma separate_track_writes_zip_witness :
  let a := demo_args [] in
  let track := ["music"; "good.wav"]%string in
  let r := separate_track F32.ops duo_env a tt ["separated"; "demucs"]%string track
             music_state in
  r = (Val tt, snd r)
  /\ wav_paths (log (snd r))
     = [ ["separated"; "demucs"; "good"; "drums.wav"];
         ["separated"; "demucs"; "good"; "bass.wav"] ]%string.
Proof.
  intros a track r.
  assert (Hrun : r = (Val tt, snd r)) by (vm_compute; reflexivity).
  split; [exact Hrun|].
  destruct (separate_track_writes_zip F32.ops duo_env a tt ["separated"; "demucs"]%string
              track music_state (snd r) Hrun)
    as (n & wav & sources & _ & _ & Happly & Hpaths & _).
  injection Happly as <-. exact Hpaths.
Defined.

(** ** The folder of a track *)

Lemma split_dot_nonempty (s : string) : split_dot s <> [].
Proof.
  induction s as [|c s IH]; simpl; [discriminate|].
  destruct (Ascii.eqb c "."); [discriminate|].
  destruct (split_dot s); [congruence | discriminate].
Qed.

Lemma split_dot_prefix (p r : string) :
  no_dot p = true ->
  hd EmptyString (split_dot p) = p
  /\ hd EmptyString (split_dot (p ++ String "." r)) = p.
Proof.
  induction p as [|c p IH]; intros Hp.
  - split; reflexivity.
  - simpl in Hp. apply andb_true_iff in Hp. destruct Hp as [Hc Hp].
    apply negb_true_iff in Hc. destruct (IH Hp) as [IH1 IH2].
    split.
    + cbn [split_dot]. rewrite Hc.
      pose proof (split_dot_nonempty p) as Hne.
      destruct (split_dot p) as [|w ws]; [congruence|]. simpl in *. congruence.
    + change (String c p ++ String "." r)%string with (String c (p ++ String "." r)).
      cbn [split_dot]. rewrite Hc.
      pose proof (split_dot_nonempty (p ++ String "." r)) as Hne.
      destruct (split_dot (p ++ String "." r)) as [|w ws]; [congruence|].
      simpl in *. congruence.
Qed.

Lemma path_name_last (dir : path) (nm : string) : path_name (dir ++ [nm]) = nm.
Proof. unfold path_name. apply last_last. Qed.

Lemma track_folder_name_prefix (dir : path) (p r : string) :
  no_dot p = true ->
  track_folder_name (dir ++ [p]) = p
  /\ track_folder_name (dir ++ [(p ++ String "." r)%string]) = p.
Proof.
  intros Hp. unfold track_folder_name. rewrite !path_name_last.
  apply split_dot_prefix. exact Hp.
Qed.

(** X13. The folder of a track is named by the text of its file name
    before the first dot, and by nothing else: a name without dot names the
    folder itself, the directories of the track play no part, and so two
    tracks whose file names agree up to their first dot (the same song in
    two formats, or in two directories) are written to the same folder. *)
Theorem track_folder_name_first_dot
    (dir1 dir2 : path) (p r1 r2 : string) (Hp : no_dot p = true) :
  track_folder_name (dir1 ++ [p]) = p
  /\ track_folder_name (dir1 ++ [(p ++ String "." r1)%string]) = p
  /\ track_folder_name (dir1 ++ [(p ++ String "." r1)%string])
     = track_folder_name (dir2 ++ [(p ++ String "." r2)%string]).
Proof.
  destruct (track_folder_name_prefix dir1 p r1 Hp) as [H1 H2].
  destruct (track_folder_name_prefix dir2 p r2 Hp) as [_ H3].
  split; [exact H1|]. split; [exact H2|]. congruence.
Qed.

Lemma track_folder_name_first_dot_witness :
  no_dot "song" = true
  /\ track_folder_name ["music"; "song.live.mp3"]%string = "song"%string
  /\ track_folder_name ["music"; "song.live.mp3"]%string
     = track_folder_name ["other"; "albums"; "song.wav"]%string.
Proof.
  assert (Hp : no_dot "song" = true) by reflexivity.
  split; [exact Hp|].
  exact (proj2 (track_folder_name_first_dot ["music"]%string ["other"; "albums"]%string
                  "song" "live.mp3" "wav" Hp)).
Defined.

(** X14. A track whose file name starts with a dot has the empty text for
    folder name, and [out / ""] is [out]: a complete run on it writes its
    stems, one per source of the model and in the order of the names, into
    the output folder of the model itself, beside the folders of the other
    tracks. *)
Theorem hidden_track_writes_into_out
    (A : arith) (E : env A) (a : args) (m : model A E) (out dir : path)
    (r : string) (s s' : state)
    (Hrun : separate_track A E a m out (dir ++ [String "." r]) s = (Val tt, s')) :
  track_folder_name (dir ++ [String "." r]) = EmptyString
  /\ exists (n : node) (wav : tensor2 A) (sources : tensor3 A),
       node_at (fs s) (dir ++ [String "." r]) = Some n
       /\ audio_read A E n (device a) = inr wav
       /\ apply_model A E m (model_input A wav) (shifts a) (split a) = inr sources
       /\ wav_paths (log s')
          = wav_paths (log s)
            ++ map (fun nm => out /: (nm ++ ".wav")%string)
                   (firstn (length sources) source_names).
Proof.
  destruct (track_folder_name_prefix dir EmptyString r eq_refl) as [_ Hf].
  change (EmptyString ++ String "." r)%string with (String "." r) in Hf.
  split; [exact Hf|].
  destruct (separate_track_paths A E a m out _ s s' Hrun)
    as (n & wav & sources & Hn & Hread & Happly & Hpaths).
  exists n, wav, sources. repeat (split; [assumption|]).
  rewrite Hpaths, Hf. reflexivity.
Qed.

Lemma hidden_track_writes_into_out_witness :
  let a := demo_args [] in
  let r := separate_track F32.ops duo_env a tt ["separated"; "demucs"]%string
             (["music"]%string ++ [String "." "hidden.wav"]) hidden_state in
  r = (Val tt, snd r)
  /\ track_folder_name (["music"]%string ++ [String "." "hidden.wav"]) = EmptyString
  /\ wav_paths (log (snd r))
     = [ ["separated"; "demucs"; "drums.wav"];
         ["separated"; "demucs"; "bass.wav"] ]%string.
Proof.
  intros a r.
  assert (Hrun : r = (Val tt, snd r)) by (vm_compute; reflexivity).
  split; [exact Hrun|].
  destruct (hidden_track_writes_into_out F32.ops duo_env a tt
              ["separated"; "demucs"]%string ["music"]%string "hidden.wav"
              hidden_state (snd r) Hrun)
    as [Hf (n & wav & sources & _ & _ & Happly & Hpaths)].
  split; [exact Hf|]. injection Happly as <-. exact Hpaths.
Defined.

(** ** What a run on one track leaves alone *)

(** [mkdir(exist_ok=True)] without [parents] creates the one directory or
    nothing. *)
Lemma mkdir_fuel_single (fuel : nat) (exist_ok : bool) (p : path) (s s' : state) :
  mkdir_fuel fuel false exist_ok p s = (Val tt, s') ->
  cwd s' = cwd s
  /\ (fs s' = fs s \/ fs s' = <[p := Dir]> (fs s)).
Proof.
  destruct fuel as [|k]; [discriminate|]. cbn [mkdir_fuel].
  destruct (os_mkdir p s) as [[[]|e|] s1] eqn:Hos.
  - intros [= <-]. revert Hos. cbv [os_mkdir bind get_state].
    destruct (node_at (fs s) p); [discriminate|].
    destruct (node_at (fs s) (path_parent p)) as [[c|]|]; try discriminate.
    cbv [set_fs]. intros [= <-]. simpl. auto.
  - apply os_mkdir_exc in Hos. subst s1.
    assert (Hok : forall e0,
               match exist_ok, node_at (fs s) p with
               | true, Some Dir => (Val tt, s)
               | _, _ => (Exc e0, s)
               end = (Val tt, s') ->
               cwd s' = cwd s /\ (fs s' = fs s \/ fs s' = <[p := Dir]> (fs s))).
    { intros e0. destruct exist_ok; [|discriminate].
      destruct (node_at (fs s) p) as [[c|]|]; try discriminate.
      intros [= <-]. auto. }
    destruct e; try apply Hok. discriminate.
  - discriminate.
Qed.

Lemma fold_insert_frame (ws : list (path * list byte)) (q : path) :
  forall f : gmap (list string) node,
    ~ In q (map fst ws) ->
    node_at (fold_left (fun f w => <[fst w := File (snd w)]> f) ws f) q = node_at f q.
Proof.
  induction ws as [|w ws IH]; intros f Hq; [reflexivity|].
  simpl in Hq |- *. rewrite IH by tauto.
  apply node_at_insert_ne. tauto.
Qed.

(** X19. A complete run on one track changes nothing but the folder of the
    track and the stems in it: every other path, the other tracks and the
    weights among them, holds after the run what it held before. *)
Theorem separate_track_frame
    (A : arith) (E : env A) (a : args) (m : model A E) (out track : path)
    (s s' : state) (q : path)
    (Hrun : separate_track A E a m out track s = (Val tt, s'))
    (Hfolder : q <> out /: track_folder_name track)
    (Hstems : forall nm, In nm source_names ->
                         q <> out /: track_folder_name track /: (nm ++ ".wav")%string) :
  node_at (fs s') q = node_at (fs s) q.
Proof.
  revert Hrun. unfold separate_track.
  intros H. apply bind_val_inv in H. destruct H as ([] & s0 & H0 & H).
  cbv [print emit] in H0. injection H0 as <-.
  apply bind_val_inv in H. destruct H as (s0' & s1 & H1 & H).
  cbv [get_state] in H1. injection H1 as <- <-.
  apply bind_val_inv in H. destruct H as (wav & s2 & H2 & H).
  simpl in H2.
  destruct (node_at (fs s) track) as [n|] eqn:Hn; [|discriminate].
  apply lift_val_inv in H2. destruct H2 as [Hread ->].
  apply bind_val_inv in H. destruct H as (sources & s3 & H3 & H).
  apply lift_val_inv in H3. destruct H3 as [Happly ->].
  apply bind_val_inv in H. destruct H as ([] & s4 & H4 & H).
  apply mkdir_fuel_single in H4. destruct H4 as [_ Hfs4]. cbn [fs] in Hfs4.
  apply write_sources_val in H. destruct H as [Hfs _].
  rewrite Hfs, fold_insert_frame.
  - destruct Hfs4 as [-> | ->]; [reflexivity|].
    apply node_at_insert_ne. congruence.
  - rewrite stem_write_paths. intros Hin. apply List.in_map_iff in Hin.
    destruct Hin as (nm & Heq & Hnm).
    apply (Hstems nm); [|congruence].
    rewrite <- (firstn_skipn (length (denormalize A (mean0 A (discretize A wav)) sources))
                  source_names).
    apply in_or_app. left. exact Hnm.
Qed.

Lemma separate_track_frame_witness :
  let a := demo_args [] in
  let track := ["music"; "good.wav"]%string in
  let out := ["separated"; "demucs"]%string in
  let r := separate_track F32.ops demo_env a tt out track music_state in
  r = (Val tt, snd r)
  /\ track <> out /: track_folder_name track
  /\ (forall nm, In nm source_names ->
                 track <> out /: track_folder_name track /: (nm ++ ".wav")%string)
  /\ node_at (fs (snd r)) track = node_at (fs music_state) track.
Proof.
  intros a track out r.
  assert (Hrun : r = (Val tt, snd r)) by (vm_compute; reflexivity).
  assert (H1 : track <> out /: track_folder_name track) by (vm_compute; discriminate).
  assert (H2 : forall nm, In nm source_names ->
                          track <> out /: track_folder_name track /: (nm ++ ".wav")%string).
  { intros nm Hin. simpl in Hin.
    destruct Hin as [<- | [<- | [<- | [<- | []]]]]; vm_compute; discriminate. }
  split; [exact Hrun|]. split; [exact H1|]. split; [exact H2|].
  exact (separate_track_frame F32.ops demo_env a tt out track music_state (snd r) track
           Hrun H1 H2).
Defined.

(* ===================================================================== *)
(** * Binary32: the samples of 16-bit audio                               *)
(* ===================================================================== *)

(** The float of [p / 2^15] for a [p] of at most 16 bits. *)
Lemma pcm16_sample_finite (s : bool) (p : positive) :
  Zpos p <= 32768 ->
  let d := Zpos (digits2_pos p) in
  let x := S754_finite s (F32.shift_mantissa p (24 - d)) (d - 39) in
  SFdiv F32.prec F32.emax (binary_round F32.prec F32.emax s p 0)
        (S754_finite false 8388608 (-8)) = x
  /\ discretize_sample F32.ops x = x
  /\ quantize_sample F32.ops x = Some (clamp16 (if s then - Zpos p else Zpos p)).
Proof.
  intros Hp d x.
  assert (Hd16 : d <= 16).
  { apply lt_pow_digits_le; [lia|]. change (2 ^ 16) with 65536. lia. }
  assert (Hd1 : 1 <= d) by (unfold d; lia).
  assert (HdM : Zpos (digits2_pos (F32.shift_mantissa p (24 - d))) = 24).
  { rewrite shift_mantissa_digits by lia. fold d. lia. }
  split; [|split].
  - rewrite f32_binary_round_int by (fold d; lia). fold d.
    rewrite f32_div_two15 by (try exact HdM; lia).
    unfold x. f_equal. lia.
  - apply on_grid_fixed. exists s, (F32.shift_mantissa p (24 - d)), (d - 39).
    split; [reflexivity|]. split; [exact HdM|]. split; [lia|].
    replace (d - 39 + 15) with (d - 24) by lia.
    apply (f32_round_int_fixed s p). fold d. lia.
  - rewrite f32_quantize_exact.
    + unfold x, quantize_exact, scaled_trunc. cbn [option_map].
      replace (d - 39 + 15) with (d - 24) by lia.
      assert (Hint : int_part (F32.shift_mantissa p (24 - d)) (d - 24) = Zpos p).
      { unfold int_part.
        replace (0 <=? d - 24) with false by (symmetry; apply Z.leb_gt; lia).
        rewrite shift_mantissa_Z by lia.
        replace (- (d - 24)) with (24 - d) by lia.
        apply Z.div_mul. apply Z.pow_nonzero; lia. }
      rewrite Hint. reflexivity.
    + unfold x, F32.valid. cbn [valid_binary]. unfold bounded.
      apply andb_true_iff. split.
      * apply canonical_intro. rewrite HdM. lia.
      * apply Z.leb_le. change (F32.emax - F32.prec) with 104. lia.
Qed.

(** X15. Samples of 16-bit audio pass unchanged.  For every 16-bit value
    [n], the binary32 sample [n / 2^15] is left as it is by the rounding of
    the input, and the conversion of the output writes it back as [n]. *)
Theorem pcm16_round_trip (n : Z) (Hn : - 32768 <= n <= 32767) :
  discretize_sample F32.ops (pcm16_sample n) = pcm16_sample n
  /\ quantize_sample F32.ops (pcm16_sample n) = Some n.
Proof.
  unfold pcm16_sample. rewrite f32_two15.
  change (div F32.ops) with (SFdiv F32.prec F32.emax).
  change (of_Z F32.ops n) with (binary_normalize F32.prec F32.emax n 0 false).
  destruct n as [|p|p].
  - split; reflexivity.
  - cbn [binary_normalize].
    destruct (pcm16_sample_finite false p ltac:(lia)) as (-> & Hdisc & Hq).
    split; [exact Hdisc|]. rewrite Hq. f_equal. unfold clamp16.
    change (2 ^ 15) with 32768. lia.
  - cbn [binary_normalize].
    destruct (pcm16_sample_finite true p ltac:(lia)) as (-> & Hdisc & Hq).
    split; [exact Hdisc|]. rewrite Hq. f_equal. unfold clamp16.
    change (2 ^ 15) with 32768. lia.
Qed.

Lemma pcm16_round_trip_witness :
  - 32768 <= -12345 <= 32767
  /\ discretize_sample F32.ops (pcm16_sample (-12345)) = pcm16_sample (-12345)
  /\ quantize_sample F32.ops (pcm16_sample (-12345)) = Some (-12345).
Proof.
  assert (H : - 32768 <= -12345 <= 32767) by lia.
  split; [exact H|]. exact (pcm16_round_trip (-12345) H).
Defined.

(* ===================================================================== *)
(** * The layout of the arrays written                                    *)
(* ===================================================================== *)

Lemma nth_error_zip_with_cons {X} (r : list X) :
  forall (cols : list (list X)) (t : nat) (x : X) (col : list X),
    nth_error r t = Some x -> nth_error cols t = Some col ->
    nth_error (zip_with cons r cols) t = Some (x :: col).
Proof.
  induction r as [|y r IH]; intros [|c cols] [|t] x col; simpl; try discriminate.
  - congruence.
  - apply IH.
Qed.

Lemma length_zip_with_cons {X} (r : list X) :
  forall cols : list (list X),
    length (zip_with cons r cols) = Nat.min (length r) (length cols).
Proof.
  induction r as [|y r IH]; intros [|c cols]; simpl; try reflexivity.
  f_equal. apply IH.
Qed.

(** The transposed of a rectangular tensor of [length rows] rows and [T]
    columns. *)
Lemma transpose_entry {X} (T : nat) (rows : list (list X)) :
  rows <> [] -> Forall (fun row => length row = T) rows ->
  length (transpose rows) = T
  /\ forall (c t : nat) (row : list X) (x : X),
       nth_error rows c = Some row -> nth_error row t = Some x ->
       exists frame, nth_error (transpose rows) t = Some frame
                     /\ nth_error frame c = Some x.
Proof.
  induction rows as [|r rest IH]; [congruence|]. intros _ Hrect.
  inversion Hrect as [|? ? Hr Hrest]; subst.
  destruct rest as [|r2 rest].
  - simpl. rewrite length_map. split; [reflexivity|].
    intros [|c] t row x; simpl.
    + intros [= <-] Hx. exists [x]. rewrite List.nth_error_map, Hx. split; reflexivity.
    + destruct c; discriminate.
  - destruct (IH ltac:(discriminate) Hrest) as [Hlen Hent].
    change (transpose (r :: r2 :: rest))
      with (zip_with cons r (transpose (r2 :: rest))).
    split.
    + rewrite length_zip_with_cons, Hlen. lia.
    + intros [|c] t row x Hrow Hx.
      * injection Hrow as <-.
        assert (Ht : (t < length (transpose (r2 :: rest)))%nat).
        { rewrite Hlen. apply nth_error_Some. congruence. }
        apply nth_error_Some in Ht.
        destruct (nth_error (transpose (r2 :: rest)) t) as [col|] eqn:Hcol; [|congruence].
        exists (x :: col). split; [|reflexivity].
        apply nth_error_zip_with_cons; assumption.
      * change (nth_error (r2 :: rest) c = Some row) in Hrow.
        destruct (Hent c t row x Hrow Hx) as (frame & Hf & Hc).
        assert (Ht : (t < length r)%nat).
        { assert (Hlr : length row = length r).
          { apply nth_error_In in Hrow.
            exact (proj1 (List.Forall_forall _ _) Hrest row Hrow). }
          assert (t < length row)%nat by (apply nth_error_Some; congruence). lia. }
        apply nth_error_Some in Ht.
        destruct (nth_error r t) as [y|] eqn:Hy; [|congruence].
        exists (y :: frame). split; [|exact Hc].
        apply nth_error_zip_with_cons; assumption.
Qed.

(** X16. The array handed to [wavfile.write] is laid out by frames.  For a
    stem of at least one channel whose channels all hold [T] samples, the
    array has [T] rows, and the row [t] holds at position [c] the sample [t]
    of channel [c]: as it is with [--float32], converted to 16 bits
    otherwise. *)
Theorem output_array_layout
    (A : arith) (source : tensor2 A) (T : nat)
    (Hchannels : source <> [])
    (Hrect : Forall (fun row => length row = T) source) :
  (exists d, output_array A true source = Float32 d
             /\ length d = T
             /\ forall c t row x,
                  nth_error source c = Some row -> nth_error row t = Some x ->
                  exists frame, nth_error d t = Some frame
                                /\ nth_error frame c = Some x)
  /\ (exists d, output_array A false source = Int16 d
                /\ length d = T
                /\ forall c t row x,
                     nth_error source c = Some row -> nth_error row t = Some x ->
                     exists frame, nth_error d t = Some frame
                                   /\ nth_error frame c = Some (quantize_sample A x)).
Proof.
  split.
  - exists (transpose source). split; [reflexivity|].
    apply transpose_entry; assumption.
  - exists (transpose (map (map (quantize_sample A)) source)). split; [reflexivity|].
    unfold tensor2 in *.
    destruct (transpose_entry T (map (map (quantize_sample A)) source)) as [Hlen Hent].
    + destruct source; [congruence | discriminate].
    + apply List.Forall_forall. intros row Hin.
      apply List.in_map_iff in Hin. destruct Hin as (row0 & <- & Hin0).
      rewrite length_map. rewrite List.Forall_forall in Hrect. apply Hrect. exact Hin0.
    + split; [exact Hlen|].
      intros c t row x Hrow Hx.
      apply (Hent c t (map (quantize_sample A) row)).
      * rewrite List.nth_error_map, Hrow. reflexivity.
      * rewrite List.nth_error_map, Hx. reflexivity.
Qed.

Lemma output_array_layout_witness :
  demo_wav <> []
  /\ Forall (fun row => length row = 2%nat) demo_wav
  /\ exists d, output_array F32.ops false demo_wav = Int16 d /\ length d = 2%nat.
Proof.
  assert (H1 : demo_wav <> []) by discriminate.
  assert (H2 : Forall (fun row : list F32.f32 => length row = 2%nat) demo_wav)
    by (repeat constructor).
  split; [exact H1|]. split; [exact H2|].
  destruct (proj2 (output_array_layout F32.ops demo_wav 2 H1 H2)) as (d & Hd & Hlen & _).
  exists d. split; assumption.
Defined.

(* ===================================================================== *)
(** * Binary32: the real value a float stands for                       *)
(* ===================================================================== *)

Lemma bpow_pos (e : Z) : (0 < bpow e)%R.
Proof. apply powerRZ_lt. lra. Qed.

Lemma bpow_add (a b : Z) : bpow (a + b) = (bpow a * bpow b)%R.
Proof. apply powerRZ_add. lra. Qed.

Lemma bpow_0 : bpow 0 = 1%R.
Proof. reflexivity. Qed.

Lemma bpow_1 : bpow 1 = 2%R.
Proof. unfold bpow. simpl. lra. Qed.

Lemma bpow_succ (e : Z) : bpow (e + 1) = (2 * bpow e)%R.
Proof. rewrite bpow_add, bpow_1. lra. Qed.

Lemma bpow_opp (e : Z) : bpow (- e) = (/ bpow e)%R.
Proof. apply powerRZ_neg'. Qed.

Lemma bpow_IZR (e : Z) : 0 <= e -> bpow e = IZR (2 ^ e).
Proof.
  intros He. unfold bpow. rewrite <- (Z2Nat.id e He) at 1.
  rewrite <- pow_powerRZ. rewrite <- (Z2Nat.id e He) at 2.
  change 2%R with (IZR 2). rewrite pow_IZR. reflexivity.
Qed.

Lemma bpow_le (a b : Z) : a <= b -> (bpow a <= bpow b)%R.
Proof.
  intros H. replace b with (a + (b - a)) by lia. rewrite bpow_add.
  rewrite (bpow_IZR (b - a)) by lia.
  assert (1 <= IZR (2 ^ (b - a)))%R.
  { apply IZR_le. pose proof (Z.pow_pos_nonneg 2 (b - a)). lia. }
  pose proof (bpow_pos a). nra.
Qed.

Lemma bpow_lt (a b : Z) : a < b -> (bpow a < bpow b)%R.
Proof.
  intros H. replace b with (a + (b - a)) by lia. rewrite bpow_add.
  rewrite (bpow_IZR (b - a)) by lia.
  assert (2 <= IZR (2 ^ (b - a)))%R.
  { apply IZR_le. replace (b - a) with (1 + (b - a - 1)) by lia.
    rewrite Z.pow_add_r by lia. pose proof (Z.pow_pos_nonneg 2 (b - a - 1)). lia. }
  pose proof (bpow_pos a). nra.
Qed.

(** One shift to the right keeps the number a record stands for. *)
Lemma shr_1_represents (v : R) (mrs : shr_record) (e : Z) :
  represents v mrs e -> represents v (shr_1 mrs) (e + 1).
Proof.
  destruct mrs as [m r s]. intros [Hm (d & Hd & Hv)]. cbn [shr_m shr_r shr_s] in *.
  assert (Hhalf : forall (b : bool) (p : Z),
             m = 2 * p + (if b then 1 else 0) -> 0 <= p ->
             represents v (Build_shr_record p b (r || s)) (e + 1)).
  { intros b p Hp Hp0. split; [exact Hp0|]. cbn [shr_m shr_r shr_s].
    exists ((d + (if b then 1 else 0)) / 2)%R. split.
    - destruct b, r, s; simpl in Hd |- *; lra.
    - rewrite Hv, Hp, bpow_succ. rewrite plus_IZR, mult_IZR.
      destruct b; simpl; lra. }
  destruct m as [|[p|p|]|p]; try lia; cbn [shr_1].
  - apply (Hhalf false 0); lia.
  - apply (Hhalf true (Zpos p)); lia.
  - apply (Hhalf false (Zpos p)); lia.
  - apply (Hhalf true 0); lia.
Qed.

Lemma shr_1_m (mrs : shr_record) : 0 <= shr_m mrs -> shr_m (shr_1 mrs) = shr_m mrs / 2.
Proof.
  destruct mrs as [m r s]. cbn [shr_m]. intros Hm.
  destruct m as [|[p|p|]|p]; try lia; cbn [shr_1 shr_m].
  - reflexivity.
  - rewrite Pos2Z.inj_xI. apply Z.div_unique with 1; lia.
  - rewrite (Pos2Z.inj_xO p). apply Z.div_unique with 0; lia.
  - reflexivity.
Qed.

Lemma shr_iter_represents (v : R) (k : nat) :
  forall (mrs : shr_record) (e : Z),
    represents v mrs e ->
    represents v (Nat.iter k shr_1 mrs) (e + Z.of_nat k)
    /\ shr_m (Nat.iter k shr_1 mrs) = shr_m mrs / 2 ^ Z.of_nat k.
Proof.
  induction k as [|k IH]; intros mrs e Hr.
  - simpl. rewrite Z.add_0_r, Z.div_1_r. auto.
  - destruct (IH mrs e Hr) as [Hk Hm].
    change (Nat.iter (S k) shr_1 mrs) with (shr_1 (Nat.iter k shr_1 mrs)). split.
    + replace (e + Z.of_nat (S k)) with (e + Z.of_nat k + 1) by lia.
      apply shr_1_represents. exact Hk.
    + rewrite shr_1_m by (apply Hk). rewrite Hm.
      rewrite Nat2Z.inj_succ, Z.pow_succ_r by lia.
      rewrite Z.div_div by (pose proof (Z.pow_pos_nonneg 2 (Z.of_nat k)); lia).
      f_equal. lia.
Qed.

(** [shr] by [n] bits. *)
Lemma shr_represents (v : R) (mrs : shr_record) (e n : Z) :
  represents v mrs e ->
  represents v (fst (shr mrs e n)) (snd (shr mrs e n))
  /\ snd (shr mrs e n) = e + Z.max n 0
  /\ shr_m (fst (shr mrs e n)) = shr_m mrs / 2 ^ Z.max n 0.
Proof.
  intros Hr. destruct n as [|p|p]; cbn [shr fst snd].
  - rewrite Z.add_0_r, Z.div_1_r. auto.
  - rewrite iter_pos_nat.
    destruct (shr_iter_represents v (Pos.to_nat p) mrs e Hr) as [H1 H2].
    rewrite positive_nat_Z in H1, H2.
    replace (Z.max (Zpos p) 0) with (Zpos p) by lia. auto.
  - replace (Z.max (Zneg p) 0) with 0 by lia. rewrite Z.add_0_r, Z.div_1_r. auto.
Qed.

(** Rounding to nearest, ties to even: at most half a unit away. *)
Lemma round_nearest_even_spec (v : R) (mrs : shr_record) (e : Z) :
  represents v mrs e ->
  let n := round_nearest_even (shr_m mrs) (loc_of_shr_record mrs) in
  (n = shr_m mrs \/ n = shr_m mrs + 1)
  /\ (Rabs (IZR n * bpow e - v) <= bpow e / 2)%R.
Proof.
  destruct mrs as [m r s]. intros [Hm (d & Hd & Hv)] n.
  cbn [shr_m shr_r shr_s] in *. pose proof (bpow_pos e) as Hb.
  assert (Hcase : forall k : Z,
             (Rabs (IZR k - (IZR m + d)) <= 1 / 2)%R ->
             (Rabs (IZR k * bpow e - v) <= bpow e / 2)%R).
  { intros k Hk. rewrite Hv.
    replace (IZR k * bpow e - (IZR m + d) * bpow e)%R
      with ((IZR k - (IZR m + d)) * bpow e)%R by ring.
    rewrite Rabs_mult, (Rabs_pos_eq (bpow e)) by lra.
    apply Rmult_le_compat_r with (r := bpow e) in Hk; lra. }
  unfold n. destruct r, s; cbn [loc_of_shr_record round_nearest_even]; simpl in Hd.
  - split; [right; reflexivity|]. apply Hcase. rewrite plus_IZR.
    apply Rabs_le. lra.
  - destruct (Z.even m).
    + split; [left; reflexivity|]. apply Hcase. apply Rabs_le. lra.
    + split; [right; reflexivity|]. apply Hcase. rewrite plus_IZR. apply Rabs_le. lra.
  - split; [left; reflexivity|]. apply Hcase. apply Rabs_le. lra.
  - split; [left; reflexivity|]. apply Hcase. apply Rabs_le. lra.
Qed.

(* ===================================================================== *)
(** * Binary32: the error of one rounding                               *)
(* ===================================================================== *)

Lemma Zdigits2_bounds (m : Z) :
  0 < m -> 2 ^ (Zdigits2 m - 1) <= m < 2 ^ Zdigits2 m /\ 1 <= Zdigits2 m.
Proof.
  destruct m as [|p|p]; try lia. intros _. cbn [Zdigits2].
  split; [apply digits2_pos_bounds | lia].
Qed.

Lemma Zdigits2_unique (m d : Z) : 2 ^ (d - 1) <= m < 2 ^ d -> 0 < m -> Zdigits2 m = d.
Proof.
  destruct m as [|p|p]; try lia. intros H _. cbn [Zdigits2].
  apply digits2_pos_unique. exact H.
Qed.

Lemma represents_lower (v : R) (mrs : shr_record) (e : Z) :
  represents v mrs e -> (IZR (shr_m mrs) * bpow e <= v)%R.
Proof.
  intros [_ (d & Hd & ->)]. pose proof (bpow_pos e).
  assert (0 <= d)%R by (destruct (shr_r mrs), (shr_s mrs); simpl in Hd; lra).
  nra.
Qed.

Lemma Rabs_sign_factor (s : bool) : Rabs (sign_factor s) = 1%R.
Proof.
  destruct s; unfold sign_factor; [rewrite Rabs_left by lra | rewrite Rabs_pos_eq by lra]; lra.
Qed.

Lemma shr_record_of_loc_m (m : Z) (l : location) : shr_m (shr_record_of_loc m l) = m.
Proof. destruct l as [|[| |]]; reflexivity. Qed.

(** The float that [binary_round_aux] builds from a rounded mantissa. *)
Lemma round_aux_finish (s : bool) (n e1 : Z) :
  -149 <= e1 <= 103 -> 0 <= n <= 2 ^ 24 ->
  (-149 < e1 -> 2 ^ 23 <= n) ->
  let '(mrs, e2) := shr_fexp F32.prec F32.emax n e1 loc_Exact in
  let r := match shr_m mrs with
           | Z0 => S754_zero s
           | Zpos m => if e2 <=? F32.emax - F32.prec then S754_finite s m e2
                       else S754_infinity s
           | Zneg _ => S754_nan
           end in
  f32_finite r /\ f32_value r = (sign_factor s * IZR n * bpow e1)%R.
Proof.
  intros He1 Hn Hnorm. unfold shr_fexp. rewrite f32_fexp.
  change (F32.emax - F32.prec) with 104.
  destruct (Z.eq_dec n 0) as [->|Hn0].
  { cbn [Zdigits2 shr_record_of_loc].
    replace (Z.max (0 + e1 - 24) (-149) - e1) with (- (e1 + 149)) by lia.
    assert (Hshr : shr (Build_shr_record 0 false false) e1 (- (e1 + 149))
                   = (Build_shr_record 0 false false, e1)).
    { destruct (- (e1 + 149)) as [|p|p] eqn:Hk; try reflexivity. lia. }
    rewrite Hshr. cbn [shr_m]. split; [split; reflexivity|]. simpl. lra. }
  destruct (Z.eq_dec n (2 ^ 24)) as [->|Hn24].
  { change (Zdigits2 (2 ^ 24)) with 25.
    replace (Z.max (25 + e1 - 24) (-149) - e1) with 1 by lia.
    cbn [shr_record_of_loc shr SpecFloat.iter_pos].
    change (shr_1 (Build_shr_record (2 ^ 24) false false))
      with (Build_shr_record 8388608 false false).
    cbn [shr_m]. replace (e1 + 1 <=? 104) with true by (symmetry; apply Z.leb_le; lia).
    split.
    - split; [reflexivity|]. unfold F32.valid. cbn [valid_binary]. unfold bounded.
      apply andb_true_iff. split.
      + apply canonical_intro. change (Zpos (digits2_pos 8388608)) with 24. lia.
      + apply Z.leb_le. change (F32.emax - F32.prec) with 104. lia.
    - cbn [f32_value]. rewrite bpow_succ. change (IZR (2 ^ 24)) with 16777216%R.
      change (IZR (Zpos 8388608)) with 8388608%R. lra. }
  assert (Hpos : 0 < n) by lia.
  destruct (Zdigits2_bounds n Hpos) as [[Hlo Hhi] Hd1].
  assert (Hd24 : Zdigits2 n <= 24).
  { destruct (Z_le_gt_dec (Zdigits2 n) 24) as [|Hgt]; [assumption|].
    assert (2 ^ 24 <= 2 ^ (Zdigits2 n - 1)) by (apply Z.pow_le_mono_r; lia). lia. }
  assert (Hcan : Z.max (Zdigits2 n + e1 - 24) (-149) = e1).
  { destruct (Z.eq_dec e1 (-149)) as [->|Hne]; [lia|].
    assert (Hn23 : 2 ^ 23 <= n) by (apply Hnorm; lia).
    assert (24 <= Zdigits2 n).
    { destruct (Z_le_gt_dec 24 (Zdigits2 n)) as [|Hgt]; [assumption|].
      assert (2 ^ Zdigits2 n <= 2 ^ 23) by (apply Z.pow_le_mono_r; lia). lia. }
    lia. }
  rewrite Hcan, Z.sub_diag. cbn [shr shr_record_of_loc shr_m].
  destruct n as [|p|p]; try lia.
  replace (e1 <=? 104) with true by (symmetry; apply Z.leb_le; lia).
  split.
  - split; [reflexivity|]. unfold F32.valid. cbn [valid_binary]. unfold bounded.
    apply andb_true_iff. split.
    + apply canonical_intro. exact Hcan.
    + apply Z.leb_le. change (F32.emax - F32.prec) with 104. lia.
  - reflexivity.
Qed.

(** [binary_round_aux] rounds to nearest: for a number below 2^127 given
    with enough bits, the result is a well-formed finite float at most half
    a unit of its last place away. *)
Lemma round_aux_spec (s : bool) (m : Z) (loc : location) (e : Z) (v : R) :
  represents v (shr_record_of_loc m loc) e ->
  e <= fexp F32.prec F32.emax (Zdigits2 m + e) ->
  (v < bpow 127)%R ->
  let r := binary_round_aux F32.prec F32.emax s m e loc in
  f32_finite r
  /\ (Rabs (f32_value r - sign_factor s * v) <= v / 16777216 + bpow (-150))%R.
Proof.
  intros Hrep Hexp Hv r.
  pose proof Hrep as [Hm0 _]. rewrite shr_record_of_loc_m in Hm0.
  pose proof (represents_lower _ _ _ Hrep) as Hlow. rewrite shr_record_of_loc_m in Hlow.
  rewrite f32_fexp in Hexp.
  set (e1 := Z.max (Zdigits2 m + e - 24) (-149)) in *.
  assert (Hv0 : (0 <= v)%R).
  { pose proof (bpow_pos e). assert (0 <= IZR m)%R by (apply IZR_le; lia). nra. }
  (* the first shift *)
  destruct (shr_represents v (shr_record_of_loc m loc) e (e1 - e) Hrep)
    as (Hrep1 & He1 & Hm1).
  rewrite shr_record_of_loc_m in Hm1.
  replace (e + Z.max (e1 - e) 0) with e1 in He1 by lia.
  replace (Z.max (e1 - e) 0) with (e1 - e) in Hm1 by lia.
  (* the size of the shifted mantissa *)
  assert (Hpow : 0 < 2 ^ (e1 - e)) by (apply Z.pow_pos_nonneg; lia).
  assert (Hsize : 0 <= m / 2 ^ (e1 - e) < 2 ^ 24
                  /\ (-149 < e1 -> 2 ^ 23 <= m / 2 ^ (e1 - e))
                  /\ e1 <= 103).
  { destruct (Z.eq_dec m 0) as [->|Hne].
    - cbn [Zdigits2] in e1. rewrite Z.div_0_l by lia. unfold e1 in *. lia.
    - assert (Hpos : 0 < m) by lia.
      destruct (Zdigits2_bounds m Hpos) as [[Hlo Hhi] Hd1].
      set (d := Zdigits2 m) in *.
      assert (Hd127 : d + e <= 127).
      { destruct (Z_le_gt_dec (d + e) 127) as [|Hgt]; [assumption|]. exfalso.
        assert (Hb : (bpow 127 <= IZR m * bpow e)%R).
        { apply Rle_trans with (IZR (2 ^ (d - 1)) * bpow e)%R.
          - rewrite <- bpow_IZR by lia. rewrite <- bpow_add. apply bpow_le. lia.
          - apply Rmult_le_compat_r; [apply Rlt_le, bpow_pos | apply IZR_le; lia]. }
        lra. }
      split; [|split; [|unfold e1; lia]].
      + split; [apply Z.div_pos; lia|].
        apply Z.div_lt_upper_bound; [lia|].
        rewrite <- Z.pow_add_r by lia.
        assert (2 ^ d <= 2 ^ (e1 - e + 24)) by (apply Z.pow_le_mono_r; unfold e1; lia).
        lia.
      + intros Hn. assert (He : e1 - e = d - 24) by (unfold e1 in *; lia).
        rewrite He. apply Z.div_le_lower_bound; [apply Z.pow_pos_nonneg; lia|].
        rewrite <- Z.pow_add_r by lia. replace (d - 24 + 23) with (d - 1) by lia.
        exact Hlo. }
  destruct Hsize as (Hm1r & Hnorm1 & He103).
  (* rounding *)
  pose proof (round_nearest_even_spec v _ _ Hrep1) as Hround. cbv zeta in Hround.
  rewrite He1 in Hround. rewrite Hm1 in Hround.
  set (n := round_nearest_even (m / 2 ^ (e1 - e))
              (loc_of_shr_record (fst (shr (shr_record_of_loc m loc) e (e1 - e))))) in *.
  destruct Hround as [Hn Herr].
  assert (Hfin := round_aux_finish s n e1 ltac:(unfold e1; lia) ltac:(lia) ltac:(lia)).
  (* the result *)
  assert (Hr : r = let '(mrs, e2) := shr_fexp F32.prec F32.emax n e1 loc_Exact in
                   match shr_m mrs with
                   | Z0 => S754_zero s
                   | Zpos m0 => if e2 <=? F32.emax - F32.prec then S754_finite s m0 e2
                                else S754_infinity s
                   | Zneg _ => S754_nan
                   end).
  { unfold r, binary_round_aux, shr_fexp at 1. rewrite f32_fexp. fold e1.
    destruct (shr (shr_record_of_loc m loc) e (e1 - e)) as [mrs1 e'] eqn:Hs.
    cbn [fst snd] in *. subst e'. unfold n. rewrite <- Hm1. reflexivity. }
  rewrite Hr. destruct (shr_fexp F32.prec F32.emax n e1 loc_Exact) as [mrs2 e2].
  destruct Hfin as [Hf Hval]. split; [exact Hf|]. rewrite Hval.
  replace (sign_factor s * IZR n * bpow e1 - sign_factor s * v)%R
    with (sign_factor s * (IZR n * bpow e1 - v))%R by ring.
  rewrite Rabs_mult.
  rewrite Rabs_sign_factor, Rmult_1_l. eapply Rle_trans; [exact Herr|].
  (* half a unit against the size of [v] *)
  destruct (Z.eq_dec e1 (-149)) as [Heq|Hne].
  - rewrite Heq. replace (-150) with (-149 + -1) by lia. rewrite bpow_add.
    replace (bpow (-1)) with (/ 2)%R by (unfold bpow; simpl; lra).
    pose proof (bpow_pos (-149)). lra.
  - assert (Hpos : 0 < m) by (destruct (Z.eq_dec m 0) as [->|]; [cbn [Zdigits2] in e1; unfold e1 in *; lia | lia]).
    destruct (Zdigits2_bounds m Hpos) as [[Hlo Hhi] Hd1].
    assert (He : e1 = Zdigits2 m - 1 + e + -23) by (unfold e1 in *; lia).
    assert (Hb : (bpow (Zdigits2 m - 1 + e) <= v)%R).
    { eapply Rle_trans; [|exact Hlow]. rewrite bpow_add, (bpow_IZR (Zdigits2 m - 1)) by lia.
      apply Rmult_le_compat_r; [apply Rlt_le, bpow_pos | apply IZR_le; lia]. }
    rewrite He, (bpow_add (Zdigits2 m - 1 + e) (-23)).
    replace (bpow (-23)) with (/ 8388608)%R by (unfold bpow; simpl; lra).
    pose proof (bpow_pos (-150)).
    pose proof (bpow_pos (Zdigits2 m - 1 + e)). lra.
Qed.

(* ===================================================================== *)
(** * Binary32: the error of the four operations                        *)
(* ===================================================================== *)

Lemma sign_factor_xorb (a b : bool) :
  sign_factor (xorb a b) = (sign_factor a * sign_factor b)%R.
Proof. destruct a, b; simpl; lra. Qed.

Lemma f32_finite_inv (s : bool) (m : positive) (e : Z) :
  f32_finite (S754_finite s m e) ->
  Z.max (Zpos (digits2_pos m) + e - 24) (-149) = e /\ e <= 104.
Proof. intros [_ Hv]. apply bounded_inv. exact Hv. Qed.

Lemma f32_finite_zero (s : bool) : f32_finite (S754_zero s).
Proof. split; reflexivity. Qed.

Lemma rounds_to_exact (r : F32.f32) : f32_finite r -> rounds_to r (f32_value r).
Proof.
  intros H. split; [exact H|]. rewrite Rminus_diag, Rabs_R0.
  pose proof (Rabs_pos (f32_value r)). pose proof (bpow_pos (-150)). lra.
Qed.

Lemma rounds_to_eq (r : F32.f32) (v w : R) : v = w -> rounds_to r v -> rounds_to r w.
Proof. intros ->. auto. Qed.

(** From [round_aux_spec] to [rounds_to], with the sign. *)
Lemma round_aux_rounds (s : bool) (m : Z) (loc : location) (e : Z) (v : R) :
  represents v (shr_record_of_loc m loc) e ->
  e <= fexp F32.prec F32.emax (Zdigits2 m + e) ->
  (v < bpow 127)%R ->
  rounds_to (binary_round_aux F32.prec F32.emax s m e loc) (sign_factor s * v).
Proof.
  intros Hrep Hexp Hv.
  destruct (round_aux_spec s m loc e v Hrep Hexp Hv) as [Hf Herr].
  split; [exact Hf|].
  assert (Hv0 : (0 <= v)%R).
  { pose proof (represents_lower _ _ _ Hrep) as Hlow.
    destruct Hrep as [Hm _]. pose proof (bpow_pos e).
    assert (0 <= IZR (shr_m (shr_record_of_loc m loc)))%R by (apply IZR_le; lia). nra. }
  rewrite Rabs_mult, Rabs_sign_factor, Rmult_1_l, (Rabs_pos_eq v) by exact Hv0.
  exact Herr.
Qed.

Lemma represents_exact (m e : Z) :
  0 <= m -> represents (IZR m * bpow e) (shr_record_of_loc m loc_Exact) e.
Proof.
  intros Hm. split; [exact Hm|]. exists 0%R. split; [reflexivity|].
  cbn [shr_record_of_loc shr_m]. ring.
Qed.

(** ** Multiplication *)

Lemma f32_mul_spec (x y : F32.f32) :
  f32_finite x -> f32_finite y ->
  (Rabs (f32_value x * f32_value y) < bpow 127)%R ->
  rounds_to (SFmul F32.prec F32.emax x y) (f32_value x * f32_value y).
Proof.
  intros Hx Hy Hb.
  destruct x as [sx|sx| |sx mx ex]; try (destruct Hx as [Hx _]; discriminate);
    destruct y as [sy|sy| |sy my ey]; try (destruct Hy as [Hy _]; discriminate);
    cbn [SFmul].
  - apply (rounds_to_eq _ 0%R); [simpl; ring|]. apply (rounds_to_exact (S754_zero _)), f32_finite_zero.
  - apply (rounds_to_eq _ 0%R); [simpl; ring|]. apply (rounds_to_exact (S754_zero _)), f32_finite_zero.
  - apply (rounds_to_eq _ 0%R); [simpl; ring|]. apply (rounds_to_exact (S754_zero _)), f32_finite_zero.
  - destruct (f32_finite_inv _ _ _ Hx) as [Hcx Hex].
    destruct (f32_finite_inv _ _ _ Hy) as [Hcy Hey].
    pose proof (digits2_pos_bounds mx) as Hdx. pose proof (digits2_pos_bounds my) as Hdy.
    set (dx := Zpos (digits2_pos mx)) in *. set (dy := Zpos (digits2_pos my)) in *.
    assert (Hdx1 : 1 <= dx) by (unfold dx; lia).
    assert (Hdy1 : 1 <= dy) by (unfold dy; lia).
    assert (Hval : (f32_value (S754_finite sx mx ex) * f32_value (S754_finite sy my ey)
                    = sign_factor (xorb sx sy)
                      * (IZR (Zpos (mx * my)) * bpow (ex + ey)))%R).
    { cbn [f32_value]. rewrite sign_factor_xorb, Pos2Z.inj_mul, mult_IZR, bpow_add. ring. }
    rewrite Hval in *. apply round_aux_rounds.
    + apply represents_exact. lia.
    + rewrite f32_fexp. cbn [Zdigits2].
      pose proof (digits2_pos_bounds (mx * my)) as Hd.
      set (D := Zpos (digits2_pos (mx * my))) in *.
      assert (HD : dx + dy - 1 <= D).
      { destruct (Z_le_gt_dec (dx + dy - 1) D) as [|Hgt]; [assumption|]. exfalso.
        assert (H1 : 2 ^ (dx - 1) * 2 ^ (dy - 1) <= Zpos mx * Zpos my) by nia.
        rewrite <- Z.pow_add_r in H1 by lia.
        assert (H2 : 2 ^ D <= 2 ^ (dx - 1 + (dy - 1))) by (apply Z.pow_le_mono_r; lia).
        rewrite Pos2Z.inj_mul in Hd. lia. }
      lia.
    + rewrite Rabs_mult, Rabs_sign_factor, Rmult_1_l in Hb.
      rewrite Rabs_pos_eq in Hb; [exact Hb|].
      pose proof (bpow_pos (ex + ey)).
      assert (0 <= IZR (Zpos (mx * my)))%R by (apply IZR_le; lia). nra.
Qed.

(** ** Addition and subtraction *)

Lemma shl_align_spec (mx : positive) (ex ex' : Z) :
  snd (shl_align mx ex ex') = Z.min ex ex'
  /\ Zpos (fst (shl_align mx ex ex')) = Zpos mx * 2 ^ (ex - Z.min ex ex').
Proof.
  unfold shl_align. destruct (ex' - ex) as [|d|d] eqn:Hd; cbn [fst snd].
  - replace (Z.min ex ex') with ex by lia. rewrite Z.sub_diag. lia.
  - replace (Z.min ex ex') with ex by lia. rewrite Z.sub_diag. lia.
  - replace (Z.min ex ex') with ex' by lia. split; [reflexivity|].
    rewrite pos_iter_xO. f_equal. f_equal. lia.
Qed.

Lemma binary_round_rounds (s : bool) (m : positive) (e : Z) :
  (IZR (Zpos m) * bpow e < bpow 127)%R ->
  rounds_to (binary_round F32.prec F32.emax s m e)
            (sign_factor s * (IZR (Zpos m) * bpow e)).
Proof.
  intros Hb. unfold binary_round. rewrite f32_fexp.
  set (f := Z.max (Zpos (digits2_pos m) + e - 24) (-149)).
  destruct (shl_align_spec m e f) as [He Hm].
  destruct (shl_align m e f) as [mz ez]. cbn [fst snd] in *.
  assert (Hval : (IZR (Zpos m) * bpow e = IZR (Zpos mz) * bpow ez)%R).
  { rewrite Hm, mult_IZR, <- bpow_IZR by lia.
    rewrite Rmult_assoc, <- bpow_add. do 2 f_equal. lia. }
  rewrite Hval in *. apply round_aux_rounds.
  - apply represents_exact. lia.
  - rewrite f32_fexp. cbn [Zdigits2].
    rewrite (digits2_shift m (e - Z.min e f) mz) by (try exact Hm; lia).
    fold f. lia.
  - exact Hb.
Qed.

Lemma binary_normalize_rounds (S e : Z) :
  (Rabs (IZR S * bpow e) < bpow 127)%R ->
  rounds_to (binary_normalize F32.prec F32.emax S e false) (IZR S * bpow e).
Proof.
  intros Hb. pose proof (bpow_pos e) as Hp.
  destruct S as [|p|p]; cbn [binary_normalize].
  - apply (rounds_to_eq _ 0%R); [ring|].
    apply (rounds_to_exact (S754_zero false)), f32_finite_zero.
  - apply (rounds_to_eq _ (sign_factor false * (IZR (Zpos p) * bpow e))%R);
      [simpl; ring|].
    apply binary_round_rounds. rewrite Rabs_pos_eq in Hb; [exact Hb|].
    assert (0 <= IZR (Zpos p))%R by (apply IZR_le; lia). nra.
  - apply (rounds_to_eq _ (sign_factor true * (IZR (Zpos p) * bpow e))%R).
    { change (Zneg p) with (- Zpos p). rewrite opp_IZR. simpl. ring. }
    apply binary_round_rounds.
    change (Zneg p) with (- Zpos p) in Hb. rewrite opp_IZR in Hb.
    replace (- IZR (Zpos p) * bpow e)%R with (- (IZR (Zpos p) * bpow e))%R in Hb by ring.
    rewrite Rabs_Ropp, Rabs_pos_eq in Hb; [exact Hb|].
    assert (0 <= IZR (Zpos p))%R by (apply IZR_le; lia). nra.
Qed.

Lemma aligned_value (s : bool) (m : positive) (e ez : Z) :
  ez <= e ->
  (IZR (cond_Zopp s (Zpos (fst (shl_align m e ez)))) * bpow ez
   = f32_value (S754_finite s m e))%R.
Proof.
  intros Hle. destruct (shl_align_spec m e ez) as [_ Hm].
  replace (Z.min e ez) with ez in Hm by lia.
  assert (Hv : (IZR (Zpos (fst (shl_align m e ez))) * bpow ez
                = IZR (Zpos m) * bpow e)%R).
  { rewrite Hm, mult_IZR, <- bpow_IZR by lia.
    rewrite Rmult_assoc, <- bpow_add. do 2 f_equal. lia. }
  cbn [f32_value]. destruct s; cbn [cond_Zopp sign_factor].
  - rewrite opp_IZR. lra.
  - lra.
Qed.

Lemma f32_add_spec (x y : F32.f32) :
  f32_finite x -> f32_finite y ->
  (Rabs (f32_value x + f32_value y) < bpow 127)%R ->
  rounds_to (SFadd F32.prec F32.emax x y) (f32_value x + f32_value y).
Proof.
  intros Hx Hy Hb.
  destruct x as [sx|sx| |sx mx ex]; try (destruct Hx as [Hx _]; discriminate);
    destruct y as [sy|sy| |sy my ey]; try (destruct Hy as [Hy _]; discriminate);
    cbn [SFadd].
  - apply (rounds_to_eq _ 0%R); [simpl; ring|].
    destruct sx, sy; apply (rounds_to_exact (S754_zero _)), f32_finite_zero.
  - apply (rounds_to_eq _ (f32_value (S754_finite sy my ey))); [simpl; ring|].
    apply rounds_to_exact. exact Hy.
  - apply (rounds_to_eq _ (f32_value (S754_finite sx mx ex))); [simpl; ring|].
    apply rounds_to_exact. exact Hx.
  - rewrite <- (aligned_value sx mx ex (Z.min ex ey)) in * by lia.
    rewrite <- (aligned_value sy my ey (Z.min ex ey)) in * by lia.
    rewrite <- Rmult_plus_distr_r, <- plus_IZR in *.
    apply binary_normalize_rounds. exact Hb.
Qed.

Lemma f32_sub_spec (x y : F32.f32) :
  f32_finite x -> f32_finite y ->
  (Rabs (f32_value x - f32_value y) < bpow 127)%R ->
  rounds_to (SFsub F32.prec F32.emax x y) (f32_value x - f32_value y).
Proof.
  intros Hx Hy Hb.
  destruct x as [sx|sx| |sx mx ex]; try (destruct Hx as [Hx _]; discriminate);
    destruct y as [sy|sy| |sy my ey]; try (destruct Hy as [Hy _]; discriminate);
    cbn [SFsub].
  - apply (rounds_to_eq _ 0%R); [simpl; ring|].
    destruct sx, sy; apply (rounds_to_exact (S754_zero _)), f32_finite_zero.
  - apply (rounds_to_eq _ (f32_value (S754_finite (negb sy) my ey))).
    { cbn [f32_value]. destruct sy; simpl; ring. }
    apply rounds_to_exact. destruct Hy as [Hf Hv]. split; [reflexivity | exact Hv].
  - apply (rounds_to_eq _ (f32_value (S754_finite sx mx ex))); [simpl; ring|].
    apply rounds_to_exact. exact Hx.
  - rewrite <- (aligned_value sx mx ex (Z.min ex ey)) in * by lia.
    rewrite <- (aligned_value sy my ey (Z.min ex ey)) in * by lia.
    rewrite <- Rmult_minus_distr_r, <- minus_IZR in *.
    apply binary_normalize_rounds. exact Hb.
Qed.

(** ** Division *)

(** The location that [new_location] gives to a remainder. *)
Lemma new_location_located (nb k : Z) :
  0 < nb -> 0 <= k < nb ->
  represents ((IZR k / IZR nb))%R
             (shr_record_of_loc 0 (new_location nb k)) 0.
Proof.
  intros Hnb Hk. split; [rewrite shr_record_of_loc_m; lia|].
  exists (IZR k / IZR nb)%R.
  assert (Hnbr : (0 < IZR nb)%R) by (apply IZR_lt; lia).
  assert (Hkr : (0 <= IZR k < IZR nb)%R) by (split; [apply IZR_le | apply IZR_lt]; lia).
  split.
  2:{ rewrite shr_record_of_loc_m, bpow_0. simpl. ring. }
  assert (Hfrac : forall c : comparison,
             k <> 0 -> (c = Lt -> 2 * k < nb) -> (c = Eq -> 2 * k = nb) ->
             (c = Gt -> nb < 2 * k) ->
             located (IZR k / IZR nb)
                     (shr_r (shr_record_of_loc 0 (loc_Inexact c)))
                     (shr_s (shr_record_of_loc 0 (loc_Inexact c)))).
  { intros c Hk0 HLt HEq HGt.
    assert (0 < IZR k)%R by (apply IZR_lt; lia).
    destruct c; simpl.
    - specialize (HEq eq_refl). apply (f_equal IZR) in HEq. rewrite mult_IZR in HEq.
      field_simplify_eq; lra.
    - specialize (HLt eq_refl). apply IZR_lt in HLt. rewrite mult_IZR in HLt.
      split; [apply Rdiv_lt_0_compat; lra|].
      apply Rmult_lt_reg_r with (IZR nb); [lra|]. field_simplify; lra.
    - specialize (HGt eq_refl). apply IZR_lt in HGt. rewrite mult_IZR in HGt.
      split.
      + apply Rmult_lt_reg_r with (IZR nb); [lra|]. field_simplify; lra.
      + apply Rmult_lt_reg_r with (IZR nb); [lra|]. field_simplify; lra. }
  unfold new_location.
  destruct (Z.even nb) eqn:Hev.
  - unfold new_location_even. destruct (Z.eqb_spec k 0) as [->|Hk0].
    + simpl. unfold Rdiv. ring.
    + destruct (Z.compare_spec (2 * k) nb) as [Hc|Hc|Hc];
        (apply Hfrac; [exact Hk0| | |]; intros [=]; lia).
  - unfold new_location_odd. destruct (Z.eqb_spec k 0) as [->|Hk0].
    + simpl. unfold Rdiv. ring.
    + assert (Hodd : Z.odd nb = true) by (rewrite <- Z.negb_even, Hev; reflexivity).
      apply Z.odd_spec in Hodd. destruct Hodd as [h Hh].
      destruct (Z.compare_spec (2 * k + 1) nb) as [Hc|Hc|Hc];
        (apply Hfrac; [exact Hk0| | |]; intros [=]; lia).
Qed.

(** The quotient that [SFdiv_core_binary] hands to the rounding stands for
    the exact quotient, and holds enough bits. *)
Lemma div_core_spec (mx my : positive) (ex ey : Z) :
  let '(q, e', loc) := SFdiv_core_binary F32.prec F32.emax (Zpos mx) ex (Zpos my) ey in
  represents (IZR (Zpos mx) * bpow ex / (IZR (Zpos my) * bpow ey))
             (shr_record_of_loc q loc) e'
  /\ e' <= fexp F32.prec F32.emax (Zdigits2 q + e').
Proof.
  unfold SFdiv_core_binary. rewrite !f32_fexp. cbn [Zdigits2].
  pose proof (digits2_pos_bounds mx) as Hdx. pose proof (digits2_pos_bounds my) as Hdy.
  set (dx := Zpos (digits2_pos mx)) in *. set (dy := Zpos (digits2_pos my)) in *.
  assert (Hdx1 : 1 <= dx) by (unfold dx; lia).
  assert (Hdy1 : 1 <= dy) by (unfold dy; lia).
  set (e' := Z.min (Z.max (dx + ex - (dy + ey) - 24) (-149)) (ex - ey)).
  set (s := ex - ey - e').
  assert (Hs : 0 <= s) by (unfold s, e'; lia).
  assert (Hm' : match s with
                | 0 => Zpos mx
                | Zpos _ => Z.shiftl (Zpos mx) s
                | Zneg _ => 0
                end = Zpos mx * 2 ^ s).
  { destruct s as [|p|p] eqn:Hp; try lia.
    - rewrite Z.shiftl_mul_pow2 by lia. reflexivity. }
  rewrite Hm'. clear Hm'.
  assert (Hpow : 0 < 2 ^ s) by (apply Z.pow_pos_nonneg; lia).
  pose proof (Z.div_eucl_eq (Zpos mx * 2 ^ s) (Zpos my) ltac:(lia)) as Heq.
  pose proof (Z.mod_pos_bound (Zpos mx * 2 ^ s) (Zpos my) ltac:(lia)) as Hmod.
  unfold Z.modulo in Hmod.
  destruct (Z.div_eucl (Zpos mx * 2 ^ s) (Zpos my)) as [q r] eqn:Hqr.
  assert (Hq0 : 0 <= q) by nia.
  split.
  - (* the number *)
    destruct (new_location_located (Zpos my) r ltac:(lia) Hmod) as [_ (d & Hd & Hdv)].
    rewrite bpow_0, shr_record_of_loc_m in Hdv.
    split; [rewrite shr_record_of_loc_m; exact Hq0|].
    exists d. split.
    + destruct (new_location (Zpos my) r) as [|[| |]]; exact Hd.
    + rewrite shr_record_of_loc_m.
      assert (Hy : (0 < IZR (Zpos my))%R) by (apply IZR_lt; lia).
      assert (Hd' : d = (IZR r / IZR (Zpos my))%R) by (simpl in Hdv; lra).
      assert (Hex : bpow ex = (bpow s * bpow e' * bpow ey)%R).
      { rewrite <- !bpow_add. f_equal. unfold s. lia. }
      apply (f_equal IZR) in Heq. rewrite plus_IZR, !mult_IZR, <- bpow_IZR in Heq by lia.
      rewrite Hd', Hex. pose proof (bpow_pos ey). pose proof (bpow_pos e').
      field_simplify_eq; [|lra]. nra.
  - (* enough bits *)
    assert (Hdq : dx + s - dy <= Zdigits2 q).
    { destruct (Z_le_gt_dec (dx + s - dy) 0) as [Hle|Hgt].
      - destruct q as [|p|p]; cbn [Zdigits2]; lia.
      - assert (Hlow : 2 ^ (dx + s - dy - 1) <= q).
        { assert (H1 : 2 ^ (dx - 1) * 2 ^ s <= Zpos mx * 2 ^ s) by nia.
          rewrite <- Z.pow_add_r in H1 by lia.
          assert (H2 : 2 ^ (dx - 1 + s) = 2 ^ (dx + s - dy - 1) * 2 ^ dy).
          { rewrite <- Z.pow_add_r by lia. f_equal. lia. }
          assert (H3 : 0 < 2 ^ (dx + s - dy - 1)) by (apply Z.pow_pos_nonneg; lia).
          destruct (Z_le_gt_dec (2 ^ (dx + s - dy - 1)) q) as [|Hlt]; [assumption|].
          exfalso. assert (q + 1 <= 2 ^ (dx + s - dy - 1)) by lia. nia. }
        assert (Hqpos : 0 < q) by (pose proof (Z.pow_pos_nonneg 2 (dx + s - dy - 1)); lia).
        destruct (Zdigits2_bounds q Hqpos) as [[_ Hhi] _].
        destruct (Z_le_gt_dec (dx + s - dy) (Zdigits2 q)) as [|Hgt']; [assumption|].
        exfalso.
        assert (2 ^ Zdigits2 q <= 2 ^ (dx + s - dy - 1)) by (apply Z.pow_le_mono_r; lia).
        lia. }
    rewrite f32_fexp. unfold s in Hdq. unfold e' in *. lia.
Qed.

Lemma f32_div_spec (x y : F32.f32) :
  f32_finite x -> f32_finite y -> f32_value y <> 0%R ->
  (Rabs (f32_value x / f32_value y) < bpow 127)%R ->
  rounds_to (SFdiv F32.prec F32.emax x y) (f32_value x / f32_value y).
Proof.
  intros Hx Hy Hy0 Hb.
  destruct y as [sy|sy| |sy my ey]; try (destruct Hy as [Hy _]; discriminate);
    [exfalso; apply Hy0; reflexivity|].
  destruct x as [sx|sx| |sx mx ex]; try (destruct Hx as [Hx _]; discriminate);
    cbn [SFdiv].
  - apply (rounds_to_eq _ 0%R); [simpl; unfold Rdiv; ring|].
    apply (rounds_to_exact (S754_zero _)), f32_finite_zero.
  - pose proof (div_core_spec mx my ex ey) as Hcore.
    destruct (SFdiv_core_binary F32.prec F32.emax (Zpos mx) ex (Zpos my) ey)
      as [[q e'] loc].
    destruct Hcore as [Hrep Hexp].
    assert (Hmy : (0 < IZR (Zpos my) * bpow ey)%R).
    { pose proof (bpow_pos ey). assert (0 < IZR (Zpos my))%R by (apply IZR_lt; lia). nra. }
    assert (Hval : (f32_value (S754_finite sx mx ex) / f32_value (S754_finite sy my ey)
                    = sign_factor (xorb sx sy)
                      * (IZR (Zpos mx) * bpow ex / (IZR (Zpos my) * bpow ey)))%R).
    { cbn [f32_value]. rewrite sign_factor_xorb.
      pose proof (bpow_pos ey).
      assert (0 < IZR (Zpos my))%R by (apply IZR_lt; lia).
      destruct sx, sy; unfold sign_factor; field; split; lra. }
    rewrite Hval in *. apply round_aux_rounds; [exact Hrep | exact Hexp |].
    rewrite Rabs_mult, Rabs_sign_factor, Rmult_1_l in Hb.
    rewrite Rabs_pos_eq in Hb; [exact Hb|].
    pose proof (bpow_pos ex). assert (0 <= IZR (Zpos mx))%R by (apply IZR_le; lia).
    apply Rmult_le_pos; [nra|]. apply Rlt_le, Rinv_0_lt_compat. exact Hmy.
Qed.

(* ===================================================================== *)
(** * Binary32: the round trip of the normalisation                     *)
(* ===================================================================== *)

Lemma bpow_127 : bpow 127 = 170141183460469231731687303715884105728%R.
Proof. rewrite bpow_IZR by lia. reflexivity. Qed.

Lemma bpow_m148 : bpow (-148) = (4 * bpow (-150))%R.
Proof.
  replace (-148) with (2 + -150) by lia. rewrite bpow_add.
  rewrite (bpow_IZR 2) by lia. reflexivity.
Qed.

Lemma Rabs_triangle3 (a b c : R) : (Rabs (a - c) <= Rabs (a - b) + Rabs (b - c))%R.
Proof.
  replace (a - c)%R with ((a - b) + (b - c))%R by ring. apply Rabs_triang.
Qed.

Lemma Rabs_bound_from (a b : R) : (Rabs a <= Rabs (a - b) + Rabs b)%R.
Proof.
  replace a with ((a - b) + b)%R at 1 by ring. apply Rabs_triang.
Qed.

(** The four roundings of [((x - mu) / sigma) * sigma + mu]. *)
Lemma f32_round_trip_chain (x mu sigma : F32.f32) :
  f32_finite x -> f32_finite mu -> f32_finite sigma ->
  (Rabs (f32_value x) <= 4611686018427387904)%R ->
  (Rabs (f32_value mu) <= 4611686018427387904)%R ->
  (/ 4611686018427387904 <= f32_value sigma <= 4611686018427387904)%R ->
  let y := SFadd F32.prec F32.emax
             (SFmul F32.prec F32.emax
                (SFdiv F32.prec F32.emax (SFsub F32.prec F32.emax x mu) sigma) sigma)
             mu in
  f32_finite y
  /\ (Rabs (f32_value y - f32_value x)
      <= (Rabs (f32_value x) + Rabs (f32_value mu)) / 2097152
         + (f32_value sigma + 1) * bpow (-148))%R.
Proof.
  intros Hx Hmu Hsigma HX HM HS y.
  pose proof bpow_127 as Hbig.
  pose proof (bpow_pos (-150)) as Heta.
  assert (Heta1 : (bpow (-150) <= 1)%R).
  { change 1%R with (bpow 0). apply bpow_le. lia. }
  set (X := f32_value x) in *. set (M := f32_value mu) in *.
  set (s := f32_value sigma) in *. set (eta := bpow (-150)) in *.
  pose proof (Rabs_pos X) as HX0. pose proof (Rabs_pos M) as HM0.
  assert (HA : (Rabs (X - M) <= Rabs X + Rabs M)%R).
  { unfold Rminus. eapply Rle_trans; [apply Rabs_triang|]. rewrite Rabs_Ropp. lra. }
  pose proof (Rabs_pos (X - M)) as HA0.
  (* the difference *)
  destruct (f32_sub_spec x mu Hx Hmu) as [Hd H1].
  { fold X M. lra. }
  fold X M eta in H1.
  set (d := SFsub F32.prec F32.emax x mu) in *. set (D := f32_value d) in *.
  assert (HD : (Rabs D <= Rabs (X - M) + (Rabs (X - M) / 16777216 + eta))%R).
  { pose proof (Rabs_bound_from D (X - M)). lra. }
  pose proof (Rabs_pos D) as HD0.
  (* the quotient *)
  assert (Hs0 : (0 < s)%R) by lra.
  assert (HDs : (Rabs (D / s) = Rabs D / s)%R).
  { unfold Rdiv. rewrite Rabs_mult, Rabs_inv, (Rabs_pos_eq s) by lra. reflexivity. }
  assert (HDs_le : (Rabs D / s <= Rabs D * 4611686018427387904)%R).
  { unfold Rdiv. apply Rmult_le_compat_l; [lra|].
    rewrite <- (Rinv_inv 4611686018427387904). apply Rinv_le_contravar; lra. }
  destruct (f32_div_spec d sigma Hd Hsigma) as [Hq H2].
  { fold s. lra. }
  { fold D s. rewrite HDs. lra. }
  fold D s eta in H2. rewrite HDs in H2.
  set (q := SFdiv F32.prec F32.emax d sigma) in *. set (Q := f32_value q) in *.
  assert (G2 : (Rabs (Q * s - D) <= Rabs D / 16777216 + eta * s)%R).
  { replace (Q * s - D)%R with ((Q - D / s) * s)%R by (field; lra).
    rewrite Rabs_mult, (Rabs_pos_eq s) by lra.
    apply Rmult_le_compat_r with (r := s) in H2; [|lra].
    replace ((Rabs D / s / 16777216 + eta) * s)%R
      with (Rabs D / 16777216 + eta * s)%R in H2 by (field; lra).
    exact H2. }
  assert (Hes : (eta * s <= eta * 4611686018427387904)%R)
    by (apply Rmult_le_compat_l; lra).
  assert (Hes0 : (0 <= eta * s)%R) by (apply Rmult_le_pos; lra).
  assert (HQs : (Rabs (Q * s) <= Rabs D + (Rabs D / 16777216 + eta * s))%R).
  { pose proof (Rabs_bound_from (Q * s) D). lra. }
  pose proof (Rabs_pos (Q * s)) as HQs0.
  (* the product *)
  destruct (f32_mul_spec q sigma Hq Hsigma) as [Hp H3].
  { fold Q s. lra. }
  fold Q s eta in H3.
  set (p := SFmul F32.prec F32.emax q sigma) in *. set (P := f32_value p) in *.
  assert (HPD : (Rabs (P - D)
                 <= (Rabs (Q * s) / 16777216 + eta) + (Rabs D / 16777216 + eta * s))%R).
  { pose proof (Rabs_triangle3 P (Q * s) D). lra. }
  assert (HPX : (Rabs (P + M - X) <= Rabs (P - D) + Rabs (D - (X - M)))%R).
  { replace (P + M - X)%R with ((P - D) + (D - (X - M)))%R by ring. apply Rabs_triang. }
  assert (HPM : (Rabs (P + M) <= Rabs (P + M - X) + Rabs X)%R)
    by apply Rabs_bound_from.
  pose proof (Rabs_pos (P - D)). pose proof (Rabs_pos (P + M - X)).
  (* the sum *)
  destruct (f32_add_spec p mu Hp Hmu) as [Hy H4].
  { fold P M. lra. }
  fold P M eta in H4. fold y in Hy, H4.
  split; [exact Hy|].
  pose proof (Rabs_triangle3 (f32_value y) (P + M) X) as H5.
  rewrite bpow_m148. fold eta.
  replace ((s + 1) * (4 * eta))%R with (4 * (eta * s) + 4 * eta)%R by ring.
  lra.
Qed.

Lemma combine_map_fst {X Y Z} (f : X -> Y) (l : list X) :
  forall l' : list Z,
    combine (map f l) l' = map (fun p => (f (fst p), snd p)) (combine l l').
Proof.
  induction l as [|x l IH]; intros [|y l']; simpl; try reflexivity.
  f_equal. apply IH.
Qed.

(** What a complete run of the loop body has read, computed and logged. *)
Lemma separate_track_log (A : arith) (E : env A) (a : args) (m : model A E)
    (out track : path) (s s' : state) :
  separate_track A E a m out track s = (Val tt, s') ->
  exists (n : node) (wav : tensor2 A) (sources : tensor3 A),
    node_at (fs s) track = Some n
    /\ audio_read A E n (device a) = inr wav
    /\ apply_model A E m (model_input A wav) (shifts a) (split a) = inr sources
    /\ log s' = log s ++
         Stdout ("Separating track " ++ path_str track)
         :: map (fun w => WavWritten (fst w) (snd w))
              (map (stem_write A E a (out /: track_folder_name track))
                 (combine (denormalize A (reference A wav) sources) source_names)).
Proof.
  unfold separate_track.
  intros H. apply bind_val_inv in H. destruct H as ([] & s0 & H0 & H).
  cbv [print emit] in H0. injection H0 as <-.
  apply bind_val_inv in H. destruct H as (s0' & s1 & H1 & H).
  cbv [get_state] in H1. injection H1 as <- <-.
  apply bind_val_inv in H. destruct H as (wav & s2 & H2 & H).
  simpl in H2.
  destruct (node_at (fs s) track) as [n|] eqn:Hn; [|discriminate].
  apply lift_val_inv in H2. destruct H2 as [Hread ->].
  apply bind_val_inv in H. destruct H as (sources & s3 & H3 & H).
  apply lift_val_inv in H3. destruct H3 as [Happly ->].
  apply bind_val_inv in H. destruct H as ([] & s4 & H4 & H).
  apply mkdir_fuel_val in H4. destruct H4 as [_ Hlog4].
  apply write_sources_val in H. destruct H as [_ Hlog].
  exists n, wav, sources. repeat (split; [first [reflexivity | assumption]|]).
  rewrite Hlog, Hlog4. cbn [log]. rewrite <- app_assoc. reflexivity.
Qed.

Lemma f32_value_neg_exp (s : bool) (m : positive) (e : Z) :
  e < 0 ->
  f32_value (S754_finite s m e) = (sign_factor s * IZR (Zpos m) / IZR (2 ^ (- e)))%R.
Proof.
  intros He. unfold f32_value.
  replace e with (- (- e)) at 1 by lia. rewrite bpow_opp, bpow_IZR by lia.
  unfold Rdiv. reflexivity.
Qed.

(** C8, as the code has it.  A run of [separate_track] on binary32 that
    returns has given the model the rounded waveform, each sample less the
    mean [mu] and divided by the deviation [sigma] of the reference of the
    track, and has written, for every source the model returned, the
    encoding of that source times the same [sigma] plus the same [mu]: no
    stem has statistics of its own.  When [mu] and [sigma] are finite, [mu]
    at most 2^62 in magnitude and [sigma] between 2^-62 and 2^62, the four
    roundings of [((x - mu) / sigma) * sigma + mu] bring every finite sample
    [x] of magnitude at most 2^62 back to a finite value that differs from
    [x] by at most [(|x| + |mu|) / 2^21 + (sigma + 1) / 2^148]. *)
Theorem denormalize_normalize_round_trip
    (E : env F32.ops) (a : args) (m : model F32.ops E) (out track : path)
    (s s' : state)
    (Hrun : separate_track F32.ops E a m out track s = (Val tt, s')) :
  exists (n : node) (raw : tensor2 F32.ops) (sources : tensor3 F32.ops),
    node_at (fs s) track = Some n
    /\ audio_read F32.ops E n (device a) = inr raw
    /\ let rounded := discretize F32.ops raw in
       let ref := mean0 F32.ops rounded in
       let mu := tmean F32.ops ref in
       let sigma := tstd F32.ops ref in
       let norm := fun x =>
         SFdiv F32.prec F32.emax (SFsub F32.prec F32.emax x mu) sigma in
       let denorm := fun y =>
         SFadd F32.prec F32.emax (SFmul F32.prec F32.emax y sigma) mu in
       apply_model F32.ops E m (map (map norm) rounded) (shifts a) (split a)
       = inr sources
       /\ log s' = log s ++
            Stdout ("Separating track " ++ path_str track)
            :: map (fun p =>
                      WavWritten
                        (out /: track_folder_name track /: (snd p ++ ".wav")%string)
                        (wav_bytes F32.ops E 44100
                           (output_array F32.ops (float32 a)
                              (map (map denorm) (fst p)))))
                 (combine sources source_names)
       /\ (f32_finite mu -> f32_finite sigma ->
           (Rabs (f32_value mu) <= 4611686018427387904)%R ->
           (/ 4611686018427387904 <= f32_value sigma <= 4611686018427387904)%R ->
           forall x : F32.f32,
             f32_finite x ->
             (Rabs (f32_value x) <= 4611686018427387904)%R ->
             f32_finite (denorm (norm x))
             /\ (Rabs (f32_value (denorm (norm x)) - f32_value x)
                 <= (Rabs (f32_value x) + Rabs (f32_value mu)) / 2097152
                    + (f32_value sigma + 1) * bpow (-148))%R).
Proof.
  destruct (separate_track_log F32.ops E a m out track s s' Hrun)
    as (n & raw & sources & Hn & Hread & Happly & Hlog).
  exists n, raw, sources. split; [exact Hn|]. split; [exact Hread|].
  intros rounded ref mu sigma norm denorm.
  split; [exact Happly|]. split.
  - rewrite Hlog. f_equal. f_equal.
    unfold denormalize. rewrite combine_map_fst, map_map, map_map.
    reflexivity.
  - intros Hmu Hsigma HM HS x Hx HX.
    exact (f32_round_trip_chain x mu sigma Hx Hmu Hsigma HX HM HS).
Qed.

Lemma denormalize_normalize_round_trip_witness :
  let a := demo_args [] in
  let track := ["music"; "good.wav"]%string in
  let r := separate_track F32.ops demo_env a tt ["separated"; "demucs"]%string track
             music_state in
  let x := S754_finite true 8388608 (-25) in
  let y := S754_finite true 16777214 (-26) in
  r = (Val tt, snd r)
  /\ nth_error (concat (discretize F32.ops demo_wav)) 1 = Some x
  /\ f32_finite y
  /\ (Rabs (f32_value y - f32_value x)
      <= (Rabs (f32_value x) + 1 / 4) / 2097152
         + (f32_value (S754_finite false 11863283 (-25)) + 1) * bpow (-148))%R.
Proof.
  intros a track r x y.
  assert (Hrun : r = (Val tt, snd r)) by (vm_compute; reflexivity).
  split; [exact Hrun|]. split; [vm_compute; reflexivity|].
  destruct (denormalize_normalize_round_trip demo_env a tt
              ["separated"; "demucs"]%string track music_state (snd r) Hrun)
    as (n & raw & sources & Hn & Hread & _ & _ & Hclose).
  assert (Hn' : n = File (bytes_of_string "RIFF")).
  { vm_compute in Hn. injection Hn as <-. vm_compute. reflexivity. }
  subst n.
  assert (Hraw : raw = demo_wav) by (simpl in Hread; congruence).
  subst raw.
  assert (Hmu : tmean F32.ops (mean0 F32.ops (discretize F32.ops demo_wav))
                = S754_finite false 8388608 (-25)) by (vm_compute; reflexivity).
  assert (Hsigma : tstd F32.ops (mean0 F32.ops (discretize F32.ops demo_wav))
                   = S754_finite false 11863283 (-25)) by (vm_compute; reflexivity).
  rewrite Hmu, Hsigma in Hclose.
  assert (Hval_mu : f32_value (S754_finite false 8388608 (-25)) = (1 / 4)%R).
  { rewrite f32_value_neg_exp by lia. unfold sign_factor.
    change (2 ^ (- (-25))) with 33554432. lra. }
  assert (Hval_sigma : f32_value (S754_finite false 11863283 (-25))
                       = (11863283 / 33554432)%R).
  { rewrite f32_value_neg_exp by lia. unfold sign_factor.
    change (2 ^ (- (-25))) with 33554432. lra. }
  assert (Hval_x : f32_value x = (- (1 / 4))%R).
  { unfold x. rewrite f32_value_neg_exp by lia. unfold sign_factor.
    change (2 ^ (- (-25))) with 33554432. lra. }
  assert (Fmu : f32_finite (S754_finite false 8388608 (-25))) by (split; reflexivity).
  assert (Fsigma : f32_finite (S754_finite false 11863283 (-25)))
    by (split; reflexivity).
  assert (Fx : f32_finite x) by (split; reflexivity).
  destruct (Hclose Fmu Fsigma) with (x := x) as [Hy Hbound].
  - rewrite Hval_mu, Rabs_pos_eq; lra.
  - rewrite Hval_sigma. lra.
  - exact Fx.
  - rewrite Hval_x, Rabs_Ropp, Rabs_pos_eq; lra.
  - assert (Hy' : SFadd F32.prec F32.emax
                    (SFmul F32.prec F32.emax
                       (SFdiv F32.prec F32.emax
                          (SFsub F32.prec F32.emax x (S754_finite false 8388608 (-25)))
                          (S754_finite false 11863283 (-25)))
                       (S754_finite false 11863283 (-25)))
                    (S754_finite false 8388608 (-25)) = y) by (vm_compute; reflexivity).
    rewrite Hy' in Hy, Hbound. rewrite Hval_mu in Hbound.
    rewrite (Rabs_pos_eq (1 / 4)) in Hbound by lra.
    split; [exact Hy | exact Hbound].
Defined.

(** C8 does not hold for every waveform with a finite, nonzero deviation.
    On [loud_wav] the rounding changes nothing and the deviation of the
    reference is about 2^-16.5; the sample 2^112 less the mean and divided
    by it exceeds the range of binary32, so the normalised sample is
    infinite and the round trip gives an infinity for a finite sample. *)
Lemma round_trip_overflow_counterexample :
  let ref := mean0 F32.ops (discretize F32.ops loud_wav) in
  discretize F32.ops loud_wav = loud_wav
  /\ tstd F32.ops ref = S754_finite false 11863283 (-40)
  /\ F32.is_finite (tstd F32.ops ref) = true
  /\ F32.is_zero (tstd F32.ops ref) = false
  /\ map (map (fun x => denormalize_sample F32.ops ref (normalize_sample F32.ops ref x)))
         loud_wav
     = [ [S754_infinity false; S754_finite false 8388608 (-64)];
         [S754_infinity true; S754_finite false 8388608 (-38)] ].
Proof. vm_compute. repeat split; reflexivity. Qed.
